(** * zkmq: a work queue on a ZooKeeper-like coordination store

    Shallow embedding of [zkmq.py] (the [retry_on] decorator, the adapter
    [ZooKeeper], [Producer], [Consumer] and [GarbageCollector]) over a model
    of the coordination store, and the properties of the queue protocol
    stated against it.

    The Python methods are written as programs over the calls they make: a
    free monad with exceptions. One semantics runs a program with the other
    clients of the store acting between its calls; another interleaves a
    pool of programs call by call. The store, the wall clock and the
    adapter's condition variable make up the world that the calls act on. A
    third semantics lets the connection drop under the adapter's retry, and
    the handshake of [_connect] with the watcher's thread is a transition
    system of its own. *)

From stdpp Require Import gmap strings list fin_maps sorting pretty.
From Stdlib Require Import Ascii ZArith Lia.

(** * Part I: the model *)

(** ** Paths *)

(** [strip_prefix p s] is [Some r] exactly when [s = p +:+ r]. *)
Fixpoint strip_prefix (p s : string) : option string :=
  match p with
  | EmptyString => Some s
  | String a p' =>
      match s with
      | EmptyString => None
      | String b s' => if decide (a = b) then strip_prefix p' s' else None
      end
  end.

(** Whether [s] holds a slash. *)
Fixpoint has_slash (s : string) : bool :=
  match s with
  | EmptyString => false
  | String a s' => if decide (a = "/"%char) then true else has_slash s'
  end.

(** Everything before the last slash. *)
Fixpoint dirname (p : string) : string :=
  match p with
  | EmptyString => EmptyString
  | String a p' => if has_slash p' then String a (dirname p') else EmptyString
  end.

(** The parent of a top-level node is the root, ["/"]. *)
Definition parent_of (p : string) : string :=
  match dirname p with
  | EmptyString => "/"
  | d => d
  end.

(** What the path of every child of [p] starts with. *)
Definition child_prefix (p : string) : string :=
  if decide (p = "/") then "/" else p +:+ "/".

(** [child_name p k] is the last component of [k] when [k] names a child of
    [p]. *)
Definition child_name (p k : string) : option string :=
  match strip_prefix (child_prefix p) k with
  | Some c => if has_slash c || bool_decide (c = "") then None else Some c
  | None => None
  end.

(** ['/queue/items/' + child], the source of a move. *)
Definition item_path (child : string) : string := "/queue/items/" +:+ child.

(** [self._fullpath('/item')], the item slot of the consumer [id]. *)
Definition slot_path (id : string) : string := id +:+ "/item".

(** The identity of a registered consumer: a path under /queue/consumers. *)
Definition consumer_path (id : string) : Prop :=
  ∃ suffix, id = "/queue/consumers/" +:+ suffix.

(** ** The coordination store *)

(** The exceptions of the [zookeeper] module that the queue sees, and the two
    Python built-ins its own code can raise. *)
Inductive exn :=
| NoNodeException
| NodeExistsException
| BadVersionException
| NotEmptyException
| NoChildrenForEphemeralsException
| ConnectionLossException
| TypeError
| RuntimeError.

Global Instance exn_eq_dec : EqDecision exn.
Proof. solve_decision. Defined.

(** The part of a node's stat dictionary the queue reads ([stat['version']],
    [stat['ctime']]), with the child counter that sequential names are drawn
    from and the owning session of an ephemeral node. [ctime] is on the scale
    of the wall clock, in seconds: the source compares it with
    [time.time() - 300] as it is. *)
Record stat := Stat {
  version : Z;
  cversion : nat;
  ctime : Z;
  ephemeralOwner : option nat
}.

Record znode := Znode { data : string; zstat : stat }.

(** The store with the wall clock that [time.time()] reads and the adapter's
    condition variable [_cv]: how many times its (re-entrant) lock is held. *)
Record world := World {
  nodes : gmap string znode;
  clock : Z;
  cv : nat
}.

(** The world with other nodes, with another lock count, [d] seconds later. *)
Definition set_nodes (w : world) (m : gmap string znode) : world :=
  {| nodes := m; clock := clock w; cv := cv w |}.

Definition set_cv (w : world) (n : nat) : world :=
  {| nodes := nodes w; clock := clock w; cv := n |}.

Definition tick (d : Z) (w : world) : world :=
  {| nodes := nodes w; clock := (clock w + d)%Z; cv := cv w |}.

(** [zookeeper.EPHEMERAL] and [zookeeper.SEQUENCE]: bits 0 and 1 of the flags
    argument of [create]. *)
Definition EPHEMERAL : Z := 1%Z.

Definition SEQUENCE : Z := 2%Z.

(** The ten-digit, zero-padded counter a sequential name ends in. *)
Definition pad10 (n : nat) : string :=
  let s := pretty n in
  String.string_of_list_ascii (replicate (10 - String.length s) "0"%char) +:+ s.

(** The names of the children of [p], in no particular order. *)
Definition children (m : gmap string znode) (p : string) : list string :=
  omap (child_name p) (map_to_list m).*1.

(** A node after one more child was created under it. *)
Definition bump_cversion (n : znode) : znode :=
  {| data := data n;
     zstat := {| version := version (zstat n); cversion := S (cversion (zstat n));
                 ctime := ctime (zstat n);
                 ephemeralOwner := ephemeralOwner (zstat n) |} |}.

(** A node after a write: the data change and the version goes up. *)
Definition write_data (n : znode) (value : string) : znode :=
  {| data := value;
     zstat := {| version := (version (zstat n) + 1)%Z; cversion := cversion (zstat n);
                 ctime := ctime (zstat n);
                 ephemeralOwner := ephemeralOwner (zstat n) |} |}.

(** A version argument of [-1] matches every version. *)
Definition version_ok (expected : Z) (n : znode) : bool :=
  (expected =? -1)%Z || (expected =? version (zstat n))%Z.

(** The calls a queue method makes: on the store, on the clock and on the
    adapter's condition variable. [GetChildren]'s flag says whether a watcher
    was passed. *)
Inductive call :=
| Create (path value : string) (flags : Z)
| Get (path : string)
| SetData (path value : string) (expected : Z)
| Delete (path : string) (expected : Z)
| GetChildren (path : string) (watch : bool)
| Time_time
| Time_sleep
| Cv_acquire
| Cv_release
| Cv_wait.

Inductive reply :=
| RUnit
| RPath (path : string)
| RData (value : string) (st : stat)
| RChildren (names : list string)
| RTime (now : Z).

Definition result := (exn + reply)%type.

(** The call did not raise. *)
Definition succeeded (r : result) : bool :=
  match r with
  | inr _ => true
  | inl _ => false
  end.

(** [create]: the parent must exist and not be ephemeral; a sequential node
    gets the parent's child counter appended to its path; the path must be
    free. The node is stamped with the clock, and with the session when it is
    ephemeral. *)
Definition store_create (sid : nat) (path value : string) (flags : Z) (w : world)
  : result * world :=
  match nodes w !! parent_of path with
  | None => (inl NoNodeException, w)
  | Some par =>
      if ephemeralOwner (zstat par) is Some _
      then (inl NoChildrenForEphemeralsException, w)
      else
        let name := if Z.testbit flags 1
                    then path +:+ pad10 (cversion (zstat par)) else path in
        match nodes w !! name with
        | Some _ => (inl NodeExistsException, w)
        | None =>
            let st := {| version := 0%Z; cversion := 0; ctime := clock w;
                         ephemeralOwner :=
                           if Z.testbit flags 0 then Some sid else None |} in
            (inr (RPath name),
             set_nodes w (<[name := {| data := value; zstat := st |}]>
                            (<[parent_of path := bump_cversion par]> (nodes w))))
        end
  end.

Definition store_get (path : string) (w : world) : result * world :=
  match nodes w !! path with
  | None => (inl NoNodeException, w)
  | Some n => (inr (RData (data n) (zstat n)), w)
  end.

Definition store_set (path value : string) (expected : Z) (w : world)
  : result * world :=
  match nodes w !! path with
  | None => (inl NoNodeException, w)
  | Some n =>
      if version_ok expected n
      then (inr RUnit, set_nodes w (<[path := write_data n value]> (nodes w)))
      else (inl BadVersionException, w)
  end.

(** [delete]: the version must match and the node have no children. *)
Definition store_delete (path : string) (expected : Z) (w : world)
  : result * world :=
  match nodes w !! path with
  | None => (inl NoNodeException, w)
  | Some n =>
      if version_ok expected n
      then match children (nodes w) path with
           | [] => (inr RUnit, set_nodes w (delete path (nodes w)))
           | _ :: _ => (inl NotEmptyException, w)
           end
      else (inl BadVersionException, w)
  end.

Definition store_get_children (path : string) (w : world) : result * world :=
  match nodes w !! path with
  | None => (inl NoNodeException, w)
  | Some _ => (inr (RChildren (children (nodes w) path)), w)
  end.

(** One call of session [sid], atomically. A watch passed to [get_children]
    is not kept by the store, and [wait()] returns: being woken, by a watch
    or spuriously, is the environment's doing. Waiting on or releasing a lock
    that is not held raises [RuntimeError]. [time.sleep] leaves the clock
    alone: time passes by what the other clients do ([tick]). *)
Definition exec (sid : nat) (c : call) (w : world) : result * world :=
  match c with
  | Create path value flags => store_create sid path value flags w
  | Get path => store_get path w
  | SetData path value expected => store_set path value expected w
  | Delete path expected => store_delete path expected w
  | GetChildren path _ => store_get_children path w
  | Time_time => (inr (RTime (clock w)), w)
  | Time_sleep => (inr RUnit, w)
  | Cv_acquire => (inr RUnit, set_cv w (S (cv w)))
  | Cv_release =>
      match cv w with
      | O => (inl RuntimeError, w)
      | S n => (inr RUnit, set_cv w n)
      end
  | Cv_wait =>
      match cv w with
      | O => (inl RuntimeError, w)
      | S _ => (inr RUnit, w)
      end
  end.

Arguments exec : simpl never.

(** The session of [sid] ends: the store removes its ephemeral nodes. *)
Definition expire (sid : nat) (w : world) : world :=
  set_nodes w (filter (λ kv, ephemeralOwner (zstat kv.2) ≠ Some sid) (nodes w)).

(** A store holding the root only. *)
Definition root_node : znode :=
  {| data := ""; zstat := {| version := 0%Z; cversion := 0; ctime := 0%Z;
                             ephemeralOwner := None |} |}.

Definition empty_world : world :=
  {| nodes := {["/" := root_node]}; clock := 0%Z; cv := 0 |}.

(** The data of the node at [path], if there is one. *)
Definition data_at (path : string) (w : world) : option string :=
  data <$> nodes w !! path.

(** [f] leaves the node at [path] as it is. *)
Definition spares (path : string) (f : world → world) : Prop :=
  ∀ w, nodes (f w) !! path = nodes w !! path.

(** ** Programs over the store *)

(** A method body: it returns, raises, or makes a call and goes on with the
    reply. [OutOfFuel] stands for a [while True] loop cut off after the number
    of rounds it was given. *)
Inductive prog (A : Type) : Type :=
| Ret (a : A)
| Raise (e : exn)
| Call (c : call) (k : result → prog A)
| OutOfFuel.

Arguments Ret {A} a.
Arguments Raise {A} e.
Arguments Call {A} c k.
Arguments OutOfFuel {A}.

Fixpoint bind {A B : Type} (p : prog A) (f : A → prog B) : prog B :=
  match p with
  | Ret a => f a
  | Raise e => Raise e
  | Call c k => Call c (λ r, bind (k r) f)
  | OutOfFuel => OutOfFuel
  end.

(** [try: p  except ...: h]. The handler says which exceptions it takes; what
    it raises itself is not handled again. *)
Fixpoint try_except {A : Type} (p : prog A) (h : exn → option (prog A))
  : prog A :=
  match p with
  | Ret a => Ret a
  | Raise e => match h e with Some q => q | None => Raise e end
  | Call c k => Call c (λ r, try_except (k r) h)
  | OutOfFuel => OutOfFuel
  end.

Declare Scope prog_scope.
Delimit Scope prog_scope with prog.
Bind Scope prog_scope with prog.
Notation "x ← y ; z" := (bind y (λ x, z))
  (at level 20, y at level 100, z at level 200, only parsing) : prog_scope.
Notation "' x ← y ; z" := (bind y (λ x, z))
  (at level 20, x pattern, y at level 100, z at level 200, only parsing)
  : prog_scope.
Notation "x ;; z" := (bind x (λ _, z))
  (at level 100, z at level 200, only parsing, right associativity)
  : prog_scope.
Local Open Scope prog_scope.

(** How a program ends. *)
Inductive outcome (A : Type) : Type :=
| Returned (a : A)
| Raised (e : exn)
| Unfinished.

Arguments Returned {A} a.
Arguments Raised {A} e.
Arguments Unfinished {A}.

(** The calls a run made, with their replies, in order. *)
Abbreviation trace := (list (call * result)).

(** What the other clients do to the world before the next call of the
    program that runs: the first function of [env], if one is left. *)
Definition interfere (env : list (world → world)) (w : world) : world :=
  match env with
  | f :: _ => f w
  | [] => w
  end.

(** [run_with env sid p w] runs [p] as session [sid], the other clients acting
    before each of its calls. *)
Fixpoint run_with {A : Type} (env : list (world → world)) (sid : nat)
    (p : prog A) (w : world) : outcome A * world * trace :=
  match p with
  | Ret a => (Returned a, w, [])
  | Raise e => (Raised e, w, [])
  | OutOfFuel => (Unfinished, w, [])
  | Call c k =>
      let '(r, w2) := exec sid c (interfere env w) in
      let '(o, w3, tr) := run_with (tail env) sid (k r) w2 in
      (o, w3, (c, r) :: tr)
  end.

(** A program running alone. *)
Definition run {A : Type} (sid : nat) (p : prog A) (w : world)
  : outcome A * world * trace :=
  run_with [] sid p w.

(** The world that a program running alone leaves. *)
Definition after {A : Type} (sid : nat) (p : prog A) (w : world) : world :=
  (run sid p w).1.2.

(** The worlds that the calls of a run met, one per call, in order. *)
Fixpoint met_with {A : Type} (env : list (world → world)) (sid : nat)
    (p : prog A) (w : world) : list world :=
  match p with
  | Call c k =>
      let w0 := interfere env w in
      let '(r, w2) := exec sid c w0 in
      w0 :: met_with (tail env) sid (k r) w2
  | _ => []
  end.

(** A program after the replies to its first calls. *)
Definition advance {A : Type} (p : prog A) (replies : list result) : prog A :=
  foldl (λ q r, match q with Call _ k => k r | _ => q end) p replies.

(** A pool of clients, each a session with the rest of its program. A step
    lets one of them make its next call, or lets clients outside the pool
    act on the world. *)
Abbreviation pool A := (list (nat * prog A)).

Inductive step :=
| Run (i : nat)
| Others (f : world → world).

Definition pool_step {A : Type} (cfg : world * pool A) (s : step)
  : world * pool A :=
  match s with
  | Run i =>
      match cfg.2 !! i with
      | Some (sid, Call c k) =>
          let '(r, w') := exec sid c cfg.1 in (w', <[i := (sid, k r)]> cfg.2)
      | _ => cfg
      end
  | Others f => (f cfg.1, cfg.2)
  end.

Definition pool_run {A : Type} (sched : list step) (cfg : world * pool A)
  : world * pool A :=
  foldl pool_step cfg sched.

(** ** The adapter, [class ZooKeeper], and [retry_on] *)

(** [retry_on] over [excepts] and [fn]: when [fn] raises one of [excepts],
    sleep half a second and run it again, for ever; any other exception
    passes. The loop is given [fuel] rounds. *)
Fixpoint retry_on {A : Type} (excepts : list exn) (fn : prog A) (fuel : nat)
  : prog A :=
  match fuel with
  | O => OutOfFuel
  | S n =>
      try_except fn
        (λ e, if bool_decide (e ∈ excepts)
              then Some (Call Time_sleep (λ _, retry_on excepts fn n))
              else None)
  end.

(** A call made for its effect. *)
Definition call_unit (c : call) : prog unit :=
  Call c (λ r, match r with inl e => Raise e | inr _ => Ret tt end).

(** [__getattr__] passes a call through to the store, wrapped in
    [retry_on(ConnectionLossException)]. The store of this model never
    answers [ConnectionLossException] (the spec leaves connection loss to the
    client library), so the adapter's methods are the bare calls;
    [retry_connection_loss] shows that the wrapper changes nothing. The ACL
    argument of [create] is left out. *)
Definition zk_create (path value : string) (flags : Z) : prog string :=
  Call (Create path value flags)
    (λ r, match r with
          | inl e => Raise e
          | inr (RPath name) => Ret name
          | inr _ => Raise TypeError
          end).

Definition zk_get (path : string) : prog (string * stat) :=
  Call (Get path)
    (λ r, match r with
          | inl e => Raise e
          | inr (RData value st) => Ret (value, st)
          | inr _ => Raise TypeError
          end).

Definition zk_set (path value : string) (expected : Z) : prog unit :=
  call_unit (SetData path value expected).

Definition zk_delete (path : string) (expected : Z) : prog unit :=
  call_unit (Delete path expected).

Definition zk_get_children (path : string) (watch : bool)
  : prog (list string) :=
  Call (GetChildren path watch)
    (λ r, match r with
          | inl e => Raise e
          | inr (RChildren names) => Ret names
          | inr _ => Raise TypeError
          end).

Definition time_time : prog Z :=
  Call Time_time
    (λ r, match r with
          | inl e => Raise e
          | inr (RTime now) => Ret now
          | inr _ => Raise TypeError
          end).

Definition cv_acquire : prog unit := call_unit Cv_acquire.

Definition cv_release : prog unit := call_unit Cv_release.

Definition cv_wait : prog unit := call_unit Cv_wait.

(** [ensure_exists]: a create whose [NodeExistsException] is passed over. *)
Definition ensure_exists (name value : string) : prog unit :=
  try_except (zk_create name value 0;; Ret tt)
    (λ e, match e with
          | NodeExistsException => Some (Ret tt)
          | _ => None
          end).

(** Python's [sorted] on names: by code point, as [String.leb] orders. *)
Definition str_le (a b : string) : Prop := String.leb a b = true.

Global Instance str_le_dec (a b : string) : Decision (str_le a b).
Proof. unfold str_le. apply _. Defined.

Definition sorted (l : list string) : list string := merge_sort str_le l.

(** Truth of a value that is a string or [None]. *)
Definition truthy (v : option string) : bool :=
  match v with
  | Some (String _ _) => true
  | _ => false
  end.

(** ** [ZooKeeper._connect]: the constructor's thread and the watcher *)

(** Where [_connect] stands: before [self._cv.acquire()]; before
    [zookeeper.init]; before [self._cv.wait(10.0)]; inside [wait], the lock
    given up; woken or timed out, taking the lock again; at the test of
    [self._connected]; before [self._cv.release()]; returned; or left by
    [sys.exit(-1)]. *)
Inductive connect_pc :=
| CAcquire | CInit | CWait | CSleeping | CReacquire | CCheck | CRelease
| CReturned | CExited.

(** Where the client library's thread stands in the [watcher] callback: no
    call under way; before [acquire()]; before [self._connected = True];
    before [notify()]; before [release()]. *)
Inductive watcher_pc := WIdle | WAcquire | WSet | WNotify | WRelease.

(** The two threads. *)
Inductive thread := Constructor | Library.

(** The adapter while it connects: the two threads, who holds the lock of
    [_cv], [_connected], and whether [_handle] has been set. *)
Record connecting := Connecting {
  cpc : connect_pc;
  wpc : watcher_pc;
  holder : option thread;
  connected : bool;
  handle : bool
}.

(** What can happen next: the constructor's thread takes its next step; the
    library delivers a session event and calls [watcher(handle, type, state,
    path)]; the callback takes its next step; the ten seconds of [wait] run
    out. *)
Inductive connect_action :=
| StepConstructor
| Event (type state : Z) (path : string)
| StepWatcher
| TimeOut.

(** One action. A thread that cannot go on (the lock is taken, or it sleeps
    in [wait]) stays where it is. The callback reads none of its arguments. *)
Definition connect_step (s : connecting) (a : connect_action) : connecting :=
  match a with
  | StepConstructor =>
      match cpc s with
      | CAcquire =>
          match holder s with
          | None => {| cpc := CInit; wpc := wpc s; holder := Some Constructor;
                       connected := connected s; handle := handle s |}
          | Some _ => s
          end
      | CInit => {| cpc := CWait; wpc := wpc s; holder := holder s;
                    connected := connected s; handle := true |}
      | CWait => {| cpc := CSleeping; wpc := wpc s; holder := None;
                    connected := connected s; handle := handle s |}
      | CSleeping => s
      | CReacquire =>
          match holder s with
          | None => {| cpc := CCheck; wpc := wpc s; holder := Some Constructor;
                       connected := connected s; handle := handle s |}
          | Some _ => s
          end
      | CCheck =>
          {| cpc := if connected s then CRelease else CExited;
             wpc := wpc s; holder := holder s;
             connected := connected s; handle := handle s |}
      | CRelease => {| cpc := CReturned; wpc := wpc s; holder := None;
                       connected := connected s; handle := handle s |}
      | CReturned | CExited => s
      end
  | Event _ _ _ =>
      match handle s, wpc s with
      | true, WIdle => {| cpc := cpc s; wpc := WAcquire; holder := holder s;
                          connected := connected s; handle := handle s |}
      | _, _ => s
      end
  | StepWatcher =>
      match wpc s with
      | WIdle => s
      | WAcquire =>
          match holder s with
          | None => {| cpc := cpc s; wpc := WSet; holder := Some Library;
                       connected := connected s; handle := handle s |}
          | Some _ => s
          end
      | WSet => {| cpc := cpc s; wpc := WNotify; holder := holder s;
                   connected := true; handle := handle s |}
      | WNotify =>
          {| cpc := match cpc s with CSleeping => CReacquire | pc => pc end;
             wpc := WRelease; holder := holder s;
             connected := connected s; handle := handle s |}
      | WRelease => {| cpc := cpc s; wpc := WIdle; holder := None;
                       connected := connected s; handle := handle s |}
      end
  | TimeOut =>
      match cpc s with
      | CSleeping => {| cpc := CReacquire; wpc := wpc s; holder := holder s;
                        connected := connected s; handle := handle s |}
      | _ => s
      end
  end.

(** [__init__] has set [_handle = None] and [_connected = False] and made the
    condition variable. *)
Definition connect_start : connecting :=
  {| cpc := CAcquire; wpc := WIdle; holder := None; connected := false;
     handle := false |}.

(** [_connect] after the actions of [sched], in order. *)
Definition connect_run (sched : list connect_action) : connecting :=
  foldl connect_step connect_start sched.

(** Equality of the points and threads is decidable, so that the invariants
    can be computed. *)
Global Instance connect_pc_eq_dec : EqDecision connect_pc.
Proof. solve_decision. Defined.

Global Instance watcher_pc_eq_dec : EqDecision watcher_pc.
Proof. solve_decision. Defined.

Global Instance thread_eq_dec : EqDecision thread.
Proof. solve_decision. Defined.

(** What holds at every moment of [_connect]: the lock is held by the
    constructor exactly at the points between its [acquire()] and its
    [wait], and after [wait] up to its [release()], and by the callback
    exactly between the callback's [acquire()] and [release()]; no callback
    has started before [zookeeper.init]; the flag is unset until the
    constructor waits, and set wherever the code has seen or made it so; and
    a sleeping constructor with the flag set is about to be notified. *)
Definition connect_ok (s : connecting) : bool :=
  bool_decide (holder s = Some Constructor ↔
               cpc s ∈ [CInit; CWait; CCheck; CRelease; CExited]) &&
  bool_decide (holder s = Some Library ↔ wpc s ∈ [WSet; WNotify; WRelease]) &&
  bool_decide (handle s = false ↔ cpc s ∈ [CAcquire; CInit]) &&
  bool_decide (cpc s ∈ [CAcquire; CInit] → wpc s = WIdle) &&
  bool_decide (cpc s ∈ [CAcquire; CInit; CWait] → connected s = false) &&
  bool_decide (cpc s ∈ [CRelease; CReturned] → connected s = true) &&
  bool_decide (wpc s ∈ [WNotify; WRelease] → connected s = true) &&
  bool_decide (cpc s = CSleeping → connected s = true → wpc s = WNotify).

(** Besides, as long as [wait] has not timed out: the constructor is past
    [wait] only with the flag set, and has not exited. *)
Definition woken_ok (s : connecting) : bool :=
  bool_decide (cpc s ∈ [CReacquire; CCheck] → connected s = true) &&
  bool_decide (cpc s ≠ CExited).

(** And as long as no event has been delivered: no callback has run. *)
Definition quiet_ok (s : connecting) : bool :=
  bool_decide (wpc s = WIdle) && bool_decide (connected s = false).

(** The kinds of action that a schedule may be free of. *)
Definition is_timeout (a : connect_action) : bool :=
  match a with TimeOut => true | _ => false end.

Definition is_event (a : connect_action) : bool :=
  match a with Event _ _ _ => true | _ => false end.

(** ** A connection that drops *)

(** The calls that go to the store through the adapter's [__getattr__]; the
    clock, [time.sleep] and the condition variable are reached directly. *)
Definition is_store_call (c : call) : bool :=
  match c with
  | Create _ _ _ | Get _ | SetData _ _ _ | Delete _ _ | GetChildren _ _ => true
  | Time_time | Time_sleep | Cv_acquire | Cv_release | Cv_wait => false
  end.

(** [retry_on(zookeeper.ConnectionLossException)] around one store call: on
    that exception the wrapper sleeps and makes the same call again; any other
    reply goes on to the caller, [k]. [n] bounds the rounds. *)
Fixpoint retry_call {A : Type} (c : call) (k : result → prog A) (n : nat)
  : prog A :=
  match n with
  | O => OutOfFuel
  | S n' =>
      Call c (λ r,
        match r with
        | inl ConnectionLossException =>
            Call Time_sleep (λ _, retry_call c k n')
        | _ => k r
        end)
  end.

(** [__getattr__]: a method as the adapter runs it, every store call of it
    under the retry. *)
Fixpoint via_adapter {A : Type} (fuel : nat) (p : prog A) : prog A :=
  match p with
  | Ret a => Ret a
  | Raise e => Raise e
  | OutOfFuel => OutOfFuel
  | Call c k =>
      if is_store_call c
      then retry_call c (λ r, via_adapter fuel (k r)) fuel
      else Call c (λ r, via_adapter fuel (k r))
  end.

(** What becomes of a request on a connection that can drop: it is answered;
    the connection is lost before the request reaches the store; or it is
    lost after the store has applied the request, before the reply comes
    back. The client sees [ConnectionLossException] in both cases of loss. *)
Inductive fate := Delivered | LostBefore | LostAfter.

(** A store call with its fate. *)
Definition exec_on (f : fate) (sid : nat) (c : call) (w : world)
  : result * world :=
  match f with
  | Delivered => exec sid c w
  | LostBefore => (inl ConnectionLossException, w)
  | LostAfter => (inl ConnectionLossException, (exec sid c w).2)
  end.

(** [run_on fates sid p w] runs [p] alone on such a connection: the store
    calls meet the fates of the list, one each, and are delivered once the
    list is used up. *)
Fixpoint run_on {A : Type} (fates : list fate) (sid : nat) (p : prog A)
    (w : world) : outcome A * world * trace :=
  match p with
  | Ret a => (Returned a, w, [])
  | Raise e => (Raised e, w, [])
  | OutOfFuel => (Unfinished, w, [])
  | Call c k =>
      let f := if is_store_call c then default Delivered (head fates)
               else Delivered in
      let '(r, w2) := exec_on f sid c w in
      let '(o, w3, tr) :=
        run_on (if is_store_call c then tail fates else fates) sid (k r) w2 in
      (o, w3, (c, r) :: tr)
  end.

(** ** [class Producer] *)

(** [Producer.__init__]. *)
Definition Producer_init : prog unit :=
  ensure_exists "/queue" "";;
  ensure_exists "/queue/items" "".

(** The body of [put]: the write expects version 0, the version of the node
    just created. *)
Definition put_body (value : string) : prog unit :=
  name ← zk_create "/queue/items/item-" "" SEQUENCE;
  zk_set name value 0.

(** [put] under [@retry_on(zookeeper.NoNodeException)]. *)
Definition put (fuel : nat) (value : string) : prog unit :=
  retry_on [NoNodeException] (put_body value) fuel.

(** ** [class Consumer] *)

(** The object's only field of its own; [None] before registration and after
    [close]. *)
Record Consumer := { _id : option string }.

(** [self._id + sufix]: a [TypeError] when [_id] is [None]. *)
Definition _fullpath (self : Consumer) (sufix : string) : prog string :=
  match _id self with
  | Some id => Ret (id +:+ sufix)
  | None => Raise TypeError
  end.

(** [_register]: [_id] is assigned as soon as the registration node is
    created. *)
Definition _register : prog Consumer :=
  id ← zk_create "/queue/consumers/consumer-" "" SEQUENCE;
  let self := {| _id := Some id |} in
  active ← _fullpath self "/active";
  zk_create active "" EPHEMERAL;;
  item ← _fullpath self "/item";
  zk_create item "" 0;;
  Ret self.

(** [Consumer.__init__]. *)
Definition Consumer_init : prog Consumer :=
  ensure_exists "/queue" "";;
  ensure_exists "/queue/items" "";;
  ensure_exists "/queue/consumers" "";;
  ensure_exists "/queue/partial" "";;
  _register.

(** [_move]. The handlers are those of the outer [try]: [NoNodeException]
    from any call of the body empties the slot and gives [None];
    [BadVersionException] is raised again. A node that is empty and not yet
    300 seconds old falls through both branches: the method returns
    [None]. *)
Definition _move (src dest : string) : prog (option string) :=
  try_except
    ('(value, st) ← zk_get src;
     if truthy (Some value) then
       zk_set dest value (-1);;
       zk_delete src (version st);;
       Ret (Some value)
     else
       now ← time_time;
       if (ctime st <? now - 300)%Z then
         try_except (zk_delete src (-1))
           (λ e, match e with
                 | NoNodeException => Some (Ret tt)
                 | _ => None
                 end);;
         Ret None
       else Ret None)
    (λ e, match e with
          | NoNodeException => Some (zk_set dest "" (-1);; Ret None)
          | BadVersionException => Some (Raise BadVersionException)
          | _ => None
          end).

(** The [for child in children] loop of [_simple_reserve]: [Some] payload when
    the loop returned one, [None] when it ran to its end. *)
Fixpoint simple_scan (self : Consumer) (children : list string)
  : prog (option string) :=
  match children with
  | [] => Ret None
  | child :: rest =>
      dest ← _fullpath self "/item";
      value ← _move ("/queue/items/" +:+ child) dest;
      if truthy value then Ret value else simple_scan self rest
  end.

(** [_simple_reserve], [fuel] rounds of its [while True]. *)
Fixpoint _simple_reserve (fuel : nat) (self : Consumer)
  : prog (option string) :=
  match fuel with
  | O => OutOfFuel
  | S n =>
      names ← zk_get_children "/queue/items" false;
      let children := sorted names in
      if (length children =? 0)%nat then Ret None
      else
        found ← simple_scan self children;
        if truthy found then Ret found else _simple_reserve n self
  end.

(** The loop of [_blocking_reserve]; [wait()] and the second [release()] are
    in the body of the [for], as in the source. *)
Fixpoint blocking_scan (self : Consumer) (children : list string)
  : prog (option string) :=
  match children with
  | [] => Ret None
  | child :: rest =>
      dest ← _fullpath self "/item";
      value ← _move ("/queue/items/" +:+ child) dest;
      if truthy value then cv_release;; Ret value
      else cv_wait;; cv_release;; blocking_scan self rest
  end.

(** [_blocking_reserve], [fuel] rounds of its [while True]. *)
Fixpoint _blocking_reserve (fuel : nat) (self : Consumer)
  : prog (option string) :=
  match fuel with
  | O => OutOfFuel
  | S n =>
      cv_acquire;;
      names ← zk_get_children "/queue/items" true;
      found ← blocking_scan self (sorted names);
      if truthy found then Ret found else _blocking_reserve n self
  end.

Definition reserve (fuel : nat) (self : Consumer) (block : bool)
  : prog (option string) :=
  if block then _blocking_reserve fuel self else _simple_reserve fuel self.

(** [done]: the slot is emptied. *)
Definition done (self : Consumer) : prog unit :=
  item ← _fullpath self "/item";
  zk_set item "" (-1).

(** The tuple of paths is built first, then the three deletes run in order,
    then [_id] is cleared. *)
Definition close (self : Consumer) : prog Consumer :=
  item ← _fullpath self "/item";
  active ← _fullpath self "/active";
  match _id self with
  | None => Raise TypeError
  | Some id =>
      zk_delete item (-1);;
      zk_delete active (-1);;
      zk_delete id (-1);;
      Ret {| _id := None |}
  end.

(** ** [class GarbageCollector] *)

(** [GarbageCollector.__init__]. *)
Definition GarbageCollector_init : prog unit :=
  ensure_exists "/queue" "";;
  ensure_exists "/queue/consumers" "";;
  ensure_exists "/queue/partial" "".

(** The loop body is a [break]; the method ends without a [return], so its
    value is Python's [None]. *)
Definition collect : prog (option nat) :=
  children ← zk_get_children "/queue/consumers" false;
  match children with
  | [] => Ret None
  | child :: _ => Ret None
  end.

(** ** The vocabulary of the properties *)

(** How a move of an existing node ends when the consumer runs alone. *)
Inductive move_result (src dest : string) (n : znode) (w : world)
  : outcome (option string) → world → trace → Prop :=
| move_won nd :
    data n ≠ "" →
    nodes w !! dest = Some nd →
    children (nodes w) src = [] →
    move_result src dest n w
      (Returned (Some (data n)))
      (set_nodes w (delete src (<[dest := write_data nd (data n)]> (nodes w))))
      [(Get src, inr (RData (data n) (zstat n)));
       (SetData dest (data n) (-1), inr RUnit);
       (Delete src (version (zstat n)), inr RUnit)]
| move_dropped :
    data n = "" →
    (ctime (zstat n) < clock w - 300)%Z →
    children (nodes w) src = [] →
    move_result src dest n w
      (Returned None)
      (set_nodes w (delete src (nodes w)))
      [(Get src, inr (RData (data n) (zstat n)));
       (Time_time, inr (RTime (clock w)));
       (Delete src (-1), inr RUnit)]
| move_skipped :
    data n = "" →
    (clock w - 300 ≤ ctime (zstat n))%Z →
    move_result src dest n w
      (Returned None) w
      [(Get src, inr (RData (data n) (zstat n)));
       (Time_time, inr (RTime (clock w)))]
| move_raised e w' tr :
    nodes w !! dest = None ∨ children (nodes w) src ≠ [] →
    move_result src dest n w (Raised e) w' tr.

(** What a scan of the candidates [cs] leaves, the consumer running alone. *)
Definition scan_post (id : string) (cs : list string) (w : world)
    (o : outcome (option string)) (w' : world) (tr : trace) : Prop :=
  match o with
  | Returned found =>
      clock w' = clock w ∧ cv w' = cv w ∧
      (∀ k, is_Some (nodes w' !! k) → is_Some (nodes w !! k)) ∧
      (∀ k, k ≠ slot_path id → (∀ c, k ≠ item_path c) →
            nodes w' !! k = nodes w !! k) ∧
      match found with
      | Some d =>
          d ≠ "" ∧
          data_at (slot_path id) w' = Some d ∧
          ∃ c st,
            c ∈ cs ∧ nodes w' !! item_path c = None ∧
            [(Get (item_path c), inr (RData d st));
             (SetData (slot_path id) d (-1), inr RUnit);
             (Delete (item_path c) (version st), inr RUnit)] `suffix_of` tr
      | None => nodes w' !! slot_path id = nodes w !! slot_path id
      end
  | Raised e =>
      nodes w !! slot_path id = None ∨
      ∃ c, c ∈ cs ∧ children (nodes w) (item_path c) ≠ []
  | Unfinished => False
  end.

(** What a non-blocking [reserve()] leaves, the consumer running alone. *)
Definition reserve_post (id : string) (w : world)
    (o : outcome (option string)) (w' : world) (tr : trace) : Prop :=
  match o with
  | Returned found =>
      clock w' = clock w ∧ cv w' = cv w ∧
      (∀ k, is_Some (nodes w' !! k) → is_Some (nodes w !! k)) ∧
      (∀ k, k ≠ slot_path id → (∀ c, k ≠ item_path c) →
            nodes w' !! k = nodes w !! k) ∧
      match found with
      | Some d =>
          d ≠ "" ∧
          data_at (slot_path id) w' = Some d ∧
          ∃ c st,
            nodes w' !! item_path c = None ∧
            [(Get (item_path c), inr (RData d st));
             (SetData (slot_path id) d (-1), inr RUnit);
             (Delete (item_path c) (version st), inr RUnit)] `suffix_of` tr
      | None =>
          nodes w' !! slot_path id = nodes w !! slot_path id ∧
          children (nodes w') "/queue/items" = [] ∧
          [(GetChildren "/queue/items" false, inr (RChildren []))] `suffix_of` tr
      end
  | Raised e =>
      nodes w !! "/queue/items" = None ∨
      nodes w !! slot_path id = None ∨
      ∃ c, c ∈ children (nodes w) "/queue/items" ∧
           children (nodes w) (item_path c) ≠ []
  | Unfinished => True
  end.

(** Every call of a run that the store answered with [BadVersionException] is
    the conditional delete of a move that had written the payload to the slot
    just before, and the run ended there, raising the exception. *)
Definition conflict_surfaces {A : Type} (res : outcome A * world * trace)
  : Prop :=
  ∀ c, (c, inl BadVersionException) ∈ res.2 →
    res.1.1 = Raised BadVersionException ∧
    ∃ src dest value st,
      c = Delete src (version st) ∧
      [(Get src, inr (RData value st));
       (SetData dest value (-1), inr RUnit);
       (Delete src (version st), inl BadVersionException)] `suffix_of` res.2.

(** How an execution of [put value] can go: attempts that end in
    [NoNodeException], each followed by the half-second sleep, and then the
    end: the write went through, an exception other than [NoNodeException]
    was raised, or the rounds given ran out. *)
Inductive put_run (value : string) : outcome () → world → trace → Prop :=
| put_written name nd w' :
    nodes w' !! name = Some nd →
    data nd = value →
    put_run value (Returned ()) w'
      [(Create "/queue/items/item-" "" SEQUENCE, inr (RPath name));
       (SetData name value 0, inr RUnit)]
| put_write_retried name o w' tr :
    put_run value o w' tr →
    put_run value o w'
      ((Create "/queue/items/item-" "" SEQUENCE, inr (RPath name))
       :: (SetData name value 0, inl NoNodeException)
       :: (Time_sleep, inr RUnit) :: tr)
| put_create_retried o w' tr :
    put_run value o w' tr →
    put_run value o w'
      ((Create "/queue/items/item-" "" SEQUENCE, inl NoNodeException)
       :: (Time_sleep, inr RUnit) :: tr)
| put_unfinished w' :
    put_run value Unfinished w' []
| put_create_raised e w' :
    e ≠ NoNodeException →
    put_run value (Raised e) w'
      [(Create "/queue/items/item-" "" SEQUENCE, inl e)]
| put_write_raised name e w' :
    e ≠ NoNodeException →
    put_run value (Raised e) w'
      [(Create "/queue/items/item-" "" SEQUENCE, inr (RPath name));
       (SetData name value 0, inl e)].

(** What a move, a scan, a [reserve()] leaves in a slot that was empty. *)
Definition slot_post (dest : string) (res : outcome (option string) * world * trace)
  : Prop :=
  match res.1.1 with
  | Returned (Some d) => d ≠ "" ∧ data_at dest res.1.2 = Some d
  | Returned None => data_at dest res.1.2 = Some ""
  | _ => True
  end.

(** An operation of the consumer, with what the other clients do before each
    of its calls. *)
Inductive op :=
| OpReserve (env : list (world → world))
| OpDone (env : list (world → world)).

(** What the other clients do during an operation. *)
Definition op_env (o : op) : list (world → world) :=
  match o with
  | OpReserve env => env
  | OpDone env => env
  end.

(** A consumer's operations in sequence. [held] says whether a [reserve()]
    has returned a payload since the last [done()]. A non-blocking
    [reserve()] is made by an idle consumer only, as in the state machine of
    the protocol, and the sequence ends ([None]) at a call that raises or
    does not return. *)
Fixpoint run_ops (sid fuel : nat) (self : Consumer) (ops : list op)
    (w : world) (held : bool) : option (world * bool) :=
  match ops with
  | [] => Some (w, held)
  | OpReserve env :: rest =>
      if held then None
      else
        match run_with env sid (reserve fuel self false) w with
        | (Returned found, w', _) => run_ops sid fuel self rest w' (truthy found)
        | _ => None
        end
  | OpDone env :: rest =>
      match run_with env sid (done self) w with
      | (Returned _, w', _) => run_ops sid fuel self rest w' false
      | _ => None
      end
  end.

(** The points that a move of a node holding a payload goes through: before
    its read, after it, after the write to the slot; at its end with the
    payload; after a read or a delete that found the node gone; at its end
    without a payload. *)
Inductive move_point :=
| Fresh | Read | Written | Won | LostRead | LostDelete | Cleared.

(** What is left of the move at each point: [_move] after the replies that
    lead there. *)
Definition point_prog (src dest value : string) (st : stat) (pt : move_point)
  : prog (option string) :=
  match pt with
  | Fresh => _move src dest
  | Read => advance (_move src dest) [inr (RData value st)]
  | Written => advance (_move src dest) [inr (RData value st); inr RUnit]
  | Won => Ret (Some value)
  | LostRead => advance (_move src dest) [inl NoNodeException]
  | LostDelete =>
      advance (_move src dest)
        [inr (RData value st); inr RUnit; inl NoNodeException]
  | Cleared => Ret None
  end.

(** What the slot of a client at a point holds. *)
Definition slot_at (value : string) (pt : move_point) : string :=
  match pt with
  | Written | Won | LostDelete => value
  | Fresh | Read | LostRead | Cleared => ""
  end.

(** The points a client can be at: before any delete has succeeded, and once
    client [j]'s has. *)
Definition allowed (winner : option nat) (i : nat) (pt : move_point) : Prop :=
  match winner with
  | None => pt = Fresh ∨ pt = Read ∨ pt = Written
  | Some j => if decide (i = j) then pt = Won else pt ≠ Won
  end.

(** The invariant of the race: the node is there, untouched, until one
    client's delete has succeeded; every client is at a point that this
    allows, and its slot holds what the point says. *)
Definition race_inv (src value : string) (st : stat)
    (clients : list (nat * string)) (cfg : world * pool (option string))
  : Prop :=
  ∃ winner : option nat,
    length cfg.2 = length clients ∧
    match winner with
    | None =>
        nodes cfg.1 !! src = Some {| data := value; zstat := st |} ∧
        children (nodes cfg.1) src = []
    | Some j => nodes cfg.1 !! src = None ∧ is_Some (clients !! j)
    end ∧
    ∀ i sid dest,
      clients !! i = Some (sid, dest) →
      ∃ pt,
        cfg.2 !! i = Some (sid, point_prog src dest value st pt) ∧
        data_at dest cfg.1 = Some (slot_at value pt) ∧
        allowed winner i pt.

(** What clients outside the race may do to the world: anything that leaves
    the raced node and the racers' slots as they are and gives the node no
    child. *)
Definition harmless (src : string) (slots : list string) (f : world → world)
  : Prop :=
  spares src f ∧
  (∀ dest, dest ∈ slots → spares dest f) ∧
  (∀ w, children (nodes w) src = [] → children (nodes (f w)) src = []).

(** The steps of a schedule that are not the racers' are harmless. *)
Definition others_harmless (src : string) (slots : list string) (s : step)
  : Prop :=
  match s with
  | Run _ => True
  | Others f => harmless src slots f
  end.

(** The clients, each a session and its slot, start a move of [src]. *)
Definition movers (src : string) (clients : list (nat * string))
  : pool (option string) :=
  (λ c, (c.1, _move src c.2)) <$> clients.

(** ** Stores as trees, and what a method leaves of a store *)

(** The store is a tree: every node but the root has its parent. *)
Definition tree (m : gmap string znode) : Prop :=
  ∀ k, is_Some (m !! k) → k ≠ "/" → is_Some (m !! parent_of k).

(** A node as [create] makes it. *)
Definition fresh_node (value : string) (now : Z) (owner : option nat) : znode :=
  {| data := value;
     zstat := {| version := 0; cversion := 0; ctime := now;
                 ephemeralOwner := owner |} |}.

(** [w'] holds every node of [w] with the data, the version and the owner it
    has in [w]. *)
Definition keeps (w w' : world) : Prop :=
  ∀ k n, nodes w !! k = Some n →
    ∃ n', nodes w' !! k = Some n' ∧ data n' = data n ∧
          version (zstat n') = version (zstat n) ∧
          ephemeralOwner (zstat n') = ephemeralOwner (zstat n).

(** The node at [p], if there is one, is not ephemeral. *)
Definition persistent (p : string) (w : world) : Prop :=
  ∀ n, nodes w !! p = Some n → ephemeralOwner (zstat n) = None.

(** [w'] is [w] with nodes added under the paths [names] and nothing else
    changed: every node of [w] is there with its data, version and owner,
    the nodes other than [names] and their parents are as they were, no
    ephemeral node was added, and the store is still a tree if it was. *)
Definition extends_by (names : list string) (w w' : world) : Prop :=
  keeps w w' ∧ clock w' = clock w ∧ cv w' = cv w ∧
  (∀ k, is_Some (nodes w' !! k) → k ∈ names ∨ is_Some (nodes w !! k)) ∧
  (∀ k, k ∉ names → (∀ n, n ∈ names → k ≠ parent_of n) →
        nodes w' !! k = nodes w !! k) ∧
  (∀ p, persistent p w → persistent p w') ∧
  (tree (nodes w) → tree (nodes w')).

(** A producer and a consumer as clients of one pool: [put] and [_move],
    their results side by side. *)
Definition producer_job (fuel : nat) (value : string)
  : prog (unit + option string) :=
  x ← put fuel value; Ret (inl x).

(** The consumer's part. *)
Definition consumer_job (src dest : string) : prog (unit + option string) :=
  x ← _move src dest; Ret (inr x).

(** The padding of [pad10]. *)
Definition zeros (k : nat) : string :=
  String.string_of_list_ascii (replicate k "0"%char).

(** The [k] decimal digits of [x], the most significant first: what
    ["%0kd"] prints of a number below [10^k]. *)
Fixpoint digits (k : nat) (x : N) : string :=
  match k with
  | O => ""
  | S k' => digits k' (x `div` 10) +:+ String (pretty_N_char (x `mod` 10)) ""
  end.

(** ** Concrete stores and clients *)

Definition consumer0 : Consumer :=
  {| _id := Some "/queue/consumers/consumer-0000000000" |}.

Definition consumer1 : Consumer :=
  {| _id := Some "/queue/consumers/consumer-0000000001" |}.

Definition closed_consumer : Consumer := {| _id := None |}.

(** A producer (session 1) has set up the queue. *)
Definition w_queue : world := after 1 Producer_init empty_world.

(** ... and has put one job. *)
Definition w_job : world := after 1 (put 1 "job-a") w_queue.

(** A consumer (session 2) has registered: on the empty queue, and on the
    queue holding the job. *)
Definition w_idle : world := after 2 Consumer_init w_queue.

Definition w_ready : world := after 2 Consumer_init w_job.

(** A producer created an item node and has not written it (yet). *)
Definition w_stalled : world :=
  after 2 Consumer_init
    (after 1 (zk_create "/queue/items/item-" "" SEQUENCE) w_queue).

(** Two item nodes created and not written. *)
Definition w_stalled2 : world :=
  after 2 Consumer_init
    (after 1 (zk_create "/queue/items/item-" "" SEQUENCE)
       (after 1 (zk_create "/queue/items/item-" "" SEQUENCE) w_queue)).

(** The consumer has closed. *)
Definition w_closed : world := after 2 (close consumer0) w_idle.

(** A producer stalled on one item and then put a job behind it. *)
Definition w_behind : world :=
  after 2 Consumer_init
    (after 1 (put 1 "job-b")
       (after 1 (zk_create "/queue/items/item-" "" SEQUENCE) w_queue)).

(** The consumer reserved the job and its session died; a collector
    (session 3) has started. *)
Definition w_orphan : world :=
  after 3 GarbageCollector_init
    (expire 2 (after 2 (reserve 1 consumer0 false) w_ready)).

(** The queue holds two jobs and the consumer has reserved the first. *)
Definition w_hold : world :=
  after 2 (reserve 1 consumer0 false)
    (after 2 Consumer_init (after 1 (put 1 "job-b") w_job)).

(** The queue holds the job and two consumers (sessions 2 and 3) have
    registered. *)
Definition w_two : world := after 3 Consumer_init w_ready.

(** The two consumers as racers: session and slot. *)
Definition two_movers : list (nat * string) :=
  [(2, "/queue/consumers/consumer-0000000000/item");
   (3, "/queue/consumers/consumer-0000000001/item")].

(** Another client (session 9) writes a node in place. *)
Definition rewrite_in_place (path value : string) (w : world) : world :=
  (exec 9 (SetData path value (-1)) w).2.

(** Five minutes after the producer's create, a consumer (session 2) moves the
    node that is still empty: it drops it. *)
Definition drop_after_timeout (w : world) : world :=
  after 2 (_move "/queue/items/item-0000000000"
             "/queue/consumers/consumer-0000000000/item") (tick 301 w).

(** Another consumer (session 3) has won an item node: it is deleted. *)
Definition taken_by_another (path : string) (w : world) : world :=
  (exec 3 (Delete path (-1)) w).2.

(** The consumer has reserved the job. *)
Definition w_held : world := after 2 (reserve 1 consumer0 false) w_ready.

(** * Part II: the properties *)

(** ** Paths, listings and sorting *)

Lemma strip_prefix_Some (p s r : string) :
  strip_prefix p s = Some r ↔ s = p +:+ r.
Proof.
  revert s. induction p as [|a p IH]; intros s; simpl.
  - split; [intros [= ->]|intros ->]; done.
  - destruct s as [|b s]; [split; intros; discriminate|].
    case_decide as Hab.
    + subst b. rewrite IH. split; [intros ->|intros [= ->]]; done.
    + split; [discriminate|]. intros [= -> _]. done.
Qed.

Lemma child_name_Some (p k c : string) :
  child_name p k = Some c → k = child_prefix p +:+ c ∧ has_slash c = false.
Proof.
  unfold child_name.
  destruct (strip_prefix (child_prefix p) k) as [c'|] eqn:Hs; [|done].
  apply strip_prefix_Some in Hs.
  destruct (has_slash c') eqn:Hc; simpl; [done|].
  case_bool_decide; [done|]. intros [= ->]. done.
Qed.

Lemma elem_of_children (m : gmap string znode) (p c : string) :
  c ∈ children m p ↔ ∃ k, is_Some (m !! k) ∧ child_name p k = Some c.
Proof.
  unfold children. rewrite list_elem_of_omap. split.
  - intros (k & Hk & Hc). exists k. split; [|done].
    apply list_elem_of_fmap in Hk as ([k' n] & -> & Hin).
    apply elem_of_map_to_list in Hin. simpl. eauto.
  - intros (k & [n Hn] & Hc). exists k. split; [|done].
    apply list_elem_of_fmap. exists (k, n). split; [done|].
    by apply elem_of_map_to_list.
Qed.

Lemma children_lookup (m : gmap string znode) (p c : string) :
  c ∈ children m p → is_Some (m !! (child_prefix p +:+ c)).
Proof.
  rewrite elem_of_children. intros (k & Hk & Hc).
  apply child_name_Some in Hc as [-> _]. done.
Qed.

Lemma NoDup_children (m : gmap string znode) (p : string) :
  NoDup (children m p).
Proof.
  unfold children.
  assert (Hnd : NoDup (map_to_list m).*1) by apply NoDup_fst_map_to_list.
  induction Hnd as [|k ks Hk Hnd IH]; simpl; [constructor|].
  destruct (child_name p k) as [c|] eqn:Hc; [|done].
  constructor; [|done].
  rewrite list_elem_of_omap. intros (k' & Hk' & Hc').
  apply child_name_Some in Hc as [-> _].
  apply child_name_Some in Hc' as [-> _]. done.
Qed.

(** A store with fewer nodes lists no more children. *)
Lemma children_mono (m m' : gmap string znode) (p c : string) :
  (∀ k, is_Some (m' !! k) → is_Some (m !! k)) →
  c ∈ children m' p → c ∈ children m p.
Proof.
  intros Hsub. rewrite !elem_of_children.
  intros (k & Hk & Hc). eauto.
Qed.

Lemma children_nil_mono (m m' : gmap string znode) (p : string) :
  (∀ k, is_Some (m' !! k) → is_Some (m !! k)) →
  children m p = [] → children m' p = [].
Proof.
  intros Hsub Hnil.
  destruct (children m' p) as [|c l] eqn:Hc; [done|].
  assert (c ∈ children m p) as Hin.
  { apply (children_mono m m'); [done|]. rewrite Hc. left. }
  rewrite Hnil in Hin. by apply elem_of_nil in Hin.
Qed.

Lemma children_insert_nil (m : gmap string znode) (p q : string) (n n' : znode) :
  m !! q = Some n →
  children (<[q := n']> m) p = [] ↔ children m p = [].
Proof.
  intros Hq. split; apply children_nil_mono; intros k.
  - destruct (decide (q = k)) as [->|Hne].
    + by rewrite lookup_insert_eq.
    + by rewrite lookup_insert_ne.
  - destruct (decide (q = k)) as [->|Hne].
    + rewrite Hq. done.
    + by rewrite lookup_insert_ne.
Qed.

Lemma item_path_inj (c c' : string) : item_path c = item_path c' → c = c'.
Proof. apply (inj (String.app "/queue/items/")). Qed.

Lemma children_items_lookup (m : gmap string znode) (c : string) :
  c ∈ children m "/queue/items" → is_Some (m !! item_path c).
Proof. apply children_lookup. Qed.

Lemma slot_not_item (id c : string) :
  consumer_path id → slot_path id ≠ item_path c.
Proof. intros [r ->]. unfold slot_path, item_path. simpl. discriminate. Qed.

Lemma slot_not_items (id : string) :
  consumer_path id → slot_path id ≠ "/queue/items".
Proof. intros [r ->]. unfold slot_path. simpl. discriminate. Qed.

Lemma items_not_item (c : string) : "/queue/items" ≠ item_path c.
Proof. unfold item_path. simpl. discriminate. Qed.

Lemma elem_of_sorted (l : list string) (x : string) : x ∈ sorted l ↔ x ∈ l.
Proof. unfold sorted. by rewrite merge_sort_Permutation. Qed.

Lemma NoDup_sorted (l : list string) : NoDup l → NoDup (sorted l).
Proof. unfold sorted. by rewrite merge_sort_Permutation. Qed.

Lemma sorted_nil_inv (l : list string) : sorted l = [] → l = [].
Proof.
  intros H. apply Permutation_nil_r. rewrite <- H.
  unfold sorted. by rewrite merge_sort_Permutation.
Qed.

Lemma sorted_nil : sorted [] = [].
Proof. reflexivity. Qed.

Lemma Forall_tail {A : Type} (P : A → Prop) (l : list A) :
  Forall P l → Forall P (tail l).
Proof. intros H. destruct H; [constructor|done]. Qed.

(** ** Single calls *)

Lemma exec_get_Some (sid : nat) (src : string) (n : znode) (w : world) :
  nodes w !! src = Some n →
  exec sid (Get src) w = (inr (RData (data n) (zstat n)), w).
Proof. intros H. unfold exec, store_get. by rewrite H. Qed.

Lemma exec_get_cases (sid : nat) (p : string) (w : world) :
  (∃ n, nodes w !! p = Some n ∧
        exec sid (Get p) w = (inr (RData (data n) (zstat n)), w)) ∨
  exec sid (Get p) w = (inl NoNodeException, w).
Proof.
  unfold exec, store_get. destruct (nodes w !! p) as [n|]; [left|right]; eauto.
Qed.

Lemma exec_time (sid : nat) (w : world) :
  exec sid Time_time w = (inr (RTime (clock w)), w).
Proof. reflexivity. Qed.

Lemma exec_sleep (sid : nat) (w : world) :
  exec sid Time_sleep w = (inr RUnit, w).
Proof. reflexivity. Qed.

Lemma exec_set_any (sid : nat) (p v : string) (w : world) :
  exec sid (SetData p v (-1)) w =
    match nodes w !! p with
    | None => (inl NoNodeException, w)
    | Some n => (inr RUnit, set_nodes w (<[p := write_data n v]> (nodes w)))
    end.
Proof. unfold exec, store_set. by destruct (nodes w !! p). Qed.

Lemma exec_set_cases (sid : nat) (p v : string) (expected : Z) (w : world) :
  (∃ n, nodes w !! p = Some n ∧
        exec sid (SetData p v expected) w =
          (inr RUnit, set_nodes w (<[p := write_data n v]> (nodes w)))) ∨
  (∃ e, exec sid (SetData p v expected) w = (inl e, w)).
Proof.
  unfold exec, store_set. destruct (nodes w !! p) as [n|]; [|right; eauto].
  destruct (version_ok expected n); [left; eauto|right; eauto].
Qed.

Lemma exec_set_NoNode (sid : nat) (p v : string) (expected : Z) (w : world) :
  (exec sid (SetData p v expected) w).1 = inl NoNodeException →
  nodes w !! p = None.
Proof.
  unfold exec, store_set. destruct (nodes w !! p) as [n|]; [|done].
  by destruct (version_ok expected n).
Qed.

Lemma exec_delete_any (sid : nat) (src : string) (w : world) :
  exec sid (Delete src (-1)) w =
    match nodes w !! src with
    | None => (inl NoNodeException, w)
    | Some _ =>
        match children (nodes w) src with
        | [] => (inr RUnit, set_nodes w (delete src (nodes w)))
        | _ :: _ => (inl NotEmptyException, w)
        end
    end.
Proof. unfold exec, store_delete. by destruct (nodes w !! src). Qed.

Lemma exec_delete_version (sid : nat) (p : string) (n : znode) (w : world) :
  nodes w !! p = Some n →
  exec sid (Delete p (version (zstat n))) w =
    match children (nodes w) p with
    | [] => (inr RUnit, set_nodes w (delete p (nodes w)))
    | _ :: _ => (inl NotEmptyException, w)
    end.
Proof.
  intros H. unfold exec, store_delete. rewrite H.
  unfold version_ok. rewrite Z.eqb_refl, orb_true_r. done.
Qed.

Lemma exec_delete_cases (sid : nat) (p : string) (v : Z) (w : world) :
  (exec sid (Delete p v) w = (inr RUnit, set_nodes w (delete p (nodes w))) ∧
   is_Some (nodes w !! p)) ∨
  (∃ e, exec sid (Delete p v) w = (inl e, w)).
Proof.
  unfold exec, store_delete.
  destruct (nodes w !! p) as [n|]; [|right; eauto].
  destruct (version_ok v n); [|right; eauto].
  destruct (children (nodes w) p); [left; eauto|right; eauto].
Qed.

Lemma exec_create_reply (sid : nat) (path value : string) (flags : Z)
    (w w' : world) (r : reply) :
  exec sid (Create path value flags) w = (inr r, w') → ∃ name, r = RPath name.
Proof.
  unfold exec, store_create.
  destruct (nodes w !! parent_of path) as [par|]; [|done].
  destruct (ephemeralOwner (zstat par)); [done|].
  destruct (nodes w !! _); [done|]. intros [= <- _]. eauto.
Qed.

Lemma exec_create_inr (sid : nat) (path value : string) (flags : Z)
    (w w' : world) (r : reply) :
  exec sid (Create path value flags) w = (inr r, w') →
  ∃ name,
    r = RPath name ∧
    (if Z.testbit flags 1 then ∃ n, name = path +:+ pad10 n else name = path) ∧
    data_at name w' = Some value.
Proof.
  unfold exec, store_create.
  destruct (nodes w !! parent_of path) as [par|]; [|done].
  destruct (ephemeralOwner (zstat par)); [done|].
  destruct (Z.testbit flags 1);
    (destruct (nodes w !! _) eqn:Hfree; [done|]); intros [= <- <-];
    (eexists; split; [done|]; split; [by eauto|]);
    unfold data_at; cbn; by rewrite lookup_insert_eq.
Qed.

Lemma exec_never_loses_connection (sid : nat) (c : call) (w : world) :
  (exec sid c w).1 ≠ inl ConnectionLossException.
Proof.
  destruct c; unfold exec; try done.
  - unfold store_create. destruct (nodes w !! parent_of path); [|done].
    destruct (ephemeralOwner _); [done|]. by destruct (nodes w !! _).
  - unfold store_get. by destruct (nodes w !! path).
  - unfold store_set. destruct (nodes w !! path); [|done].
    by destruct (version_ok _ _).
  - unfold store_delete. destruct (nodes w !! path); [|done].
    destruct (version_ok _ _); [|done]. by destruct (children _ _).
  - unfold store_get_children. by destruct (nodes w !! path).
  - by destruct (cv w).
  - by destruct (cv w).
Qed.

Lemma data_at_Some (p s : string) (w : world) :
  data_at p w = Some s → ∃ nd, nodes w !! p = Some nd ∧ data nd = s.
Proof.
  unfold data_at. destruct (nodes w !! p) as [nd|]; [|done].
  intros [= <-]. eauto.
Qed.

Lemma data_at_insert_ne (p q : string) (n : znode) (w : world) :
  q ≠ p →
  data_at p (set_nodes w (<[q := n]> (nodes w))) = data_at p w.
Proof. intros H. unfold data_at. cbn. by rewrite lookup_insert_ne. Qed.

Lemma data_at_delete_ne (p q : string) (w : world) :
  q ≠ p →
  data_at p (set_nodes w (delete q (nodes w))) = data_at p w.
Proof. intros H. unfold data_at. cbn. by rewrite lookup_delete_ne. Qed.

Lemma exec_set_slot (sid : nat) (path v : string) (w : world) :
  is_Some (data_at path w) →
  ∃ w', exec sid (SetData path v (-1)) w = (inr RUnit, w') ∧
        data_at path w' = Some v.
Proof.
  unfold data_at. intros [s Hs]. rewrite exec_set_any.
  destruct (nodes w !! path) as [n|]; [|done].
  eexists. split; [done|]. cbn. by rewrite lookup_insert_eq.
Qed.

Lemma exec_delete_other (sid : nat) (src path : string) (v : Z) (w : world) :
  src ≠ path →
  ∃ r w', exec sid (Delete src v) w = (r, w') ∧
          data_at path w' = data_at path w.
Proof.
  intros Hne.
  destruct (exec_delete_cases sid src v w) as [[-> _]|[e ->]].
  - eexists _, _. split; [done|]. unfold data_at. cbn.
    by rewrite lookup_delete_ne.
  - by eexists _, _.
Qed.

Lemma interfere_spares (path : string) (env : list (world → world))
    (w : world) :
  Forall (spares path) env →
  data_at path (interfere env w) = data_at path w.
Proof.
  intros Henv. unfold data_at. destruct Henv as [|f env Hf _]; [done|].
  cbn. by rewrite Hf.
Qed.

(** ** Runs *)

Lemma run_with_bind {A B : Type} (env : list (world → world)) (sid : nat)
    (p : prog A) (f : A → prog B) (w : world) :
  run_with env sid (bind p f) w =
    let '(o, w1, tr1) := run_with env sid p w in
    match o with
    | Returned a =>
        let '(o2, w2, tr2) := run_with (drop (length tr1) env) sid (f a) w1 in
        (o2, w2, tr1 ++ tr2)
    | Raised e => (Raised e, w1, tr1)
    | Unfinished => (Unfinished, w1, tr1)
    end.
Proof.
  revert env w. induction p as [a|e|c k IH|]; intros env w; simpl.
  - rewrite drop_0. by destruct (run_with env sid (f a) w) as [[o2 w2] tr2].
  - done.
  - destruct (exec sid c (interfere env w)) as [r w2].
    rewrite IH.
    destruct (run_with (tail env) sid (k r) w2) as [[o w3] tr1].
    destruct env as [|g env]; simpl.
    + destruct o; try done. rewrite drop_nil.
      by destruct (run_with [] sid (f a) w3) as [[o2 w4] tr2].
    + destruct o; try done.
      by destruct (run_with (drop (length tr1) env) sid (f a) w3)
        as [[o2 w4] tr2].
  - done.
Qed.

Lemma run_bind {A B : Type} (sid : nat) (p : prog A) (f : A → prog B)
    (w : world) :
  run sid (bind p f) w =
    let '(o, w1, tr1) := run sid p w in
    match o with
    | Returned a => let '(o2, w2, tr2) := run sid (f a) w1 in (o2, w2, tr1 ++ tr2)
    | Raised e => (Raised e, w1, tr1)
    | Unfinished => (Unfinished, w1, tr1)
    end.
Proof.
  unfold run. rewrite run_with_bind.
  destruct (run_with [] sid p w) as [[o w1] tr1].
  by rewrite drop_nil.
Qed.

Lemma run_get_children (sid : nat) (p : string) (watch : bool) (w : world) :
  run sid (zk_get_children p watch) w =
    match nodes w !! p with
    | None => (Raised NoNodeException, w, [(GetChildren p watch, inl NoNodeException)])
    | Some _ =>
        (Returned (children (nodes w) p), w,
         [(GetChildren p watch, inr (RChildren (children (nodes w) p)))])
    end.
Proof.
  unfold run, zk_get_children. simpl. unfold exec, store_get_children. simpl.
  by destruct (nodes w !! p).
Qed.

Lemma run_cv_acquire (sid : nat) (w : world) :
  run sid cv_acquire w =
    (Returned (), set_cv w (S (cv w)), [(Cv_acquire, inr RUnit)]).
Proof. reflexivity. Qed.

Lemma run_delete (sid : nat) (p : string) (v : Z) (w : world) :
  (run sid (zk_delete p v) w =
     (Returned (), set_nodes w (delete p (nodes w)), [(Delete p v, inr RUnit)]) ∧
   is_Some (nodes w !! p)) ∨
  (∃ e, run sid (zk_delete p v) w = (Raised e, w, [(Delete p v, inl e)])).
Proof.
  unfold run, zk_delete, call_unit. cbn [run_with interfere].
  destruct (exec_delete_cases sid p v w) as [[-> Hp]|[e ->]].
  - by left.
  - right. by exists e.
Qed.

(** Each reply of a trace is the store's answer in the world the call met. *)
Lemma trace_sound {A : Type} (sid : nat) (p : prog A) :
  ∀ env w i c r,
    (run_with env sid p w).2 !! i = Some (c, r) →
    ∃ wi, met_with env sid p w !! i = Some wi ∧ (exec sid c wi).1 = r.
Proof.
  induction p as [a|e|c0 k IH|]; intros env w i c r; cbn; try done.
  destruct (exec sid c0 (interfere env w)) as [r0 w2] eqn:Hexec.
  specialize (IH r0 (tail env) w2).
  destruct (run_with (tail env) sid (k r0) w2) as [[o w3] tr]. cbn in *.
  destruct i as [|i]; cbn.
  - intros [= <- <-]. eexists. split; [done|]. by rewrite Hexec.
  - apply IH.
Qed.

(** [retry_on(ConnectionLossException)] around a call to the store runs as
    the call itself. *)
Lemma retry_connection_loss (env : list (world → world)) (sid fuel : nat)
    (c : call) (w : world) :
  run_with env sid (retry_on [ConnectionLossException] (call_unit c) (S fuel)) w
  = run_with env sid (call_unit c) w.
Proof.
  cbn [retry_on call_unit try_except run_with].
  pose proof (exec_never_loses_connection sid c (interfere env w)) as Hc.
  destruct (exec sid c (interfere env w)) as [[e|r] w']; [|done].
  cbn [try_except]. rewrite bool_decide_eq_false_2; [done|].
  rewrite list_elem_of_singleton. intros ->. by apply Hc.
Qed.

Ltac exec_cases :=
  match goal with
  | |- context [exec ?s ?c ?w] =>
      let e := fresh "e" in
      let r := fresh "r" in
      let w' := fresh "w" in
      let H := fresh "Hexec" in
      destruct (exec s c w) as [[e|r] w'] eqn:H; simpl
  end.

Ltac trace_entries H :=
  repeat (apply elem_of_cons in H as [H|H]; [discriminate H|]);
  try (by apply elem_of_nil in H).

(** ** C6 and C7: one move *)

(** C6. A move whose read finds data that is not empty, whatever the other
    clients do between its calls: its next call writes that data to the
    consumer's slot with version [-1], which matches any version; when that
    write succeeds, its next call deletes the source with the version that
    the read returned; and the move returns the payload exactly when that
    delete succeeds. *)
Theorem move_nonempty_item (env : list (world → world)) (sid : nat)
    (src dest value : string) (st : stat) (w : world) :
  nodes (interfere env w) !! src = Some {| data := value; zstat := st |} →
  value ≠ "" →
  ∃ o w' r_set rest,
    run_with env sid (_move src dest) w =
      (o, w', (Get src, inr (RData value st))
              :: (SetData dest value (-1), r_set) :: rest) ∧
    (is_Some (nodes (interfere (tail env) (interfere env w)) !! dest) →
     succeeded r_set = true) ∧
    (succeeded r_set = true →
       ∃ r_del rest',
         rest = (Delete src (version st), r_del) :: rest' ∧
         (o = Returned (Some value) ↔ succeeded r_del = true)) ∧
    (succeeded r_set = false → o ≠ Returned (Some value)).
Proof.
  intros Hsrc Hne.
  destruct value as [|a value]; [done|].
  unfold _move. simpl. rewrite (exec_get_Some sid _ _ _ Hsrc). simpl.
  rewrite exec_set_any.
  destruct (nodes (interfere (tail env) (interfere env w)) !! dest) as [nd|];
    simpl.
  - (* the payload is in the slot: the conditional delete *)
    exec_cases.
    + destruct e; simpl; try exec_cases;
        (eexists _, _, _, _; split; [reflexivity|];
         split; [done|]; split; [|done];
         intros _; eexists _, _; split; [reflexivity|]; by split).
    + eexists _, _, _, _. split; [reflexivity|].
      split; [done|]. split; [|done].
      intros _. eexists _, _. split; [reflexivity|]. by split.
  - (* no slot: the handler's own write is tried *)
    exec_cases;
      (eexists _, _, _, _; split; [reflexivity|];
       split; [by intros [? [=]]|]; by split).
Qed.

Lemma move_nonempty_item_witness :
  ∃ o w' r_set rest,
    run_with [] 2
      (_move "/queue/items/item-0000000000"
         "/queue/consumers/consumer-0000000000/item") w_ready =
      (o, w',
       (Get "/queue/items/item-0000000000",
        inr (RData "job-a" {| version := 1; cversion := 0; ctime := 0;
                              ephemeralOwner := None |}))
       :: (SetData "/queue/consumers/consumer-0000000000/item" "job-a" (-1),
           r_set) :: rest) ∧
    (is_Some (nodes (interfere (tail []) (interfere [] w_ready))
                !! "/queue/consumers/consumer-0000000000/item") →
     succeeded r_set = true) ∧
    (succeeded r_set = true →
       ∃ r_del rest',
         rest = (Delete "/queue/items/item-0000000000"
                   (version {| version := 1; cversion := 0; ctime := 0;
                               ephemeralOwner := None |}), r_del) :: rest' ∧
         (o = Returned (Some "job-a") ↔ succeeded r_del = true)) ∧
    (succeeded r_set = false → o ≠ Returned (Some "job-a")).
Proof.
  apply (move_nonempty_item [] 2 "/queue/items/item-0000000000"
           "/queue/consumers/consumer-0000000000/item" "job-a"
           {| version := 1; cversion := 0; ctime := 0; ephemeralOwner := None |}
           w_ready).
  - vm_compute. reflexivity.
  - done.
Defined.

(** C7. A move whose read finds empty data, whatever the other clients do
    between its calls, never returns a payload. It reads the clock; when the
    node's creation time is more than 300 seconds back it deletes the node
    with version [-1]: a node that is still there, and has no children, is
    gone after the move, and a [NoNodeException] is swallowed; either way the
    move returns [None]. When the creation time is not that far back the move
    makes no further call and returns [None]: it leaves the store as the
    other clients made it. *)
Theorem move_empty_item (env : list (world → world)) (sid : nat)
    (src dest : string) (st : stat) (w : world) :
  nodes (interfere env w) !! src = Some {| data := ""; zstat := st |} →
  let w1 := interfere (tail env) (interfere env w) in
  let w2 := interfere (tail (tail env)) w1 in
  ∃ o w' rest,
    run_with env sid (_move src dest) w =
      (o, w', (Get src, inr (RData "" st))
              :: (Time_time, inr (RTime (clock w1))) :: rest) ∧
    (∀ v, o ≠ Returned (Some v)) ∧
    if (ctime st <? clock w1 - 300)%Z then
      ∃ r_del,
        rest = [(Delete src (-1), r_del)] ∧
        match nodes w2 !! src with
        | None => r_del = inl NoNodeException ∧ o = Returned None ∧ w' = w2
        | Some _ =>
            children (nodes w2) src = [] →
            r_del = inr RUnit ∧ o = Returned None ∧
            nodes w' = delete src (nodes w2)
        end
    else rest = [] ∧ o = Returned None ∧ w' = w1.
Proof.
  intros Hsrc w1 w2.
  unfold _move. simpl. rewrite (exec_get_Some sid _ _ _ Hsrc). simpl.
  fold w1.
  destruct (ctime st <? clock w1 - 300)%Z eqn:Hold; simpl.
  - fold w2. rewrite exec_delete_any.
    destruct (nodes w2 !! src) as [n|] eqn:Hn; simpl.
    + destruct (children (nodes w2) src) eqn:Hc; simpl.
      * eexists _, _, _. split; [reflexivity|]. split; [done|].
        eexists. split; [reflexivity|]. done.
      * eexists _, _, _. split; [reflexivity|]. split; [done|].
        eexists. split; [reflexivity|]. done.
    + eexists _, _, _. split; [reflexivity|]. split; [done|].
      eexists. split; [reflexivity|]. done.
  - eexists _, _, _. split; [reflexivity|]. split; [done|]. done.
Qed.

Lemma move_empty_item_witness :
  let w1 := interfere (tail [tick 301]) (interfere [tick 301] w_stalled) in
  let w2 := interfere (tail (tail [tick 301])) w1 in
  ∃ o w' rest,
    run_with [tick 301] 2
      (_move "/queue/items/item-0000000000"
         "/queue/consumers/consumer-0000000000/item") w_stalled =
      (o, w',
       (Get "/queue/items/item-0000000000",
        inr (RData "" {| version := 0; cversion := 0; ctime := 0;
                         ephemeralOwner := None |}))
       :: (Time_time, inr (RTime (clock w1))) :: rest) ∧
    (∀ v, o ≠ Returned (Some v)) ∧
    if (ctime {| version := 0; cversion := 0; ctime := 0;
                 ephemeralOwner := None |} <? clock w1 - 300)%Z then
      ∃ r_del,
        rest = [(Delete "/queue/items/item-0000000000" (-1), r_del)] ∧
        match nodes w2 !! "/queue/items/item-0000000000" with
        | None => r_del = inl NoNodeException ∧ o = Returned None ∧ w' = w2
        | Some _ =>
            children (nodes w2) "/queue/items/item-0000000000" = [] →
            r_del = inr RUnit ∧ o = Returned None ∧
            nodes w' = delete "/queue/items/item-0000000000" (nodes w2)
        end
    else rest = [] ∧ o = Returned None ∧ w' = w1.
Proof.
  apply (move_empty_item [tick 301] 2 "/queue/items/item-0000000000"
           "/queue/consumers/consumer-0000000000/item"
           {| version := 0; cversion := 0; ctime := 0; ephemeralOwner := None |}
           w_stalled).
  vm_compute. reflexivity.
Defined.

(** The node that is old enough is dropped, the one that is not is left. *)
Example drop_or_leave :
  children (nodes (after 2 (reserve 1 consumer0 false) (tick 301 w_stalled)))
    "/queue/items" = [] ∧
  after 2 (_move "/queue/items/item-0000000000"
             "/queue/consumers/consumer-0000000000/item") (tick 300 w_stalled)
  = tick 300 w_stalled.
Proof. split; by vm_compute. Qed.

(** ** A consumer running alone *)

Lemma move_alone (sid : nat) (src dest : string) (n : znode) (w : world) :
  nodes w !! src = Some n →
  src ≠ dest →
  ∃ o w' tr,
    run sid (_move src dest) w = (o, w', tr) ∧ move_result src dest n w o w' tr.
Proof.
  intros Hsrc Hne. unfold run, _move. simpl.
  rewrite (exec_get_Some sid _ _ _ Hsrc). simpl.
  destruct n as [value st]. simpl in *.
  destruct value as [|a value]; simpl.
  - (* empty data *)
    destruct (ctime st <? clock w - 300)%Z eqn:Hold; simpl.
    + apply Z.ltb_lt in Hold. rewrite exec_delete_any, Hsrc.
      destruct (children (nodes w) src) eqn:Hc; simpl.
      * eexists _, _, _. split; [reflexivity|].
        by apply (move_dropped src dest {| data := ""; zstat := st |}).
      * eexists _, _, _. split; [reflexivity|].
        apply move_raised. right. by rewrite Hc.
    + apply Z.ltb_ge in Hold.
      eexists _, _, _. split; [reflexivity|].
      by apply (move_skipped src dest {| data := ""; zstat := st |}).
  - rewrite exec_set_any.
    destruct (nodes w !! dest) as [nd|] eqn:Hd; simpl.
    + assert (Hsrc' : <[dest := write_data nd (String a value)]> (nodes w) !! src
                      = Some {| data := String a value; zstat := st |}).
      { by rewrite lookup_insert_ne. }
      pose proof (exec_delete_version sid src _
                    (set_nodes w (<[dest := write_data nd (String a value)]> (nodes w)))
                    Hsrc') as Hdel.
      simpl in Hdel. rewrite Hdel. clear Hdel.
      destruct (children (<[dest := write_data nd (String a value)]> (nodes w)) src)
        eqn:Hc; unfold set_nodes; simpl.
      * eexists _, _, _. split; [reflexivity|].
        apply (move_won src dest {| data := String a value; zstat := st |});
          [done|done|].
        by apply (children_insert_nil _ _ _ _ _ Hd) in Hc.
      * eexists _, _, _. split; [reflexivity|].
        apply move_raised. right. intros Hnil.
        apply (children_insert_nil _ _ _ _ (write_data nd (String a value)) Hd) in Hnil.
        by rewrite Hc in Hnil.
    + rewrite exec_set_any, Hd. simpl.
      eexists _, _, _. split; [reflexivity|].
      apply move_raised. by left.
Qed.

Lemma simple_scan_alone (sid : nat) (id : string) (cs : list string) :
  (∀ c, slot_path id ≠ item_path c) →
  NoDup cs →
  ∀ w, (∀ c, c ∈ cs → is_Some (nodes w !! item_path c)) →
  ∃ o w' tr,
    run sid (simple_scan {| _id := Some id |} cs) w = (o, w', tr) ∧
    scan_post id cs w o w' tr.
Proof.
  intros Hslot Hnd. induction Hnd as [|c rest Hc Hnd IH]; intros w Hex.
  - eexists _, _, _. split; [reflexivity|]. by repeat split.
  - destruct (Hex c) as [n Hn]; [left|].
    destruct (move_alone sid (item_path c) (slot_path id) n w Hn)
      as (o1 & w1 & tr1 & Hrun & Hres); [done|].
    cbn [simple_scan _fullpath _id bind].
    fold (slot_path id). fold (item_path c).
    rewrite run_bind, Hrun.
    destruct Hres as [nd Hd Hnd' Hleaf|Hd Hold Hleaf|Hd Hyoung|e w1 tr1 Hwhy].
    + (* the payload was moved *)
      assert (truthy (Some (data n)) = true) as ->.
      { destruct (data n); [done|reflexivity]. }
      eexists _, _, _. split; [reflexivity|].
      split; [done|]. split; [done|]. split.
      { intros k. simpl. destruct (decide (item_path c = k)) as [<-|Hk].
        - rewrite lookup_delete_eq. by intros [? [=]].
        - rewrite lookup_delete_ne by done.
          destruct (decide (slot_path id = k)) as [<-|Hk'].
          + rewrite Hnd'. done.
          + by rewrite lookup_insert_ne. }
      split.
      { intros k Hk1 Hk2. simpl. rewrite lookup_delete_ne by (by apply not_eq_sym).
        by rewrite lookup_insert_ne. }
      split; [done|]. split.
      { unfold data_at. simpl. rewrite lookup_delete_ne by done.
        by rewrite lookup_insert_eq. }
      exists c, (zstat n). split; [left|]. split.
      { simpl. by rewrite lookup_delete_eq. }
      by rewrite app_nil_r.
    + (* an abandoned node was dropped *)
      simpl.
      destruct (IH (set_nodes w (delete (item_path c) (nodes w))))
        as (o & w' & tr & Hrun' & Hpost).
      { intros c' Hc'. simpl. rewrite lookup_delete_ne.
        - apply Hex. by right.
        - intros Heq. apply item_path_inj in Heq. by subst. }
      rewrite Hrun'. eexists _, _, _. split; [reflexivity|].
      assert (Hsub : ∀ k, is_Some (delete (item_path c) (nodes w) !! k) →
                          is_Some (nodes w !! k)).
      { intros k. destruct (decide (item_path c = k)) as [<-|Hk].
        - rewrite lookup_delete_eq. by intros [? [=]].
        - by rewrite lookup_delete_ne. }
      destruct o as [found|e|]; [| |done].
      * destruct Hpost as (Hclock & Hcv & Hdom & Hframe & Hpost).
        split; [done|]. split; [done|]. split; [by eauto|].
        split.
        { intros k Hk1 Hk2. rewrite Hframe by done. simpl.
          by rewrite lookup_delete_ne by (by apply not_eq_sym). }
        destruct found as [d|].
        -- destruct Hpost as (Hne & Hs & c' & st & Hc' & Hgone & Hsuf).
           split; [done|]. split; [done|].
           exists c', st. split; [by right|]. split; [done|].
           by repeat apply suffix_cons_r.
        -- rewrite Hpost. simpl. by rewrite lookup_delete_ne.
      * destruct Hpost as [Hs|(c' & Hc' & Hch)].
        -- left. simpl in Hs. by rewrite lookup_delete_ne in Hs.
        -- right. exists c'. split; [by right|]. intros Hnil. apply Hch.
           by apply (children_nil_mono (nodes w)).
    + (* a young empty node was left alone *)
      simpl.
      destruct (IH w) as (o & w' & tr & Hrun' & Hpost).
      { intros c' Hc'. apply Hex. by right. }
      rewrite Hrun'. eexists _, _, _. split; [reflexivity|].
      destruct o as [found|e|]; [| |done].
      * destruct Hpost as (Hclock & Hcv & Hdom & Hframe & Hpost).
        split; [done|]. split; [done|]. split; [done|]. split; [done|].
        destruct found as [d|]; [|done].
        destruct Hpost as (Hne & Hs & c' & st & Hc' & Hgone & Hsuf).
        split; [done|]. split; [done|].
        exists c', st. split; [by right|]. split; [done|].
        by repeat apply suffix_cons_r.
      * destruct Hpost as [Hs|(c' & Hc' & Hch)]; [by left|].
        right. exists c'. split; [by right|done].
    + eexists _, _, _. split; [reflexivity|].
      destruct Hwhy as [Hs|Hch]; [by left|].
      right. exists c. split; [left|done].
Qed.

Lemma simple_reserve_alone (sid : nat) (id : string) (fuel : nat) :
  consumer_path id →
  ∀ w, ∃ o w' tr,
    run sid (_simple_reserve fuel {| _id := Some id |}) w = (o, w', tr) ∧
    reserve_post id w o w' tr.
Proof.
  intros Hid. induction fuel as [|fuel IH]; intros w.
  - eexists _, _, _. split; [reflexivity|done].
  - cbn [_simple_reserve]. rewrite run_bind, run_get_children.
    destruct (nodes w !! "/queue/items") as [dir|] eqn:Hdir.
    2:{ eexists _, _, _. split; [reflexivity|]. by left. }
    cbn beta iota zeta.
    destruct (sorted (children (nodes w) "/queue/items")) as [|c0 cs0] eqn:Hcs.
    { (* nothing is queued *)
      simpl.
      eexists _, _, _. split; [reflexivity|].
      apply sorted_nil_inv in Hcs. rewrite Hcs.
      by repeat split. }
    rewrite <- Hcs.
    destruct (simple_scan_alone sid id (sorted (children (nodes w) "/queue/items")))
      with (w := w) as (o1 & w1 & tr1 & Hrun & Hpost).
    { intros c. by apply slot_not_item. }
    { apply NoDup_sorted, NoDup_children. }
    { intros c Hc. rewrite elem_of_sorted in Hc. by apply children_items_lookup. }
    assert ((length (sorted (children (nodes w) "/queue/items")) =? 0)%nat = false)
      as Hlen by (by rewrite Hcs).
    rewrite Hlen. rewrite run_bind, Hrun.
    destruct o1 as [found|e|]; [| |done].
    + destruct Hpost as (Hclock & Hcv & Hdom & Hframe & Hpost).
      destruct found as [d|].
      * (* a payload was reserved *)
        destruct Hpost as (Hne & Hs & c & st & Hc & Hgone & Hsuf).
        assert (truthy (Some d) = true) as -> by (by destruct d).
        eexists _, _, _. split; [reflexivity|].
        split; [done|]. split; [done|]. split; [done|]. split; [done|].
        split; [done|]. split; [done|].
        exists c, st. split; [done|].
        rewrite app_nil_r. by apply suffix_cons_r.
      * (* no payload in this pass: list again *)
        simpl.
        destruct (IH w1) as (o & w' & tr & Hrun' & Hpost').
        rewrite Hrun'. eexists _, _, _. split; [reflexivity|].
        destruct o as [found|e|]; [| |done].
        -- destruct Hpost' as (Hclock' & Hcv' & Hdom' & Hframe' & Hpost').
           split; [congruence|]. split; [congruence|].
           split; [by eauto|].
           split. { intros k Hk1 Hk2. by rewrite Hframe', Hframe. }
           destruct found as [d|].
           ++ destruct Hpost' as (Hne & Hs & c & st & Hgone & Hsuf).
              split; [done|]. split; [done|].
              exists c, st. split; [done|].
              apply suffix_cons_r. by apply suffix_app_r.
           ++ destruct Hpost' as (Hs & Hch & Hsuf).
              split; [congruence|]. split; [done|].
              apply suffix_cons_r. by apply suffix_app_r.
        -- destruct Hpost' as [Hd|[Hs|(c & Hc & Hch)]].
           ++ rewrite Hframe in Hd; [congruence| |].
              ** apply not_eq_sym. by apply slot_not_items.
              ** apply items_not_item.
           ++ right; left. congruence.
           ++ right; right. exists c. split.
              ** by apply (children_mono (nodes w) (nodes w1)).
              ** intros Hnil. apply Hch.
                 by apply (children_nil_mono (nodes w)).
    + eexists _, _, _. split; [reflexivity|].
      destruct Hpost as [Hs|(c & Hc & Hch)]; [right; by left|].
      right; right. exists c. split; [|done]. by rewrite elem_of_sorted in Hc.
Qed.

Lemma simple_reserve_closed (sid : nat) (fuel : nat) (w : world) :
  ∃ o w' tr,
    run sid (_simple_reserve fuel closed_consumer) w = (o, w', tr) ∧
    match o with
    | Returned found =>
        found = None ∧ w' = w ∧ children (nodes w) "/queue/items" = [] ∧
        tr = [(GetChildren "/queue/items" false, inr (RChildren []))]
    | Raised e => True
    | Unfinished => fuel = 0
    end.
Proof.
  destruct fuel as [|fuel].
  { eexists _, _, _. split; [reflexivity|done]. }
  cbn [_simple_reserve]. rewrite run_bind, run_get_children.
  destruct (nodes w !! "/queue/items") as [dir|].
  2:{ eexists _, _, _. split; [reflexivity|done]. }
  cbn beta iota zeta.
  destruct (sorted (children (nodes w) "/queue/items")) as [|c cs] eqn:Hcs.
  - apply sorted_nil_inv in Hcs. rewrite Hcs. simpl.
    eexists _, _, _. split; [reflexivity|done].
  - simpl. eexists _, _, _. split; [reflexivity|done].
Qed.

Lemma simple_reserve_stalled (fuel : nat) :
  run 2 (_simple_reserve fuel consumer0) w_stalled =
    (Unfinished, w_stalled,
     mjoin (replicate fuel
       [(GetChildren "/queue/items" false, inr (RChildren ["item-0000000000"]));
        (Get "/queue/items/item-0000000000",
         inr (RData "" {| version := 0; cversion := 0; ctime := 0;
                          ephemeralOwner := None |}));
        (Time_time, inr (RTime 0))])).
Proof.
  induction fuel as [|fuel IH]; [reflexivity|].
  cbn [_simple_reserve]. rewrite run_bind, run_get_children.
  assert (nodes w_stalled !! "/queue/items" =
          Some {| data := ""; zstat := {| version := 0; cversion := 1; ctime := 0;
                                          ephemeralOwner := None |} |}) as ->
    by (vm_compute; reflexivity).
  assert (children (nodes w_stalled) "/queue/items" = ["item-0000000000"]) as ->
    by (vm_compute; reflexivity).
  cbn beta iota zeta.
  assert (sorted ["item-0000000000"] = ["item-0000000000"]) as ->
    by reflexivity.
  cbn [length Nat.eqb]. rewrite run_bind.
  assert (run 2 (simple_scan consumer0 ["item-0000000000"]) w_stalled =
          (Returned None, w_stalled,
           [(Get "/queue/items/item-0000000000",
             inr (RData "" {| version := 0; cversion := 0; ctime := 0;
                              ephemeralOwner := None |}));
            (Time_time, inr (RTime 0))])) as ->.
  { vm_compute. reflexivity. }
  cbn [truthy]. rewrite IH. reflexivity.
Qed.

(** ** C3: non-blocking [reserve()] *)

(** C3, as amended. A non-blocking [reserve()] of a consumer whose identity,
    if it has one, lies under /queue/consumers: when it returns a payload, the
    payload is not empty, the consumer's item slot holds it, and the run ended
    by reading it from an item node, writing it to the slot and deleting that
    node, which is gone; when it returns noWork, its last listing of
    /queue/items came back empty and the directory is empty; on an empty
    /queue/items it returns noWork at once, after that single listing. It
    returns noWork in no other way: after a pass that won nothing it lists
    again. *)
Theorem simple_reserve_outcome (sid fuel : nat) (self : Consumer) (w : world) :
  (∀ id, _id self = Some id → consumer_path id) →
  ∃ o w' tr,
    run sid (reserve fuel self false) w = (o, w', tr) ∧
    (∀ d, o = Returned (Some d) →
       d ≠ "" ∧
       ∃ id c st,
         _id self = Some id ∧
         data_at (slot_path id) w' = Some d ∧
         nodes w' !! item_path c = None ∧
         [(Get (item_path c), inr (RData d st));
          (SetData (slot_path id) d (-1), inr RUnit);
          (Delete (item_path c) (version st), inr RUnit)] `suffix_of` tr) ∧
    (o = Returned None →
       children (nodes w') "/queue/items" = [] ∧
       [(GetChildren "/queue/items" false, inr (RChildren []))] `suffix_of` tr) ∧
    (is_Some (nodes w !! "/queue/items") →
     children (nodes w) "/queue/items" = [] →
     fuel ≠ 0 →
     o = Returned None ∧ w' = w ∧
     tr = [(GetChildren "/queue/items" false, inr (RChildren []))]).
Proof.
  intros Hid. cbn [reserve].
  assert (Hempty : is_Some (nodes w !! "/queue/items") →
                   children (nodes w) "/queue/items" = [] →
                   fuel ≠ 0 →
                   run sid (_simple_reserve fuel self) w =
                     (Returned None, w,
                      [(GetChildren "/queue/items" false, inr (RChildren []))])).
  { intros [dir Hdir] Hnil Hfuel. destruct fuel as [|fuel]; [done|].
    cbn [_simple_reserve]. rewrite run_bind, run_get_children, Hdir, Hnil.
    reflexivity. }
  destruct self as [[id|]].
  - destruct (simple_reserve_alone sid id fuel (Hid id eq_refl) w)
      as (o & w' & tr & Hrun & Hpost).
    exists o, w', tr. split; [done|]. split; [|split].
    + intros d ->. destruct Hpost as (_ & _ & _ & _ & Hne & Hs & c & st & Hc & Hsuf).
      split; [done|]. by exists id, c, st.
    + intros ->. by destruct Hpost as (_ & _ & _ & _ & _ & Hch & Hsuf).
    + intros Hdir Hnil Hfuel. rewrite (Hempty Hdir Hnil Hfuel) in Hrun.
      by injection Hrun as <- <- <-.
  - destruct (simple_reserve_closed sid fuel w) as (o & w' & tr & Hrun & Hpost).
    unfold closed_consumer in Hrun.
    exists o, w', tr. split; [done|]. split; [|split].
    + intros d ->. by destruct Hpost as [? _].
    + intros ->. destruct Hpost as (_ & -> & Hch & ->). done.
    + intros Hdir Hnil Hfuel.
      rewrite (Hempty Hdir Hnil Hfuel) in Hrun.
      by injection Hrun as <- <- <-.
Qed.

Lemma consumer0_path : ∀ id, _id consumer0 = Some id → consumer_path id.
Proof. intros id [= <-]. by exists "consumer-0000000000". Qed.

Lemma simple_reserve_outcome_witness :
  ∃ o w' tr,
    run 2 (reserve 1 consumer0 false) w_ready = (o, w', tr) ∧
    (∀ d, o = Returned (Some d) →
       d ≠ "" ∧
       ∃ id c st,
         _id consumer0 = Some id ∧
         data_at (slot_path id) w' = Some d ∧
         nodes w' !! item_path c = None ∧
         [(Get (item_path c), inr (RData d st));
          (SetData (slot_path id) d (-1), inr RUnit);
          (Delete (item_path c) (version st), inr RUnit)] `suffix_of` tr) ∧
    (o = Returned None →
       children (nodes w') "/queue/items" = [] ∧
       [(GetChildren "/queue/items" false, inr (RChildren []))] `suffix_of` tr) ∧
    (is_Some (nodes w_ready !! "/queue/items") →
     children (nodes w_ready) "/queue/items" = [] →
     1 ≠ 0 →
     o = Returned None ∧ w' = w_ready ∧
     tr = [(GetChildren "/queue/items" false, inr (RChildren []))]).
Proof. exact (simple_reserve_outcome 2 1 consumer0 w_ready consumer0_path). Defined.

(** On the queue that holds one job the call does return it. *)
Example reserve_ready :
  (run 2 (reserve 1 consumer0 false) w_ready).1.1 = Returned (Some "job-a").
Proof. vm_compute. reflexivity. Qed.

(** C3, counterexample. One item node that its producer has created and not
    yet written: the pass over the candidates wins nothing, and [reserve()]
    does not return noWork after it; it lists again, and while the clock
    stands still it does so however many rounds it is given. *)
Lemma reserve_spins_on_young_empty_item :
  children (nodes w_stalled) "/queue/items" = ["item-0000000000"] ∧
  run 2 (reserve 1 consumer0 false) w_stalled =
    (Unfinished, w_stalled,
     [(GetChildren "/queue/items" false, inr (RChildren ["item-0000000000"]));
      (Get "/queue/items/item-0000000000",
       inr (RData "" {| version := 0; cversion := 0; ctime := 0;
                        ephemeralOwner := None |}));
      (Time_time, inr (RTime 0))]) ∧
  ∀ fuel, (run 2 (reserve fuel consumer0 false) w_stalled).1.1 = Unfinished.
Proof.
  split; [by vm_compute|]. split.
  - apply (simple_reserve_stalled 1).
  - intros fuel. cbn [reserve]. by rewrite simple_reserve_stalled.
Qed.

(** ** C1: [collect()] *)

Lemma collect_changes_nothing (sid : nat) (w : world) :
  is_Some (nodes w !! "/queue/consumers") →
  run sid collect w =
    (Returned None, w,
     [(GetChildren "/queue/consumers" false,
       inr (RChildren (children (nodes w) "/queue/consumers")))]).
Proof.
  intros [dir Hdir]. unfold collect. rewrite run_bind, run_get_children, Hdir.
  cbn beta iota zeta. by destruct (children (nodes w) "/queue/consumers").
Qed.

(** C1, at its failing input. A registration without active marker whose item
    slot holds a payload, and an empty /queue/items: [collect()] lists the
    registrations and stops; it answers [None], no count, requeues nothing and
    deletes nothing. *)
Theorem collect_leaves_stale_registration :
  children (nodes w_orphan) "/queue/consumers" = ["consumer-0000000000"] ∧
  nodes w_orphan !! "/queue/consumers/consumer-0000000000/active" = None ∧
  data_at "/queue/consumers/consumer-0000000000/item" w_orphan
    = Some "job-a" ∧
  children (nodes w_orphan) "/queue/items" = [] ∧
  run 3 collect w_orphan =
    (Returned None, w_orphan,
     [(GetChildren "/queue/consumers" false,
       inr (RChildren ["consumer-0000000000"]))]).
Proof.
  assert (Hc : children (nodes w_orphan) "/queue/consumers"
               = ["consumer-0000000000"]) by (vm_compute; reflexivity).
  split; [done|]. split; [by vm_compute|]. split; [by vm_compute|].
  split; [by vm_compute|].
  rewrite collect_changes_nothing; [by rewrite Hc|].
  vm_compute. eauto.
Qed.

(** ** C4: blocking [reserve()] *)

Lemma blocking_reserve_spins (sid : nat) (self : Consumer) (fuel : nat) :
  ∀ w,
    is_Some (nodes w !! "/queue/items") →
    children (nodes w) "/queue/items" = [] →
    run sid (_blocking_reserve fuel self) w =
      (Unfinished, set_cv w (fuel + cv w),
       mjoin (replicate fuel
         [(Cv_acquire, inr RUnit);
          (GetChildren "/queue/items" true, inr (RChildren []))])).
Proof.
  induction fuel as [|fuel IH]; intros w Hdir Hnil.
  - by destruct w.
  - destruct Hdir as [dir Hdir].
    cbn [_blocking_reserve]. rewrite run_bind, run_cv_acquire.
    cbn beta iota zeta. rewrite run_bind, run_get_children.
    cbn [nodes set_cv]. rewrite Hdir, Hnil. cbn beta iota zeta.
    rewrite sorted_nil, run_bind. cbn [blocking_scan].
    unfold run at 1. cbn [run_with truthy].
    rewrite IH by (cbn [nodes set_cv]; eauto).
    unfold set_cv. cbn [nodes clock cv].
    rewrite Nat.add_succ_r. reflexivity.
Qed.

(** C4, at its failing inputs. On an empty /queue/items the blocking
    [reserve()] never waits: each round takes the lock again and lists again,
    and that is all it does. With two candidates that yield nothing it waits
    after the first, inside the scan, gives the lock back, and the wait after
    the second raises [RuntimeError]; with a payload behind a candidate that
    yields nothing, the payload is moved and the [release()] before the
    [return] raises. *)
Theorem blocking_reserve_busy_polls :
  (∀ fuel,
     run 2 (reserve fuel consumer0 true) w_idle =
       (Unfinished, set_cv w_idle fuel,
        mjoin (replicate fuel
          [(Cv_acquire, inr RUnit);
           (GetChildren "/queue/items" true, inr (RChildren []))]))) ∧
  (run 2 (reserve 1 consumer0 true) w_stalled2).1.1 = Raised RuntimeError ∧
  (run 2 (reserve 1 consumer0 true) w_stalled2).2 =
    [(Cv_acquire, inr RUnit);
     (GetChildren "/queue/items" true,
      inr (RChildren ["item-0000000001"; "item-0000000000"]));
     (Get "/queue/items/item-0000000000",
      inr (RData "" {| version := 0; cversion := 0; ctime := 0;
                       ephemeralOwner := None |}));
     (Time_time, inr (RTime 0));
     (Cv_wait, inr RUnit);
     (Cv_release, inr RUnit);
     (Get "/queue/items/item-0000000001",
      inr (RData "" {| version := 0; cversion := 0; ctime := 0;
                       ephemeralOwner := None |}));
     (Time_time, inr (RTime 0));
     (Cv_wait, inl RuntimeError)] ∧
  (run 2 (reserve 1 consumer0 true) w_behind).1.1 = Raised RuntimeError ∧
  (run 2 (reserve 1 consumer0 true) w_behind).2 =
    [(Cv_acquire, inr RUnit);
     (GetChildren "/queue/items" true,
      inr (RChildren ["item-0000000001"; "item-0000000000"]));
     (Get "/queue/items/item-0000000000",
      inr (RData "" {| version := 0; cversion := 0; ctime := 0;
                       ephemeralOwner := None |}));
     (Time_time, inr (RTime 0));
     (Cv_wait, inr RUnit);
     (Cv_release, inr RUnit);
     (Get "/queue/items/item-0000000001",
      inr (RData "job-b" {| version := 1; cversion := 0; ctime := 0;
                            ephemeralOwner := None |}));
     (SetData "/queue/consumers/consumer-0000000000/item" "job-b" (-1),
      inr RUnit);
     (Delete "/queue/items/item-0000000001" 1, inr RUnit);
     (Cv_release, inl RuntimeError)].
Proof.
  split.
  - intros fuel. cbn [reserve].
    rewrite blocking_reserve_spins.
    + by rewrite Nat.add_0_r.
    + vm_compute. eauto.
    + by vm_compute.
  - repeat split; by vm_compute.
Qed.

(** ** C9: after [close()] *)

Lemma close_returns (sid : nat) (self self' : Consumer) (w w' : world)
    (tr : trace) :
  run sid (close self) w = (Returned self', w', tr) →
  ∃ id,
    _id self = Some id ∧ self' = closed_consumer ∧
    tr = [(Delete (id +:+ "/item") (-1), inr RUnit);
          (Delete (id +:+ "/active") (-1), inr RUnit);
          (Delete id (-1), inr RUnit)] ∧
    nodes w' = delete id (delete (id +:+ "/active")
                            (delete (id +:+ "/item") (nodes w))).
Proof.
  destruct self as [[id|]]; [|discriminate].
  unfold close. cbn [_fullpath _id bind]. intros Hrun. exists id.
  rewrite run_bind in Hrun.
  destruct (run_delete sid (id +:+ "/item") (-1) w) as [[H1 _]|[e H1]];
    rewrite H1 in Hrun; [|discriminate].
  cbn beta iota zeta in Hrun. rewrite run_bind in Hrun.
  destruct (run_delete sid (id +:+ "/active") (-1)
              (set_nodes w (delete (id +:+ "/item") (nodes w))))
    as [[H2 _]|[e H2]]; rewrite H2 in Hrun; [|discriminate].
  cbn beta iota zeta in Hrun. rewrite run_bind in Hrun.
  match type of Hrun with
  | context [run sid (zk_delete id (-1)) ?w3] =>
      destruct (run_delete sid id (-1) w3) as [[H3 _]|[e H3]];
        rewrite H3 in Hrun; [|discriminate]
  end.
  cbn in Hrun. by injection Hrun as <- <- <-.
Qed.

Lemma simple_reserve_closed_queued (sid fuel : nat) (w : world) :
  is_Some (nodes w !! "/queue/items") →
  children (nodes w) "/queue/items" ≠ [] →
  run sid (_simple_reserve (S fuel) closed_consumer) w =
    (Raised TypeError, w,
     [(GetChildren "/queue/items" false,
       inr (RChildren (children (nodes w) "/queue/items")))]).
Proof.
  intros [dir Hdir] Hne.
  cbn [_simple_reserve]. rewrite run_bind, run_get_children, Hdir.
  cbn beta iota zeta.
  destruct (sorted (children (nodes w) "/queue/items")) as [|c cs] eqn:Hcs.
  - by apply sorted_nil_inv in Hcs.
  - reflexivity.
Qed.

Lemma blocking_reserve_closed_queued (sid fuel : nat) (w : world) :
  is_Some (nodes w !! "/queue/items") →
  children (nodes w) "/queue/items" ≠ [] →
  run sid (_blocking_reserve (S fuel) closed_consumer) w =
    (Raised TypeError, set_cv w (S (cv w)),
     [(Cv_acquire, inr RUnit);
      (GetChildren "/queue/items" true,
       inr (RChildren (children (nodes w) "/queue/items")))]).
Proof.
  intros [dir Hdir] Hne.
  cbn [_blocking_reserve]. rewrite run_bind, run_cv_acquire.
  cbn beta iota zeta. rewrite run_bind, run_get_children.
  cbn [nodes set_cv]. rewrite Hdir. cbn beta iota zeta.
  destruct (sorted (children (nodes w) "/queue/items")) as [|c cs] eqn:Hcs.
  - by apply sorted_nil_inv in Hcs.
  - reflexivity.
Qed.

(** C9, as amended. A [close()] that completes has deleted the item slot, the
    active marker and the registration node, in this order, and has cleared
    the consumer's identity. From then on, in every store: [done()] and
    [close()] raise [TypeError] before any call to the store; [reserve()], in
    either mode, raises it as soon as its listing of /queue/items holds a
    candidate; on an empty /queue/items the non-blocking [reserve()] still
    returns noWork, and the blocking one lists again and again. *)
Theorem closed_consumer_operations (sid : nat) (self self' : Consumer)
    (w w' : world) (tr : trace) :
  run sid (close self) w = (Returned self', w', tr) →
  (∃ id,
     _id self = Some id ∧
     tr = [(Delete (id +:+ "/item") (-1), inr RUnit);
           (Delete (id +:+ "/active") (-1), inr RUnit);
           (Delete id (-1), inr RUnit)] ∧
     nodes w' = delete id (delete (id +:+ "/active")
                             (delete (id +:+ "/item") (nodes w)))) ∧
  _id self' = None ∧
  ∀ sid2 w2,
    run sid2 (done self') w2 = (Raised TypeError, w2, []) ∧
    run sid2 (close self') w2 = (Raised TypeError, w2, []) ∧
    ∀ fuel,
      is_Some (nodes w2 !! "/queue/items") →
      match children (nodes w2) "/queue/items" with
      | [] =>
          run sid2 (reserve (S fuel) self' false) w2 =
            (Returned None, w2,
             [(GetChildren "/queue/items" false, inr (RChildren []))]) ∧
          (run sid2 (reserve (S fuel) self' true) w2).1.1 = Unfinished
      | c :: cs =>
          run sid2 (reserve (S fuel) self' false) w2 =
            (Raised TypeError, w2,
             [(GetChildren "/queue/items" false, inr (RChildren (c :: cs)))]) ∧
          run sid2 (reserve (S fuel) self' true) w2 =
            (Raised TypeError, set_cv w2 (S (cv w2)),
             [(Cv_acquire, inr RUnit);
              (GetChildren "/queue/items" true, inr (RChildren (c :: cs)))])
      end.
Proof.
  intros Hrun.
  destruct (close_returns _ _ _ _ _ _ Hrun) as (id & Hid & -> & -> & Hnodes).
  split; [by exists id|]. split; [done|].
  intros sid2 w2. split; [done|]. split; [done|].
  intros fuel Hdir. cbn [reserve].
  destruct (children (nodes w2) "/queue/items") as [|c cs] eqn:Hc.
  - split.
    + destruct Hdir as [dir Hdir].
      cbn [_simple_reserve]. by rewrite run_bind, run_get_children, Hdir, Hc.
    + by rewrite blocking_reserve_spins.
  - split.
    + rewrite simple_reserve_closed_queued; [by rewrite Hc|done|by rewrite Hc].
    + rewrite blocking_reserve_closed_queued; [by rewrite Hc|done|by rewrite Hc].
Qed.

Lemma closed_consumer_operations_witness :
  (∃ id,
     _id consumer0 = Some id ∧
     (run 2 (close consumer0) w_idle).2
       = [(Delete (id +:+ "/item") (-1), inr RUnit);
          (Delete (id +:+ "/active") (-1), inr RUnit);
          (Delete id (-1), inr RUnit)] ∧
     nodes w_closed = delete id (delete (id +:+ "/active")
                                   (delete (id +:+ "/item") (nodes w_idle)))) ∧
  _id closed_consumer = None ∧
  ∀ sid2 w2,
    run sid2 (done closed_consumer) w2 = (Raised TypeError, w2, []) ∧
    run sid2 (close closed_consumer) w2 = (Raised TypeError, w2, []) ∧
    ∀ fuel,
      is_Some (nodes w2 !! "/queue/items") →
      match children (nodes w2) "/queue/items" with
      | [] =>
          run sid2 (reserve (S fuel) closed_consumer false) w2 =
            (Returned None, w2,
             [(GetChildren "/queue/items" false, inr (RChildren []))]) ∧
          (run sid2 (reserve (S fuel) closed_consumer true) w2).1.1 = Unfinished
      | c :: cs =>
          run sid2 (reserve (S fuel) closed_consumer false) w2 =
            (Raised TypeError, w2,
             [(GetChildren "/queue/items" false, inr (RChildren (c :: cs)))]) ∧
          run sid2 (reserve (S fuel) closed_consumer true) w2 =
            (Raised TypeError, set_cv w2 (S (cv w2)),
             [(Cv_acquire, inr RUnit);
              (GetChildren "/queue/items" true, inr (RChildren (c :: cs)))])
      end.
Proof.
  apply (closed_consumer_operations 2 consumer0 closed_consumer w_idle w_closed
           (run 2 (close consumer0) w_idle).2).
  vm_compute. reflexivity.
Defined.

(** C9, counterexample. The consumer closed on an empty queue; its next
    non-blocking [reserve()] returns noWork. *)
Lemma reserve_after_close_returns :
  (run 2 (close consumer0) w_idle).1 = (Returned closed_consumer, w_closed) ∧
  run 2 (reserve 1 closed_consumer false) w_closed =
    (Returned None, w_closed,
     [(GetChildren "/queue/items" false, inr (RChildren []))]).
Proof. split; by vm_compute. Qed.

(** ** C5: version conflicts *)

Lemma conflict_surfaces_bind {A B : Type} (env : list (world → world))
    (sid : nat) (p : prog A) (f : A → prog B) (w : world) :
  conflict_surfaces (run_with env sid p w) →
  (∀ a env' w', conflict_surfaces (run_with env' sid (f a) w')) →
  conflict_surfaces (run_with env sid (bind p f) w).
Proof.
  intros Hp Hf. rewrite run_with_bind.
  destruct (run_with env sid p w) as [[o w1] tr1].
  destruct o as [a|e|].
  2:{ intros c Hc. destruct (Hp c Hc) as [[= ->] Hex]. done. }
  2:{ intros c Hc. by destruct (Hp c Hc) as [? _]. }
  specialize (Hf a (drop (length tr1) env) w1).
  destruct (run_with (drop (length tr1) env) sid (f a) w1) as [[o2 w2] tr2].
  intros c Hc. cbn in *. apply elem_of_app in Hc as [Hc|Hc].
  - by destruct (Hp c Hc) as [? _].
  - destruct (Hf c Hc) as [Ho (src & dest & value & st & -> & Hsuf)].
    cbn in Ho. subst o2.
    split; [done|]. exists src, dest, value, st. split; [done|].
    by apply suffix_app_r.
Qed.

Lemma conflict_surfaces_quiet {A : Type} (o : outcome A) (w : world)
    (tr : trace) :
  (∀ c, (c, inl BadVersionException) ∉ tr) → conflict_surfaces (o, w, tr).
Proof. intros H c Hc. by apply H in Hc. Qed.

Lemma move_conflict_surfaces (env : list (world → world)) (sid : nat)
    (src dest : string) (w : world) :
  conflict_surfaces (run_with env sid (_move src dest) w).
Proof.
  unfold _move. cbn [bind try_except zk_get run_with].
  destruct (exec_get_cases sid src (interfere env w)) as [(n & Hn & ->)| ->].
  2:{ (* the node is gone: the slot is emptied *)
    cbn. rewrite exec_set_any.
    destruct (nodes _ !! dest); cbn; intros c Hc; cbn in Hc; trace_entries Hc. }
  destruct n as [value st]. cbn [data zstat]. clear Hn.
  destruct value as [|a value]; cbn.
  - (* empty data *)
    rewrite exec_time. cbn.
    destruct (ctime st <? _)%Z; cbn.
    + rewrite exec_delete_any.
      destruct (nodes _ !! src); cbn.
      * destruct (children _ src); cbn; intros c Hc; cbn in Hc;
          trace_entries Hc.
      * intros c Hc; cbn in Hc; trace_entries Hc.
    + intros c Hc; cbn in Hc; trace_entries Hc.
  - rewrite exec_set_any.
    destruct (nodes _ !! dest) as [nd|]; cbn.
    2:{ rewrite exec_set_any.
        destruct (nodes _ !! dest); cbn; intros c Hc; cbn in Hc;
          trace_entries Hc. }
    match goal with
    | |- context [exec sid (Delete src (version st)) ?w3] =>
        destruct (exec sid (Delete src (version st)) w3) as [[e|r] w4] eqn:Hdel
    end; cbn.
    2:{ intros c Hc; cbn in Hc; trace_entries Hc. }
    destruct e; cbn;
      try (intros c Hc; cbn in Hc; trace_entries Hc; fail).
    + rewrite exec_set_any.
      destruct (nodes _ !! dest); cbn; intros c Hc; cbn in Hc; trace_entries Hc.
    + intros c Hc. cbn in Hc.
      apply elem_of_cons in Hc as [Hc|Hc]; [discriminate|].
      apply elem_of_cons in Hc as [Hc|Hc]; [discriminate|].
      apply elem_of_cons in Hc as [Hc|Hc]; [|by apply elem_of_nil in Hc].
      injection Hc as ->. split; [done|].
      exists src, dest, (String a value), st. split; [done|]. done.
Qed.

Lemma fullpath_conflict_surfaces (env : list (world → world)) (sid : nat)
    (self : Consumer) (sufix : string) (w : world) :
  conflict_surfaces (run_with env sid (_fullpath self sufix) w).
Proof.
  unfold _fullpath. destruct (_id self); cbn; intros c Hc; cbn in Hc;
    by apply elem_of_nil in Hc.
Qed.

Lemma cv_conflict_surfaces (env : list (world → world)) (sid : nat)
    (c : call) (w : world) :
  c = Cv_acquire ∨ c = Cv_release ∨ c = Cv_wait →
  conflict_surfaces (run_with env sid (call_unit c) w).
Proof.
  intros Hc. unfold call_unit. cbn [run_with].
  assert (∀ w0, (exec sid c w0).1 ≠ inl BadVersionException) as Hq.
  { intros w0. destruct Hc as [->|[->| ->]]; unfold exec; try done;
      by destruct (cv w0). }
  specialize (Hq (interfere env w)).
  destruct (exec sid c (interfere env w)) as [[e|r] w2]; cbn in *.
  - intros c' Hc'. cbn in Hc'.
    apply elem_of_cons in Hc' as [[= -> <-]|Hc']; [done|].
    by apply elem_of_nil in Hc'.
  - intros c' Hc'. cbn in Hc'. trace_entries Hc'.
Qed.

Lemma get_children_conflict_surfaces (env : list (world → world)) (sid : nat)
    (p : string) (watch : bool) (w : world) :
  conflict_surfaces (run_with env sid (zk_get_children p watch) w).
Proof.
  unfold zk_get_children. cbn [run_with]. unfold exec, store_get_children.
  destruct (nodes (interfere env w) !! p); cbn; intros c Hc; cbn in Hc;
    trace_entries Hc.
Qed.

Lemma ret_conflict_surfaces {A : Type} (env : list (world → world)) (sid : nat)
    (a : A) (w : world) :
  conflict_surfaces (run_with env sid (Ret a) w).
Proof. intros c Hc. cbn in Hc. by apply elem_of_nil in Hc. Qed.

Lemma simple_scan_conflict_surfaces (sid : nat) (self : Consumer)
    (cs : list string) :
  ∀ env w, conflict_surfaces (run_with env sid (simple_scan self cs) w).
Proof.
  induction cs as [|c cs IH]; intros env w; cbn [simple_scan].
  - apply ret_conflict_surfaces.
  - apply conflict_surfaces_bind; [apply fullpath_conflict_surfaces|].
    intros dest env1 w1.
    apply conflict_surfaces_bind; [apply move_conflict_surfaces|].
    intros value env2 w2.
    destruct (truthy value); [apply ret_conflict_surfaces|apply IH].
Qed.

Lemma blocking_scan_conflict_surfaces (sid : nat) (self : Consumer)
    (cs : list string) :
  ∀ env w, conflict_surfaces (run_with env sid (blocking_scan self cs) w).
Proof.
  induction cs as [|c cs IH]; intros env w; cbn [blocking_scan].
  - apply ret_conflict_surfaces.
  - apply conflict_surfaces_bind; [apply fullpath_conflict_surfaces|].
    intros dest env1 w1.
    apply conflict_surfaces_bind; [apply move_conflict_surfaces|].
    intros value env2 w2.
    destruct (truthy value).
    + apply conflict_surfaces_bind; [apply cv_conflict_surfaces; auto|].
      intros. apply ret_conflict_surfaces.
    + apply conflict_surfaces_bind; [apply cv_conflict_surfaces; auto|].
      intros. apply conflict_surfaces_bind;
        [apply cv_conflict_surfaces; auto|].
      intros. apply IH.
Qed.

(** C5, as amended. In every execution of [reserve()], in either mode and
    whatever the other clients do between its calls: a call that the store
    answers with a version mismatch is the conditional delete of a move, made
    right after the payload was written to the slot; it is the last call of
    the execution (nothing is listed again, nothing retried), and [reserve()]
    ends by raising [BadVersionException] to its caller. *)
Theorem version_conflict_surfaces (env : list (world → world))
    (sid fuel : nat) (self : Consumer) (block : bool) (w : world) :
  conflict_surfaces (run_with env sid (reserve fuel self block) w).
Proof.
  destruct block; cbn [reserve]; revert env w.
  - induction fuel as [|fuel IH]; intros env w; cbn [_blocking_reserve].
    + intros c Hc. cbn in Hc. by apply elem_of_nil in Hc.
    + apply conflict_surfaces_bind; [apply cv_conflict_surfaces; auto|].
      intros _ env1 w1.
      apply conflict_surfaces_bind; [apply get_children_conflict_surfaces|].
      intros names env2 w2.
      apply conflict_surfaces_bind; [apply blocking_scan_conflict_surfaces|].
      intros found env3 w3.
      destruct (truthy found); [apply ret_conflict_surfaces|apply IH].
  - induction fuel as [|fuel IH]; intros env w; cbn [_simple_reserve].
    + intros c Hc. cbn in Hc. by apply elem_of_nil in Hc.
    + apply conflict_surfaces_bind; [apply get_children_conflict_surfaces|].
      intros names env1 w1. cbn zeta.
      destruct (length (sorted names) =? 0)%nat;
        [apply ret_conflict_surfaces|].
      apply conflict_surfaces_bind; [apply simple_scan_conflict_surfaces|].
      intros found env2 w2.
      destruct (truthy found); [apply ret_conflict_surfaces|apply IH].
Qed.

(** C5, counterexample. The queue holds one job; between the consumer's write
    to its slot and its conditional delete another client rewrites the item
    node. The delete is answered with a version mismatch and [reserve()]
    raises it. *)
Lemma reserve_raises_version_conflict :
  (run_with [id; id; id; rewrite_in_place "/queue/items/item-0000000000" "job-x"]
     2 (reserve 1 consumer0 false) w_ready).1.1
    = Raised BadVersionException ∧
  (run_with [id; id; id; rewrite_in_place "/queue/items/item-0000000000" "job-x"]
     2 (reserve 1 consumer0 false) w_ready).2
    = [(GetChildren "/queue/items" false, inr (RChildren ["item-0000000000"]));
       (Get "/queue/items/item-0000000000",
        inr (RData "job-a" {| version := 1; cversion := 0; ctime := 0;
                              ephemeralOwner := None |}));
       (SetData "/queue/consumers/consumer-0000000000/item" "job-a" (-1),
        inr RUnit);
       (Delete "/queue/items/item-0000000000" 1, inl BadVersionException)].
Proof. split; by vm_compute. Qed.

(** ** C10: [put] and its retry *)

Lemma put_run_never_NoNode (value : string) (o : outcome ()) (w' : world)
    (tr : trace) :
  put_run value o w' tr → o ≠ Raised NoNodeException.
Proof. induction 1; try done; by intros [= ->]. Qed.

Lemma put_runs (sid : nat) (value : string) (fuel : nat) :
  ∀ env w,
    put_run value (run_with env sid (put fuel value) w).1.1
      (run_with env sid (put fuel value) w).1.2
      (run_with env sid (put fuel value) w).2.
Proof.
  induction fuel as [|fuel IH]; intros env w.
  { apply put_unfinished. }
  unfold put. cbn [retry_on]. fold (put fuel value).
  unfold put_body, zk_create. cbn [bind try_except run_with].
  destruct (exec sid (Create "/queue/items/item-" "" SEQUENCE) (interfere env w))
    as [[e|r] w1] eqn:Hcreate.
  - (* the create failed *)
    cbn [bind try_except].
    destruct (decide (e = NoNodeException)) as [->|He].
    + rewrite bool_decide_eq_true_2 by (by apply list_elem_of_singleton).
      cbn. rewrite exec_sleep.
      specialize (IH (tail (tail env)) (interfere (tail env) w1)).
      destruct (run_with (tail (tail env)) sid (put fuel value)
                  (interfere (tail env) w1)) as [[o w3] tr].
      cbn in *. by apply put_create_retried.
    + rewrite bool_decide_eq_false_2 by (by rewrite list_elem_of_singleton).
      cbn. by apply put_create_raised.
  - destruct (exec_create_reply _ _ _ _ _ _ _ Hcreate) as [name ->].
    cbn [bind try_except zk_set call_unit run_with].
    destruct (exec_set_cases sid name value 0 (interfere (tail env) w1))
      as [(n & Hn & ->)|[e ->]].
    + cbn. apply (put_written value name (write_data n value)); [|done].
      cbn. by rewrite lookup_insert_eq.
    + cbn [bind try_except].
      destruct (decide (e = NoNodeException)) as [->|He].
      * rewrite bool_decide_eq_true_2 by (by apply list_elem_of_singleton). cbn.
        rewrite exec_sleep.
        specialize (IH (tail (tail (tail env)))
                      (interfere (tail (tail env)) (interfere (tail env) w1))).
        destruct (run_with (tail (tail (tail env))) sid (put fuel value)
                    (interfere (tail (tail env)) (interfere (tail env) w1)))
          as [[o w3] tr].
        cbn in *. by apply put_write_retried.
      * rewrite bool_decide_eq_false_2 by (by rewrite list_elem_of_singleton).
        cbn. by apply put_write_raised.
Qed.

(** Left alone on the queue that was set up, [put] completes at its first
    attempt. *)
Example put_alone_completes :
  run 1 (put 1 "job-a") w_queue
  = (Returned (),
     w_job,
     [(Create "/queue/items/item-" "" SEQUENCE,
       inr (RPath "/queue/items/item-0000000000"));
      (SetData "/queue/items/item-0000000000" "job-a" 0, inr RUnit)]) ∧
  data_at "/queue/items/item-0000000000" w_job = Some "job-a".
Proof. split; by vm_compute. Qed.

(** C10, as amended. Whatever the other clients do, an execution of
    [put(value)] is a sequence of attempts that failed with
    [NoNodeException], on the create or on the write, each followed by the
    sleep and by a new execution of the whole body, and then an end: the
    write went through and the node just created holds the value, or another
    exception surfaced, or the rounds ran out. [NoNodeException] never
    surfaces. Whenever a write fails with [NoNodeException], the store it met
    holds no node of the name that attempt created: the retry leaves no empty
    node of its own behind. *)
Theorem put_retries_on_NoNode (env : list (world → world)) (sid fuel : nat)
    (value : string) (w : world) :
  put_run value (run_with env sid (put fuel value) w).1.1
    (run_with env sid (put fuel value) w).1.2
    (run_with env sid (put fuel value) w).2 ∧
  (run_with env sid (put fuel value) w).1.1 ≠ Raised NoNodeException ∧
  ∀ i name,
    (run_with env sid (put fuel value) w).2 !! i
      = Some (SetData name value 0, inl NoNodeException) →
    ∃ wi, met_with env sid (put fuel value) w !! i = Some wi ∧
          nodes wi !! name = None.
Proof.
  split; [apply put_runs|]. split.
  - eapply put_run_never_NoNode, put_runs.
  - intros i name Hi.
    destruct (trace_sound sid _ _ _ _ _ _ Hi) as (wi & Hwi & Hr).
    exists wi. split; [done|]. by apply exec_set_NoNode in Hr.
Qed.

(** C10, counterexample. The producer creates item-0000000000; before it
    writes, five minutes pass and a consumer drops the empty node. The write
    fails with [NoNodeException], [put] runs its body again and completes on
    item-0000000001. The queue then holds that one node, with the value: the
    completed [put] left no empty node besides it. *)
Lemma put_retry_leaves_no_empty_node :
  (run_with [id; drop_after_timeout] 1 (put 2 "job-a") w_idle).1.1
    = Returned () ∧
  (run_with [id; drop_after_timeout] 1 (put 2 "job-a") w_idle).2
    = [(Create "/queue/items/item-" "" SEQUENCE,
        inr (RPath "/queue/items/item-0000000000"));
       (SetData "/queue/items/item-0000000000" "job-a" 0,
        inl NoNodeException);
       (Time_sleep, inr RUnit);
       (Create "/queue/items/item-" "" SEQUENCE,
        inr (RPath "/queue/items/item-0000000001"));
       (SetData "/queue/items/item-0000000001" "job-a" 0, inr RUnit)] ∧
  children
    (nodes (run_with [id; drop_after_timeout] 1 (put 2 "job-a") w_idle).1.2)
    "/queue/items" = ["item-0000000001"] ∧
  data_at "/queue/items/item-0000000001"
    (run_with [id; drop_after_timeout] 1 (put 2 "job-a") w_idle).1.2
    = Some "job-a".
Proof. repeat split; by vm_compute. Qed.

(** ** C8: the item slot over a consumer's operations *)

Lemma move_slot (env : list (world → world)) (sid : nat) (src dest : string)
    (w : world) :
  src ≠ dest →
  Forall (spares dest) env →
  data_at dest w = Some "" →
  slot_post dest (run_with env sid (_move src dest) w).
Proof.
  intros Hne Henv Hslot.
  assert (He1 := Forall_tail _ _ Henv).
  assert (He2 := Forall_tail _ _ He1).
  assert (He3 := Forall_tail _ _ He2).
  unfold _move. cbn [bind try_except zk_get run_with].
  destruct (exec_get_cases sid src (interfere env w)) as [(n & _ & ->)| ->].
  2:{ (* the node is gone *)
    cbn.
    destruct (exec_set_slot sid dest "" (interfere (tail env) (interfere env w)))
      as (w2 & -> & Hw2).
    { rewrite !interfere_spares by done. by rewrite Hslot. }
    done. }
  destruct n as [value st]. cbn [data zstat].
  set (w1 := interfere (tail env) (interfere env w)).
  assert (Hw1 : data_at dest w1 = Some "").
  { unfold w1. by rewrite !interfere_spares. }
  destruct value as [|a value]; cbn.
  - (* empty data *)
    rewrite exec_time. cbn. fold w1.
    destruct (ctime st <? clock w1 - 300)%Z; cbn; [|done].
    destruct (exec_delete_other sid src dest (-1) (interfere (tail (tail env)) w1))
      as (r & w3 & -> & Hw3); [done|].
    rewrite interfere_spares in Hw3 by done.
    destruct r as [e|r]; cbn.
    + destruct e; cbn; try done. congruence.
    + congruence.
  - fold w1.
    destruct (exec_set_slot sid dest (String a value) w1) as (w2 & -> & Hw2).
    { by rewrite Hw1. }
    cbn.
    destruct (exec_delete_other sid src dest (version st)
                (interfere (tail (tail env)) w2))
      as (r & w3 & -> & Hw3); [done|].
    rewrite interfere_spares in Hw3 by done.
    destruct r as [e|r]; cbn.
    + destruct e; cbn; try done.
      destruct (exec_set_slot sid dest "" (interfere (tail (tail (tail env))) w3))
        as (w4 & -> & Hw4).
      { rewrite interfere_spares by done. by rewrite Hw3, Hw2. }
      done.
    + split; [done|]. congruence.
Qed.

Lemma slot_post_bind (env : list (world → world)) (sid : nat) (dest : string)
    (p : prog (option string)) (f : option string → prog (option string))
    (w : world) :
  Forall (spares dest) env →
  slot_post dest (run_with env sid p w) →
  (∀ d, truthy (Some d) = true → f (Some d) = Ret (Some d)) →
  (∀ env' w', Forall (spares dest) env' → data_at dest w' = Some "" →
              slot_post dest (run_with env' sid (f None) w')) →
  slot_post dest (run_with env sid (bind p f) w).
Proof.
  intros Henv Hp Hsome Hnone. rewrite run_with_bind.
  destruct (run_with env sid p w) as [[o w1] tr1].
  destruct o as [[d|]|e|]; unfold slot_post in *; cbn in *; [| |done|done].
  - destruct Hp as [Hd Hslot].
    rewrite Hsome by (by destruct d). cbn. done.
  - specialize (Hnone (drop (length tr1) env) w1).
    destruct (run_with (drop (length tr1) env) sid (f None) w1) as [[o2 w2] tr2].
    cbn in *. apply Hnone; [by apply Forall_drop|done].
Qed.

Lemma slot_post_cons (dest : string)
    (res : outcome (option string) * world * trace) (e : call * result) :
  slot_post dest res →
  slot_post dest (let '(o, w3, tr) := res in (o, w3, e :: tr)).
Proof. by destruct res as [[o w] tr]. Qed.

Lemma simple_scan_slot (sid : nat) (id : string) (cs : list string) :
  consumer_path id →
  ∀ env w,
    Forall (spares (slot_path id)) env →
    data_at (slot_path id) w = Some "" →
    slot_post (slot_path id)
      (run_with env sid (simple_scan {| _id := Some id |} cs) w).
Proof.
  intros Hid. induction cs as [|c cs IH]; intros env w Henv Hslot.
  - done.
  - cbn [simple_scan _fullpath _id bind]. fold (slot_path id).
    apply slot_post_bind; [done| | |].
    + apply move_slot; [|done|done].
      apply not_eq_sym, (slot_not_item id c Hid).
    + intros d Hd. by rewrite Hd.
    + intros env' w' Henv' Hslot'. cbn [truthy]. by apply IH.
Qed.

Lemma simple_reserve_slot (sid : nat) (id : string) (fuel : nat) :
  consumer_path id →
  ∀ env w,
    Forall (spares (slot_path id)) env →
    data_at (slot_path id) w = Some "" →
    slot_post (slot_path id)
      (run_with env sid (_simple_reserve fuel {| _id := Some id |}) w).
Proof.
  intros Hid. induction fuel as [|fuel IH]; intros env w Henv Hslot; [done|].
  cbn [_simple_reserve]. unfold zk_get_children. cbn [bind run_with].
  unfold exec at 1, store_get_children.
  assert (Hw0 : data_at (slot_path id) (interfere env w) = Some "").
  { by rewrite interfere_spares. }
  assert (He1 := Forall_tail _ _ Henv).
  destruct (nodes (interfere env w) !! "/queue/items") as [dir|]; [|done].
  cbn [bind].
  destruct (length (sorted (children (nodes (interfere env w)) "/queue/items"))
            =? 0)%nat.
  { cbn. done. }
  apply slot_post_cons. apply slot_post_bind; [done| | |].
  - by apply simple_scan_slot.
  - intros d Hd. by rewrite Hd.
  - intros env' w' Henv' Hslot'. by apply IH.
Qed.

Lemma done_slot (env : list (world → world)) (sid : nat) (id : string)
    (w w' : world) (tr : trace) :
  run_with env sid (done {| _id := Some id |}) w = (Returned (), w', tr) →
  data_at (slot_path id) w' = Some "".
Proof.
  unfold done. cbn [_fullpath _id bind zk_set call_unit run_with].
  fold (slot_path id).
  destruct (exec_set_cases sid (slot_path id) "" (-1) (interfere env w))
    as [(n & Hn & ->)|[e ->]]; [|done].
  intros [= <- _]. unfold data_at. cbn. by rewrite lookup_insert_eq.
Qed.

Lemma register_slot (env : list (world → world)) (sid : nat) (self : Consumer)
    (w w' : world) (tr : trace) :
  run_with env sid _register w = (Returned self, w', tr) →
  ∃ id, _id self = Some id ∧ consumer_path id ∧
        data_at (slot_path id) w' = Some "".
Proof.
  unfold _register, zk_create. cbn [bind run_with].
  destruct (exec sid (Create "/queue/consumers/consumer-" "" SEQUENCE) _)
    as [[e|r] w1] eqn:H1; [done|].
  apply exec_create_inr in H1 as (id & -> & [n ->] & _).
  cbn [bind _fullpath _id run_with].
  destruct (exec sid (Create _ "" EPHEMERAL) _) as [[e|r] w2] eqn:H2; [done|].
  apply exec_create_inr in H2 as (active & -> & _).
  cbn [bind run_with].
  destruct (exec sid (Create _ "" 0) _) as [[e|r] w3] eqn:H3; [done|].
  apply exec_create_inr in H3 as (item & -> & Hitem & Hslot).
  cbn in Hitem. subst item. cbn. intros [= <- <- _].
  eexists. split; [done|]. split; [|done].
  by exists ("consumer-" +:+ pad10 n).
Qed.

Lemma init_slot (env : list (world → world)) (sid : nat) (self : Consumer)
    (w w' : world) (tr : trace) :
  run_with env sid Consumer_init w = (Returned self, w', tr) →
  ∃ id, _id self = Some id ∧ consumer_path id ∧
        data_at (slot_path id) w' = Some "".
Proof.
  unfold Consumer_init. intros H.
  repeat (rewrite run_with_bind in H;
          match type of H with
          | context [run_with ?e sid (ensure_exists ?p ?v) ?w0] =>
              destruct (run_with e sid (ensure_exists p v) w0) as [[[[]|?|] ?] ?];
                try discriminate H
          end).
  match type of H with
  | context [run_with ?e sid _register ?w0] =>
      destruct (run_with e sid _register w0) as [[o wr] trr] eqn:Hreg
  end.
  destruct o as [self'|?|]; try discriminate H.
  apply register_slot in Hreg. by injection H as <- <- _.
Qed.

Lemma run_ops_slot (sid fuel : nat) (id : string) (ops : list op) :
  consumer_path id →
  Forall (λ o, Forall (spares (slot_path id)) (op_env o)) ops →
  ∀ w held d w' held',
    data_at (slot_path id) w = Some d →
    (d ≠ "" ↔ held = true) →
    run_ops sid fuel {| _id := Some id |} ops w held = Some (w', held') →
    ∃ d', data_at (slot_path id) w' = Some d' ∧ (d' ≠ "" ↔ held' = true).
Proof.
  intros Hid Hops.
  induction Hops as [|o ops Ho Hops IH]; intros w held d w' held' Hslot Hheld.
  - intros [= <- <-]. eauto.
  - destruct o as [env|env]; cbn [run_ops op_env] in *.
    + destruct held; [done|].
      assert (d = "") as ->.
      { destruct (decide (d = "")) as [|Hd]; [done|]. by apply Hheld in Hd. }
      pose proof (simple_reserve_slot sid id fuel Hid env w Ho Hslot) as Hpost.
      cbn [reserve].
      destruct (run_with env sid (_simple_reserve fuel {| _id := Some id |}) w)
        as [[o w1] tr]. unfold slot_post in Hpost. cbn in Hpost.
      destruct o as [[d1|]|e|]; try done.
      * destruct Hpost as [Hd1 Hs1]. apply (IH _ _ d1); [done|].
        destruct d1; [done|]. done.
      * apply (IH _ _ ""); [done|]. done.
    + destruct (run_with env sid (done {| _id := Some id |}) w)
        as [[o w1] tr] eqn:Hrun.
      destruct o as [[]|e|]; try done.
      apply done_slot in Hrun. apply (IH _ _ ""); [done|]. done.
Qed.

(** C8, as amended. A consumer registers and then makes any sequence of
    non-blocking [reserve()] calls, each made while it holds nothing, and
    [done()] calls, every one of which returns; the other clients act as they
    like before each of its calls, except that they leave the consumer's item
    slot alone. After the sequence the slot exists, and it is non-empty
    exactly when a [reserve()] has returned a payload and no [done()] has
    followed. In particular registration leaves the slot empty, a
    [reserve()] that returns noWork leaves or restores it empty, and [done()]
    empties it. (Nothing is said of a [reserve()] that raises.) *)
Theorem slot_nonempty_iff_held (env0 : list (world → world)) (sid fuel : nat)
    (self : Consumer) (ops : list op) (w0 w w' : world) (tr0 : trace)
    (held : bool) :
  run_with env0 sid Consumer_init w0 = (Returned self, w, tr0) →
  (∀ id, _id self = Some id →
         Forall (λ o, Forall (spares (slot_path id)) (op_env o)) ops) →
  run_ops sid fuel self ops w false = Some (w', held) →
  ∃ id d,
    _id self = Some id ∧
    data_at (slot_path id) w' = Some d ∧
    (d ≠ "" ↔ held = true).
Proof.
  intros Hinit Hops Hrun.
  destruct (init_slot _ _ _ _ _ _ Hinit) as (id & Hself & Hid & Hslot).
  destruct self as [oid]. cbn in Hself. subst oid.
  destruct (run_ops_slot sid fuel id ops Hid (Hops id eq_refl)
              w false "" w' held Hslot) as (d & Hd & Hiff); [done|done|].
  by exists id, d.
Qed.

Lemma slot_nonempty_iff_held_witness :
  ∃ id d,
    _id consumer0 = Some id ∧
    data_at (slot_path id)
      (run_with [tick 5] 2 (reserve 1 consumer0 false) w_ready).1.2 = Some d ∧
    (d ≠ "" ↔ true = true).
Proof.
  apply (slot_nonempty_iff_held [] 2 1 consumer0 [OpReserve [tick 5]]
           w_job w_ready _ (run 2 Consumer_init w_job).2 true).
  - vm_compute. reflexivity.
  - intros id _. repeat constructor.
  - vm_compute. reflexivity.
Defined.

(** C8, counterexample. First: the consumer's slot is empty; its [reserve()]
    fails, raising the version conflict of C5; the slot is left holding the
    payload, with no reservation that succeeded. Second: the consumer holds a
    payload and calls [reserve()] again without [done()]; the candidate it
    listed is taken by another consumer before it reads it; the call returns
    noWork and has emptied the slot, with no [done()]. *)
Lemma failed_reserve_leaves_slot_written :
  (data_at "/queue/consumers/consumer-0000000000/item" w_ready = Some "" ∧
   (run_with
      [id; id; id; rewrite_in_place "/queue/items/item-0000000000" "job-x"]
      2 (reserve 1 consumer0 false) w_ready).1.1
     = Raised BadVersionException ∧
   data_at "/queue/consumers/consumer-0000000000/item"
     (run_with
        [id; id; id; rewrite_in_place "/queue/items/item-0000000000" "job-x"]
        2 (reserve 1 consumer0 false) w_ready).1.2
     = Some "job-a") ∧
  (data_at "/queue/consumers/consumer-0000000000/item" w_hold = Some "job-a" ∧
   (run_with [id; taken_by_another "/queue/items/item-0000000001"]
      2 (reserve 2 consumer0 false) w_hold).1.1
     = Returned None ∧
   data_at "/queue/consumers/consumer-0000000000/item"
     (run_with [id; taken_by_another "/queue/items/item-0000000001"]
        2 (reserve 2 consumer0 false) w_hold).1.2
     = Some "").
Proof. repeat split; by vm_compute. Qed.

(** ** C2: consumers racing for one item *)

Lemma won_advance (src dest : string) (a : ascii) (value : string) (st : stat) :
  advance (_move src dest) [inr (RData (String a value) st); inr RUnit; inr RUnit]
  = Ret (Some (String a value)).
Proof. reflexivity. Qed.

Lemma cleared_advance (src dest : string) (a : ascii) (value : string)
    (st : stat) :
  advance (_move src dest)
    [inr (RData (String a value) st); inr RUnit; inl NoNodeException; inr RUnit]
  = Ret None ∧
  advance (_move src dest) [inl NoNodeException; inr RUnit] = Ret None.
Proof. split; reflexivity. Qed.

(** Client [i] moves on to point [pt']; the other clients' slots and points
    stay as they are. *)
Lemma race_update (src value : string) (st : stat)
    (clients : list (nat * string)) (w w' : world) (ts : pool (option string))
    (winner winner' : option nat) (i sid : nat) (dest : string)
    (pt' : move_point) :
  length ts = length clients →
  clients !! i = Some (sid, dest) →
  (∀ k sid' dest',
     clients !! k = Some (sid', dest') →
     ∃ pt, ts !! k = Some (sid', point_prog src dest' value st pt) ∧
           data_at dest' w = Some (slot_at value pt) ∧ allowed winner k pt) →
  match winner' with
  | None =>
      nodes w' !! src = Some {| data := value; zstat := st |} ∧
      children (nodes w') src = []
  | Some j => nodes w' !! src = None ∧ is_Some (clients !! j)
  end →
  data_at dest w' = Some (slot_at value pt') →
  allowed winner' i pt' →
  (∀ k sid' dest', clients !! k = Some (sid', dest') → k ≠ i →
                   data_at dest' w' = data_at dest' w) →
  (∀ k pt, k ≠ i → allowed winner k pt → allowed winner' k pt) →
  race_inv src value st clients
    (w', <[i := (sid, point_prog src dest value st pt')]> ts).
Proof.
  intros Hlen Hci Hthreads Hworld Hslot Hallow Hslots Hallows.
  exists winner'. cbn [fst snd].
  split; [by rewrite length_insert|]. split; [done|].
  intros k sid' dest' Hk. destruct (decide (k = i)) as [->|Hki].
  - rewrite Hci in Hk. injection Hk as <- <-.
    exists pt'. rewrite list_lookup_insert_eq; [done|].
    rewrite Hlen. by eapply lookup_lt_Some.
  - destruct (Hthreads k sid' dest' Hk) as (pt & Htk & Hs & Ha).
    exists pt. rewrite list_lookup_insert_ne by done.
    split; [done|]. split; [|by apply Hallows].
    by rewrite (Hslots k sid' dest' Hk Hki).
Qed.

Lemma race_step (src value : string) (st : stat)
    (clients : list (nat * string)) :
  value ≠ "" →
  NoDup clients.*2 →
  src ∉ clients.*2 →
  ∀ cfg i,
    race_inv src value st clients cfg →
    race_inv src value st clients (pool_step cfg (Run i)).
Proof.
  intros Hvalue Hnd Hsrc [w ts] i (winner & Hlen & Hworld & Hthreads).
  cbn in Hlen, Hworld, Hthreads.
  destruct (clients !! i) as [[sid dest]|] eqn:Hci.
  2:{ (* no such client *)
    cbn [pool_step fst snd].
    rewrite (lookup_ge_None_2 ts i).
    - by exists winner.
    - rewrite Hlen. by apply lookup_ge_None_1. }
  destruct (Hthreads i sid dest Hci) as (pt & Hti & Hslot & Hallow).
  assert (Hdest : src ≠ dest).
  { intros ->. apply Hsrc. apply list_elem_of_fmap. exists (sid, dest).
    split; [done|]. by eapply list_elem_of_lookup_2. }
  assert (Hother : ∀ k sid' dest', clients !! k = Some (sid', dest') →
                                   k ≠ i → dest ≠ dest').
  { intros k sid' dest' Hk Hki ->. apply Hki.
    apply (NoDup_lookup _ k i dest' Hnd); rewrite list_lookup_fmap.
    - by rewrite Hk.
    - by rewrite Hci. }
  destruct value as [|a value]; [done|].
  cbn [pool_step fst snd]. rewrite Hti.
  destruct pt; cbn [point_prog slot_at] in *.
  - (* Fresh: the read *)
    unfold _move. cbn [bind try_except zk_get].
    unfold exec, store_get.
    destruct winner as [j|]; destruct Hworld as [Hw1 Hw2]; rewrite Hw1;
      cbn beta iota zeta.
    + apply (race_update src (String a value) st clients w w ts (Some j) (Some j) i sid dest LostRead);
        try done.
      unfold allowed in *. by destruct (decide (i = j)).
    + apply (race_update src (String a value) st clients w w ts None None i sid dest Read); try done.
      right. by left.
  - (* Read: the write to the slot *)
    cbn. rewrite exec_set_any.
    destruct (data_at_Some _ _ _ Hslot) as (nd & Hnd' & _). rewrite Hnd'.
    apply (race_update src (String a value) st clients w _ ts winner winner i sid dest Written);
      try done.
    + destruct winner as [j|]; destruct Hworld as [Hw1 Hw2]; cbn.
      * by rewrite lookup_insert_ne by done.
      * rewrite lookup_insert_ne by done. split; [done|].
        by apply (children_insert_nil _ _ _ _ _ Hnd').
    + unfold data_at. cbn. by rewrite lookup_insert_eq.
    + unfold allowed in *. destruct winner as [j|]; [|auto].
      by destruct (decide (i = j)).
    + intros k sid' dest' Hk Hki. apply data_at_insert_ne.
      by apply (Hother k sid' dest').
  - (* Written: the conditional delete *)
    cbn. unfold exec, store_delete.
    destruct winner as [j|]; destruct Hworld as [Hw1 Hw2]; rewrite Hw1.
    + apply (race_update src (String a value) st clients w w ts (Some j) (Some j) i sid dest LostDelete);
        try done.
      unfold allowed in *. by destruct (decide (i = j)).
    + unfold version_ok. cbn [zstat]. rewrite Z.eqb_refl, orb_true_r, Hw2.
      apply (race_update src (String a value) st clients w _ ts None (Some i) i sid dest Won);
        try done.
      * cbn. rewrite lookup_delete_eq. split; [done|]. by rewrite Hci.
      * by rewrite data_at_delete_ne.
      * unfold allowed. by rewrite decide_True.
      * intros k sid' dest' Hk Hki. apply data_at_delete_ne.
        intros ->. apply Hsrc. apply list_elem_of_fmap. exists (sid', dest').
        split; [done|]. by eapply list_elem_of_lookup_2.
      * intros k pt Hki Hpt. unfold allowed in *.
        rewrite decide_False by done. by destruct Hpt as [->|[->| ->]].
  - (* Won: the move has ended *)
    by exists winner.
  - (* LostRead: the slot is emptied *)
    cbn. rewrite exec_set_any.
    destruct (data_at_Some _ _ _ Hslot) as (nd & Hnd' & _). rewrite Hnd'.
    destruct winner as [j|]; [|by destruct Hallow as [|[|]]].
    destruct Hworld as [Hw1 Hw2].
    apply (race_update src (String a value) st clients w _ ts (Some j) (Some j) i sid dest Cleared);
      try done.
    + cbn. by rewrite lookup_insert_ne by done.
    + unfold data_at. cbn. by rewrite lookup_insert_eq.
    + unfold allowed in *. by destruct (decide (i = j)).
    + intros k sid' dest' Hk Hki. apply data_at_insert_ne.
      by apply (Hother k sid' dest').
  - (* LostDelete: the slot is emptied *)
    cbn. rewrite exec_set_any.
    destruct (data_at_Some _ _ _ Hslot) as (nd & Hnd' & _). rewrite Hnd'.
    destruct winner as [j|]; [|by destruct Hallow as [|[|]]].
    destruct Hworld as [Hw1 Hw2].
    apply (race_update src (String a value) st clients w _ ts (Some j) (Some j) i sid dest Cleared);
      try done.
    + cbn. by rewrite lookup_insert_ne by done.
    + unfold data_at. cbn. by rewrite lookup_insert_eq.
    + unfold allowed in *. by destruct (decide (i = j)).
    + intros k sid' dest' Hk Hki. apply data_at_insert_ne.
      by apply (Hother k sid' dest').
  - (* Cleared: the move has ended *)
    by exists winner.
Qed.

Lemma race_init (src value : string) (st : stat)
    (clients : list (nat * string)) (w0 : world) :
  nodes w0 !! src = Some {| data := value; zstat := st |} →
  children (nodes w0) src = [] →
  (∀ dest, dest ∈ clients.*2 → data_at dest w0 = Some "") →
  race_inv src value st clients (w0, movers src clients).
Proof.
  intros Hsrc Hleaf Hslots. exists None. cbn [fst snd].
  split; [unfold movers; by rewrite length_fmap|]. split; [done|].
  intros i sid dest Hi. exists Fresh. split; [|split].
  - unfold movers. by rewrite list_lookup_fmap, Hi.
  - apply Hslots. apply list_elem_of_fmap. exists (sid, dest).
    split; [done|]. by eapply list_elem_of_lookup_2.
  - by left.
Qed.

Lemma race_others (src value : string) (st : stat)
    (clients : list (nat * string)) (f : world → world) :
  harmless src clients.*2 f →
  ∀ cfg,
    race_inv src value st clients cfg →
    race_inv src value st clients (pool_step cfg (Others f)).
Proof.
  intros (Hfsrc & Hfslots & Hfleaf) [w ts] (winner & Hlen & Hworld & Hthreads).
  cbn [fst snd] in *. exists winner. cbn [pool_step fst snd].
  split; [done|]. split.
  - destruct winner as [j|]; destruct Hworld as [Hw1 Hw2].
    + by rewrite Hfsrc.
    + rewrite Hfsrc. split; [done|]. by apply Hfleaf.
  - intros i sid dest Hi.
    destruct (Hthreads i sid dest Hi) as (pt & Hti & Hslot & Hallow).
    exists pt. split; [done|]. split; [|done].
    unfold data_at. rewrite Hfslots; [done|].
    apply list_elem_of_fmap. exists (sid, dest).
    split; [done|]. by eapply list_elem_of_lookup_2.
Qed.

Lemma race_run (src value : string) (st : stat)
    (clients : list (nat * string)) (sched : list step) :
  value ≠ "" →
  NoDup clients.*2 →
  src ∉ clients.*2 →
  Forall (others_harmless src clients.*2) sched →
  ∀ cfg,
    race_inv src value st clients cfg →
    race_inv src value st clients (pool_run sched cfg).
Proof.
  intros Hvalue Hnd Hsrc Hsched. unfold pool_run.
  induction Hsched as [|s sched Hs Hsched IH]; intros cfg Hinv; [done|].
  cbn [foldl]. apply IH. destruct s as [i|f].
  - by apply race_step.
  - by apply race_others.
Qed.

Lemma point_prog_ret (src dest value : string) (st : stat) (pt : move_point)
    (r : option string) :
  value ≠ "" →
  point_prog src dest value st pt = Ret r →
  (pt = Won ∧ r = Some value) ∨ (pt = Cleared ∧ r = None).
Proof.
  intros Hvalue. destruct value as [|a value]; [done|].
  destruct pt; cbn; try discriminate.
  - intros [= <-]. by left.
  - intros [= <-]. by right.
Qed.

Lemma allowed_won (winner : option nat) (i : nat) :
  allowed winner i Won → winner = Some i.
Proof.
  unfold allowed. destruct winner as [j|].
  - by destruct (decide (i = j)) as [->|].
  - by intros [|[|]].
Qed.

(** C2, as amended. Consumers, each with its own empty slot, race to move one
    item node that holds a payload; their calls interleave in any order, and
    with anything that other clients do to the rest of the store.
    At every instant: the payload is not lost, it is in the item node or in
    the slot of a consumer whose move has returned it; at most one move
    returns a payload, and it is this one; a move that has returned without
    the payload has left its slot empty; and once every move has ended, the
    item node is gone and the payload is in the winner's slot and in no other.
    (While moves are under way the payload may be in the item node and in
    several slots together.) *)
Theorem one_item_race (src value : string) (st : stat)
    (clients : list (nat * string)) (sched : list step) (w0 : world) :
  value ≠ "" →
  NoDup clients.*2 →
  src ∉ clients.*2 →
  Forall (others_harmless src clients.*2) sched →
  nodes w0 !! src = Some {| data := value; zstat := st |} →
  children (nodes w0) src = [] →
  (∀ dest, dest ∈ clients.*2 → data_at dest w0 = Some "") →
  let cfg := pool_run sched (w0, movers src clients) in
  (data_at src cfg.1 = Some value ∨
   ∃ i sid dest,
     clients !! i = Some (sid, dest) ∧
     cfg.2 !! i = Some (sid, Ret (Some value)) ∧
     data_at dest cfg.1 = Some value) ∧
  (∀ i j sid sid' v v',
     cfg.2 !! i = Some (sid, Ret (Some v)) →
     cfg.2 !! j = Some (sid', Ret (Some v')) →
     i = j ∧ v = value) ∧
  (∀ i sid dest,
     clients !! i = Some (sid, dest) →
     cfg.2 !! i = Some (sid, Ret None) →
     data_at dest cfg.1 = Some "") ∧
  ((∀ i sid t, cfg.2 !! i = Some (sid, t) → ∃ v, t = Ret v) →
   clients ≠ [] →
   nodes cfg.1 !! src = None ∧
   ∃ i sid dest,
     clients !! i = Some (sid, dest) ∧
     cfg.2 !! i = Some (sid, Ret (Some value)) ∧
     ∀ j sid' dest',
       clients !! j = Some (sid', dest') →
       data_at dest' cfg.1 = Some (if decide (j = i) then value else "")).
Proof.
  intros Hvalue Hnd Hsrc Hsched Hthere Hleaf Hslots cfg.
  assert (Hinv : race_inv src value st clients cfg).
  { apply race_run; [done|done|done|done|]. by apply race_init. }
  destruct cfg as [w ts]. destruct Hinv as (winner & Hlen & Hworld & Hthreads).
  cbn [fst snd] in *.
  assert (Hret : ∀ i sid r, ts !! i = Some (sid, Ret r) →
            ∃ dest, clients !! i = Some (sid, dest) ∧
              ((r = Some value ∧ winner = Some i ∧ data_at dest w = Some value) ∨
               (r = None ∧ data_at dest w = Some ""))).
  { intros i sid r Hi.
    destruct (clients !! i) as [[sid' dest]|] eqn:Hci.
    2:{ apply lookup_ge_None_1 in Hci. apply lookup_lt_Some in Hi. lia. }
    destruct (Hthreads i sid' dest Hci) as (pt & Hti & Hslot & Hallow).
    rewrite Hti in Hi. injection Hi as -> Hprog.
    exists dest. split; [done|].
    destruct (point_prog_ret _ _ _ _ _ _ Hvalue Hprog) as [[-> ->]|[-> ->]].
    - left. split; [done|]. split; [by apply allowed_won|done].
    - by right. }
  split; [|split; [|split]].
  - destruct winner as [j|].
    + right. destruct Hworld as [_ [[sid dest] Hj]].
      destruct (Hthreads j sid dest Hj) as (pt & Htj & Hslot & Hallow).
      unfold allowed in Hallow. rewrite decide_True in Hallow by done.
      subst pt. by exists j, sid, dest.
    + left. destruct Hworld as [Hw _]. unfold data_at. by rewrite Hw.
  - intros i j sid sid' v v' Hi Hj.
    destruct (Hret i sid _ Hi) as (dest & _ & [(Hv & Hwi & _)|[? _]]); [|done].
    destruct (Hret j sid' _ Hj) as (dest' & _ & [(Hv' & Hwj & _)|[? _]]); [|done].
    split; congruence.
  - intros i sid dest Hci Hi.
    destruct (Hret i sid _ Hi) as (dest' & Hci' & [(? & _)|[_ Hs]]); [done|].
    congruence.
  - intros Hended Hne.
    destruct winner as [j|].
    + destruct Hworld as [Hgone [[sid dest] Hj]]. split; [done|].
      destruct (Hthreads j sid dest Hj) as (pt & Htj & Hslot & Hallow).
      unfold allowed in Hallow. rewrite decide_True in Hallow by done.
      subst pt. exists j, sid, dest. split; [done|]. split; [done|].
      intros k sid' dest' Hk.
      destruct (Hthreads k sid' dest' Hk) as (pt & Htk & Hslotk & Hallowk).
      destruct (Hended k sid' _ Htk) as [r Hr].
      destruct (decide (k = j)) as [->|Hkj].
      * rewrite Hj in Hk. by injection Hk as <- <-.
      * destruct (point_prog_ret _ _ _ _ _ _ Hvalue Hr) as [[-> ->]|[-> ->]];
          [|done].
        apply allowed_won in Hallowk. congruence.
    + (* nobody has won: then no move has ended *)
      destruct clients as [|[sid dest] clients]; [done|].
      destruct (Hthreads 0 sid dest eq_refl) as (pt & Ht0 & _ & Hallow).
      destruct (Hended 0 sid _ Ht0) as [r Hr].
      destruct (point_prog_ret _ _ _ _ _ _ Hvalue Hr) as [[-> ->]|[-> ->]];
        by destruct Hallow as [|[|]].
Qed.

Lemma one_item_race_witness :
  let cfg := pool_run [Run 0; Run 1; Run 0; Others (tick 1); Run 1; Run 0; Run 1; Run 1]
               (w_two, movers "/queue/items/item-0000000000" two_movers) in
  (data_at "/queue/items/item-0000000000" cfg.1 = Some "job-a" ∨
   ∃ i sid dest,
     two_movers !! i = Some (sid, dest) ∧
     cfg.2 !! i = Some (sid, Ret (Some "job-a")) ∧
     data_at dest cfg.1 = Some "job-a") ∧
  (∀ i j sid sid' v v',
     cfg.2 !! i = Some (sid, Ret (Some v)) →
     cfg.2 !! j = Some (sid', Ret (Some v')) →
     i = j ∧ v = "job-a") ∧
  (∀ i sid dest,
     two_movers !! i = Some (sid, dest) →
     cfg.2 !! i = Some (sid, Ret None) →
     data_at dest cfg.1 = Some "") ∧
  ((∀ i sid t, cfg.2 !! i = Some (sid, t) → ∃ v, t = Ret v) →
   two_movers ≠ [] →
   nodes cfg.1 !! "/queue/items/item-0000000000" = None ∧
   ∃ i sid dest,
     two_movers !! i = Some (sid, dest) ∧
     cfg.2 !! i = Some (sid, Ret (Some "job-a")) ∧
     ∀ j sid' dest',
       two_movers !! j = Some (sid', dest') →
       data_at dest' cfg.1 = Some (if decide (j = i) then "job-a" else "")).
Proof.
  apply (one_item_race "/queue/items/item-0000000000" "job-a"
           {| version := 1; cversion := 0; ctime := 0; ephemeralOwner := None |}
           two_movers
           [Run 0; Run 1; Run 0; Others (tick 1); Run 1; Run 0; Run 1; Run 1]
           w_two).
  - done.
  - apply (bool_decide_unpack _). by vm_compute.
  - apply (bool_decide_unpack _). by vm_compute.
  - by repeat constructor.
  - vm_compute. reflexivity.
  - vm_compute. reflexivity.
  - intros dest Hdest. vm_compute in Hdest.
    apply elem_of_cons in Hdest as [->|Hdest]; [by vm_compute|].
    apply elem_of_cons in Hdest as [->|Hdest]; [by vm_compute|].
    by apply elem_of_nil in Hdest.
Defined.

(** In that execution the first consumer's move returns the payload and the
    second one's ends without it. *)
Example race_ends :
  (pool_run [Run 0; Run 1; Run 0; Others (tick 1); Run 1; Run 0; Run 1; Run 1]
     (w_two, movers "/queue/items/item-0000000000" two_movers)).2
  = [(2, Ret (Some "job-a")); (3, Ret None)].
Proof. vm_compute. reflexivity. Qed.

(** C2, counterexample. Two consumers call [reserve()]; each lists, reads the
    item node and writes the payload to its slot before either deletes the
    node. At that instant the payload is in the item node and in both
    slots. *)
Lemma payload_in_two_slots_at_once :
  data_at "/queue/items/item-0000000000"
    (pool_run [Run 0; Run 1; Run 0; Run 1; Run 0; Run 1]
       (w_two, [(2, reserve 1 consumer0 false);
                (3, reserve 1 consumer1 false)])).1 = Some "job-a" ∧
  data_at "/queue/consumers/consumer-0000000000/item"
    (pool_run [Run 0; Run 1; Run 0; Run 1; Run 0; Run 1]
       (w_two, [(2, reserve 1 consumer0 false);
                (3, reserve 1 consumer1 false)])).1 = Some "job-a" ∧
  data_at "/queue/consumers/consumer-0000000001/item"
    (pool_run [Run 0; Run 1; Run 0; Run 1; Run 0; Run 1]
       (w_two, [(2, reserve 1 consumer0 false);
                (3, reserve 1 consumer1 false)])).1 = Some "job-a".
Proof. repeat split; by vm_compute. Qed.

(** ** The rest of the queue's code *)

(** *** Paths and listings, continued *)

Lemma str_app_assoc (a b c : string) : (a +:+ b) +:+ c = a +:+ b +:+ c.
Proof.
  induction a as [|x a IH]; [done|].
  change (String x (a +:+ b) +:+ c = String x (a +:+ b +:+ c)).
  change (String x ((a +:+ b) +:+ c) = String x (a +:+ b +:+ c)).
  by rewrite IH.
Qed.

Lemma has_slash_app (a b : string) :
  has_slash (a +:+ b) = has_slash a || has_slash b.
Proof.
  induction a as [|x a IH]; [done|].
  change (String x a +:+ b) with (String x (a +:+ b)). simpl.
  case_decide; [done|]. apply IH.
Qed.

Lemma pretty_N_char_not_slash (y : N) : pretty_N_char y ≠ "/"%char.
Proof. unfold pretty_N_char. by repeat case_match. Qed.

Lemma has_slash_pretty_N_go (x : N) :
  ∀ s, has_slash s = false → has_slash (pretty_N_go x s) = false.
Proof.
  induction (N.lt_wf_0 x) as [x _ IH]; intros s Hs.
  assert (x = 0 ∨ 0 < x)%N as [->|Hx] by lia.
  - by rewrite pretty_N_go_0.
  - rewrite pretty_N_go_step by done. apply IH.
    + by apply N.div_lt.
    + simpl. case_decide as Hc; [|done].
      by destruct (pretty_N_char_not_slash (x `mod` 10)%N).
Qed.

Lemma has_slash_zeros (k : nat) :
  has_slash (String.string_of_list_ascii (replicate k "0"%char)) = false.
Proof. induction k as [|k IH]; [done|]. exact IH. Qed.

Lemma has_slash_pad10 (n : nat) : has_slash (pad10 n) = false.
Proof.
  unfold pad10. rewrite has_slash_app, has_slash_zeros. simpl.
  unfold pretty, pretty_nat, pretty, pretty_N.
  case_decide; [done|]. by apply has_slash_pretty_N_go.
Qed.

Lemma strip_prefix_app (p r : string) : strip_prefix p (p +:+ r) = Some r.
Proof. by apply strip_prefix_Some. Qed.

Lemma child_name_app (p c : string) :
  has_slash c = false → c ≠ "" →
  child_name p (child_prefix p +:+ c) = Some c.
Proof.
  intros Hc Hne. unfold child_name. rewrite strip_prefix_app, Hc. simpl.
  by rewrite bool_decide_eq_false_2.
Qed.

Lemma dirname_app (p c : string) :
  has_slash c = false → dirname (p +:+ "/" +:+ c) = p.
Proof.
  intros Hc. induction p as [|a p IH].
  - change ("" +:+ "/" +:+ c) with (String "/" c). simpl. by rewrite Hc.
  - change (String a p +:+ "/" +:+ c) with (String a (p +:+ "/" +:+ c)).
    simpl. rewrite has_slash_app, IH.
    change (has_slash ("/" +:+ c)) with true.
    by rewrite orb_true_r.
Qed.

Lemma parent_of_child (p c : string) :
  p ≠ "" → has_slash c = false →
  parent_of (child_prefix p +:+ c) = p.
Proof.
  intros Hp Hc. unfold child_prefix, parent_of. case_decide as Hr.
  - subst p. change ("/" +:+ c) with ("" +:+ "/" +:+ c).
    by rewrite dirname_app.
  - rewrite str_app_assoc, dirname_app by done. by destruct p.
Qed.

Lemma elem_of_children_insert (m : gmap string znode) (p k : string)
    (n : znode) (x : string) :
  x ∈ children (<[k := n]> m) p ↔
  child_name p k = Some x ∨ x ∈ children m p.
Proof.
  rewrite !elem_of_children. split.
  - intros (k' & Hk' & Hx). destruct (decide (k = k')) as [->|Hne]; [by left|].
    right. exists k'. by rewrite lookup_insert_ne in Hk'.
  - intros [Hx|(k' & Hk' & Hx)].
    + exists k. by rewrite lookup_insert_eq.
    + exists k'. split; [|done].
      destruct (decide (k = k')) as [->|Hne];
        [by rewrite lookup_insert_eq|by rewrite lookup_insert_ne].
Qed.

Lemma elem_of_children_delete (m : gmap string znode) (p k : string)
    (x : string) :
  x ∈ children (delete k m) p ↔
  x ∈ children m p ∧ child_name p k ≠ Some x.
Proof.
  rewrite !elem_of_children. split.
  - intros (k' & Hk' & Hx). destruct (decide (k = k')) as [->|Hne].
    { rewrite lookup_delete_eq in Hk'. by destruct Hk'. }
    rewrite lookup_delete_ne in Hk' by done. split; [by eauto|].
    intros Hk. apply child_name_Some in Hk as [-> _].
    apply child_name_Some in Hx as [-> _]. done.
  - intros [(k' & Hk' & Hx) Hne]. exists k'. split; [|done].
    rewrite lookup_delete_ne; [done|]. by intros ->.
Qed.

Lemma children_insert_fresh (m : gmap string znode) (p k c : string)
    (n : znode) :
  m !! k = None → child_name p k = Some c →
  children (<[k := n]> m) p ≡ₚ c :: children m p.
Proof.
  intros Hfree Hk. apply NoDup_Permutation.
  - apply NoDup_children.
  - constructor; [|apply NoDup_children].
    intros Hc. apply children_lookup in Hc.
    apply child_name_Some in Hk as [-> _]. rewrite Hfree in Hc. by destruct Hc.
  - intros x. rewrite elem_of_children_insert, elem_of_cons.
    split; (intros [H|H]; [left|by right]); congruence.
Qed.

Lemma children_insert_same (m : gmap string znode) (p k : string) (n : znode) :
  is_Some (m !! k) ∨ child_name p k = None →
  children (<[k := n]> m) p ≡ₚ children m p.
Proof.
  intros Hk. apply NoDup_Permutation; [apply NoDup_children..|].
  intros x. rewrite elem_of_children_insert. split; [|by right].
  intros [Hx|Hx]; [|done]. destruct Hk as [Hk|Hk]; [|congruence].
  apply elem_of_children. by exists k.
Qed.

Lemma children_delete_other (m : gmap string znode) (p k : string) :
  child_name p k = None →
  children (delete k m) p ≡ₚ children m p.
Proof.
  intros Hk. apply NoDup_Permutation; [apply NoDup_children..|].
  intros x. rewrite elem_of_children_delete. split; [by intros [? _]|].
  intros Hx. split; [done|]. congruence.
Qed.

Lemma children_delete_child (m : gmap string znode) (p k c : string) :
  is_Some (m !! k) → child_name p k = Some c →
  children m p ≡ₚ c :: children (delete k m) p.
Proof.
  intros Hin Hk. apply NoDup_Permutation.
  - apply NoDup_children.
  - constructor; [|apply NoDup_children].
    rewrite elem_of_children_delete. intros [_ H]. done.
  - intros x. rewrite elem_of_cons, elem_of_children_delete. split.
    + intros Hx. destruct (decide (x = c)) as [->|Hne]; [by left|].
      right. split; [done|]. congruence.
    + intros [->|[Hx _]]; [|done]. apply elem_of_children. by exists k.
Qed.

Lemma child_name_nonempty (p k c : string) :
  child_name p k = Some c → c ≠ "".
Proof.
  unfold child_name. destruct (strip_prefix _ _) as [c'|]; [|done].
  destruct (has_slash c'); [done|]. simpl. case_bool_decide; [done|].
  by intros [= <-].
Qed.

Lemma child_path_not_root (p c : string) :
  p ≠ "" → c ≠ "" → child_prefix p +:+ c ≠ "/".
Proof.
  intros Hp Hc. unfold child_prefix. case_decide as Hr.
  - destruct c; [done|]. discriminate.
  - destruct p as [|a p]; [done|].
    rewrite str_app_assoc.
    change (String a (p +:+ "/" +:+ c) ≠ "/"). intros [= -> H].
    destruct p; discriminate.
Qed.

Lemma tree_absent_leaf (m : gmap string znode) (p : string) :
  tree m → p ≠ "" → m !! p = None → children m p = [].
Proof.
  intros Ht Hp Hfree.
  destruct (children m p) as [|c cs] eqn:Hcs; [done|].
  assert (Hc : c ∈ children m p) by (rewrite Hcs; left).
  apply elem_of_children in Hc as (k & Hk & Hc).
  pose proof (child_name_nonempty _ _ _ Hc) as Hne.
  apply child_name_Some in Hc as [-> Hc].
  pose proof (Ht _ Hk (child_path_not_root _ _ Hp Hne)) as Hpar.
  rewrite parent_of_child, Hfree in Hpar by done. by apply is_Some_None in Hpar.
Qed.

(** *** [retry_on] *)

Lemma run_with_try_except {A : Type} (env : list (world → world)) (sid : nat)
    (p : prog A) (h : exn → option (prog A)) (w : world) :
  run_with env sid (try_except p h) w =
    let '(o, w1, tr1) := run_with env sid p w in
    match o with
    | Raised e =>
        match h e with
        | Some q =>
            let '(o2, w2, tr2) := run_with (drop (length tr1) env) sid q w1 in
            (o2, w2, tr1 ++ tr2)
        | None => (Raised e, w1, tr1)
        end
    | _ => (o, w1, tr1)
    end.
Proof.
  revert env w. induction p as [a|e|c k IH|]; intros env w; simpl.
  - done.
  - rewrite drop_0. destruct (h e) as [q|]; [|done].
    by destruct (run_with env sid q w) as [[o2 w2] tr2].
  - destruct (exec sid c (interfere env w)) as [r w2].
    rewrite IH.
    destruct (run_with (tail env) sid (k r) w2) as [[o w3] tr1].
    destruct o as [a|e|]; try done.
    destruct (h e) as [q|]; [|done].
    replace (drop (length ((c, r) :: tr1)) env) with (drop (length tr1) (tail env))
      by (destruct env; simpl; by rewrite ?drop_nil).
    by destruct (run_with (drop (length tr1) (tail env)) sid q w3)
      as [[o2 w4] tr2].
  - done.
Qed.

Lemma tail_drop {A : Type} (n : nat) (l : list A) :
  tail (drop n l) = drop (S n) l.
Proof.
  revert l. induction n as [|n IH]; intros [|x l]; simpl; done.
Qed.

(** X1. [retry_on] never raises one of the exceptions it is given, whatever
    [fn], the number of rounds and the other clients do. One more round runs
    [fn] once: when that run returns, raises an exception that is not listed
    or does not end, its result is the result; when it raises a listed
    exception, [retry_on] sleeps and starts over from the world that the
    failed attempt left: nothing is undone. *)
Theorem retry_on_attempts {A : Type} (excepts : list exn) (fn : prog A)
    (env : list (world → world)) (sid fuel : nat) (w : world) :
  let first := run_with env sid fn w in
  let again :=
    run_with (drop (S (length first.2)) env) sid (retry_on excepts fn fuel)
      (interfere (drop (length first.2) env) first.1.2) in
  (∀ e, (run_with env sid (retry_on excepts fn fuel) w).1.1 = Raised e →
        e ∉ excepts) ∧
  run_with env sid (retry_on excepts fn (S fuel)) w =
    match first.1.1 with
    | Raised e =>
        if bool_decide (e ∈ excepts)
        then (again.1.1, again.1.2, first.2 ++ (Time_sleep, inr RUnit) :: again.2)
        else first
    | _ => first
    end.
Proof.
  assert (Hstep : ∀ fuel env w,
    run_with env sid (retry_on excepts fn (S fuel)) w =
    match (run_with env sid fn w).1.1 with
    | Raised e =>
        if bool_decide (e ∈ excepts)
        then ((run_with (drop (S (length (run_with env sid fn w).2)) env) sid
                 (retry_on excepts fn fuel)
                 (interfere (drop (length (run_with env sid fn w).2) env)
                    (run_with env sid fn w).1.2)).1.1,
              (run_with (drop (S (length (run_with env sid fn w).2)) env) sid
                 (retry_on excepts fn fuel)
                 (interfere (drop (length (run_with env sid fn w).2) env)
                    (run_with env sid fn w).1.2)).1.2,
              (run_with env sid fn w).2 ++ (Time_sleep, inr RUnit) ::
              (run_with (drop (S (length (run_with env sid fn w).2)) env) sid
                 (retry_on excepts fn fuel)
                 (interfere (drop (length (run_with env sid fn w).2) env)
                    (run_with env sid fn w).1.2)).2)
        else run_with env sid fn w
    | _ => run_with env sid fn w
    end).
  { clear. intros fuel env w. cbn [retry_on]. rewrite run_with_try_except.
    destruct (run_with env sid fn w) as [[o w1] tr1]. cbn [fst snd].
    destruct o as [a|e|]; try done.
    case_bool_decide; [|done].
    cbn [run_with]. rewrite exec_sleep.
    replace (tail (drop (length tr1) env)) with (drop (S (length tr1)) env)
      by (by rewrite tail_drop).
    by destruct (run_with _ sid (retry_on excepts fn fuel) _) as [[o2 w2] tr2]. }
  intros first again. split; [|apply Hstep].
  clear first again. revert env w.
  induction fuel as [|fuel IH]; intros env w e; [done|].
  rewrite Hstep.
  destruct (run_with env sid fn w) as [[o w1] tr1] eqn:Hfn. cbn [fst snd].
  destruct o as [a|e'|]; try done.
  - case_bool_decide as He.
    + cbn [fst snd]. apply IH.
    + intros [= <-]. done.
Qed.

(** *** [ensure_exists] *)

Lemma keeps_refl (w : world) : keeps w w.
Proof. intros k n Hk. by exists n. Qed.

Lemma keeps_trans (w1 w2 w3 : world) : keeps w1 w2 → keeps w2 w3 → keeps w1 w3.
Proof.
  intros H12 H23 k n Hk.
  destruct (H12 k n Hk) as (n2 & Hk2 & Hd2 & Hv2 & Ho2).
  destruct (H23 k n2 Hk2) as (n3 & Hk3 & Hd3 & Hv3 & Ho3).
  exists n3. repeat split; congruence.
Qed.

Lemma keeps_persistent (p : string) (w w' : world) :
  keeps w w' → is_Some (nodes w !! p) → persistent p w → persistent p w'.
Proof.
  intros Hk [n Hn] Hp n' Hn'.
  destruct (Hk p n Hn) as (n2 & Hn2 & _ & _ & Ho). rewrite Hn' in Hn2.
  injection Hn2 as <-. rewrite Ho. by apply Hp.
Qed.

Lemma exec_create_plain (sid : nat) (name value : string) (flags : Z)
    (w : world) (par : znode) :
  nodes w !! parent_of name = Some par →
  ephemeralOwner (zstat par) = None →
  Z.testbit flags 1 = false →
  exec sid (Create name value flags) w =
    match nodes w !! name with
    | Some _ => (inl NodeExistsException, w)
    | None =>
        (inr (RPath name),
         set_nodes w
           (<[name := fresh_node value (clock w)
                        (if Z.testbit flags 0 then Some sid else None)]>
              (<[parent_of name := bump_cversion par]> (nodes w))))
    end.
Proof.
  intros Hpar Hplain Hseq. unfold exec, store_create.
  rewrite Hpar, Hplain, Hseq. done.
Qed.

Lemma exec_create_sequence (sid : nat) (path value : string) (flags : Z)
    (w : world) (par : znode) :
  nodes w !! parent_of path = Some par →
  ephemeralOwner (zstat par) = None →
  Z.testbit flags 1 = true →
  nodes w !! (path +:+ pad10 (cversion (zstat par))) = None →
  exec sid (Create path value flags) w =
    (inr (RPath (path +:+ pad10 (cversion (zstat par)))),
     set_nodes w
       (<[path +:+ pad10 (cversion (zstat par)) :=
            fresh_node value (clock w)
              (if Z.testbit flags 0 then Some sid else None)]>
          (<[parent_of path := bump_cversion par]> (nodes w)))).
Proof.
  intros Hpar Hplain Hseq Hfree. unfold exec, store_create.
  rewrite Hpar, Hplain, Hseq, Hfree. done.
Qed.

Lemma keeps_create (w : world) (name : string) (n par : znode) :
  nodes w !! name = None →
  nodes w !! parent_of name = Some par →
  keeps w (set_nodes w (<[name := n]>
                          (<[parent_of name := bump_cversion par]> (nodes w)))).
Proof.
  intros Hfree Hpar k nk Hk. cbn.
  destruct (decide (name = k)) as [<-|Hne]; [congruence|].
  rewrite lookup_insert_ne by done.
  destruct (decide (parent_of name = k)) as [<-|Hne'].
  - rewrite lookup_insert_eq. exists (bump_cversion par).
    rewrite Hpar in Hk. injection Hk as <-. done.
  - rewrite lookup_insert_ne by done. by exists nk.
Qed.

Lemma tree_create (m : gmap string znode) (name : string) (n par par' : znode) :
  tree m → m !! parent_of name = Some par →
  tree (<[name := n]> (<[parent_of name := par']> m)).
Proof.
  intros Ht Hpar k Hk Hroot.
  assert (Hmono : ∀ q, is_Some (m !! q) →
            is_Some (<[name := n]> (<[parent_of name := par']> m) !! q)).
  { intros q Hq. rewrite !lookup_insert_is_Some'. auto. }
  rewrite !lookup_insert_is_Some' in Hk.
  destruct Hk as [<-|[<-|Hk]].
  - apply Hmono. by rewrite Hpar.
  - apply Hmono, Ht; [by rewrite Hpar|done].
  - by apply Hmono, Ht.
Qed.

(** [ensure_exists] alone, under a parent that is there. *)
Lemma ensure_exists_alone (sid : nat) (name value : string) (w : world)
    (par : znode) :
  nodes w !! parent_of name = Some par →
  ephemeralOwner (zstat par) = None →
  ∃ w' r,
    run sid (ensure_exists name value) w
      = (Returned (), w', [(Create name value 0, r)]) ∧
    keeps w w' ∧ clock w' = clock w ∧
    (∀ k, is_Some (nodes w' !! k) → k = name ∨ is_Some (nodes w !! k)) ∧
    (∀ k, k ≠ name → k ≠ parent_of name → nodes w' !! k = nodes w !! k) ∧
    (tree (nodes w) → tree (nodes w')) ∧
    match nodes w !! name with
    | Some _ => w' = w
    | None => nodes w' !! name = Some (fresh_node value (clock w) None)
    end.
Proof.
  intros Hpar Hplain. unfold run, ensure_exists, zk_create.
  cbn [bind try_except run_with interfere].
  rewrite (exec_create_plain sid name value 0 w par) by done.
  destruct (nodes w !! name) as [n|] eqn:Hn; cbn.
  - eexists _, _. split; [done|]. split; [apply keeps_refl|].
    split; [done|]. split; [by right|done].
  - eexists _, _. split; [done|]. split; [by apply keeps_create|].
    split; [done|]. split; [|split; [|split]].
    + intros k. cbn. destruct (decide (name = k)) as [<-|Hne]; [by left|].
      rewrite lookup_insert_ne by done.
      destruct (decide (parent_of name = k)) as [<-|Hne']; [by right; eauto|].
      rewrite lookup_insert_ne by done. by right.
    + intros k Hk1 Hk2. cbn. by rewrite !lookup_insert_ne.
    + intros Ht. by apply (tree_create _ _ _ par).
    + cbn. by rewrite lookup_insert_eq.
Qed.

(** X2. When [ensure_exists] returns, the node is there. A node that was
    there already is left as it was: its data are not replaced by the
    argument. Calling [ensure_exists] again, with any data and from any
    session, returns and changes nothing. *)
Theorem ensure_exists_idempotent (env : list (world → world)) (sid : nat)
    (name value : string) (w w' : world) (tr : trace) :
  run_with env sid (ensure_exists name value) w = (Returned (), w', tr) →
  is_Some (nodes w' !! name) ∧
  (is_Some (nodes (interfere env w) !! name) → w' = interfere env w) ∧
  ∀ sid' value',
    run sid' (ensure_exists name value') w'
    = (Returned (), w', [(Create name value' 0, inl NodeExistsException)]).
Proof.
  unfold run, ensure_exists, zk_create.
  cbn [bind try_except run_with]. unfold exec at 1, store_create.
  change (Z.testbit 0 1) with false. change (Z.testbit 0 0) with false.
  cbn [interfere].
  destruct (nodes (interfere env w) !! parent_of name) as [par|] eqn:Hpar;
    [|done].
  destruct (ephemeralOwner (zstat par)) eqn:Hplain; [done|].
  destruct (nodes (interfere env w) !! name) as [n|] eqn:Hn; cbn.
  - intros [= <- <-]. split; [by eauto|]. split; [done|].
    intros sid' value'.
    rewrite (exec_create_plain sid' name value' 0 _ par) by done.
    by rewrite Hn.
  - intros [= <- <-]. cbn. rewrite lookup_insert_eq.
    split; [by eauto|]. split; [by intros [? [=]]|].
    intros sid' value'.
    assert (name ≠ parent_of name) as Hne by congruence.
    rewrite (exec_create_plain sid' name value' 0 _ (bump_cversion par));
      [|cbn; by rewrite lookup_insert_ne, lookup_insert_eq|done|done].
    cbn. by rewrite lookup_insert_eq.
Qed.

Lemma ensure_exists_idempotent_witness :
  is_Some (nodes (after 1 (ensure_exists "/queue" "") empty_world) !! "/queue") ∧
  (is_Some (nodes (interfere [] empty_world) !! "/queue") →
   after 1 (ensure_exists "/queue" "") empty_world = interfere [] empty_world) ∧
  ∀ sid' value',
    run sid' (ensure_exists "/queue" value')
      (after 1 (ensure_exists "/queue" "") empty_world)
    = (Returned (), after 1 (ensure_exists "/queue" "") empty_world,
       [(Create "/queue" value' 0, inl NodeExistsException)]).
Proof.
  apply (ensure_exists_idempotent [] 1 "/queue" "" empty_world _
           (run 1 (ensure_exists "/queue" "") empty_world).2).
  vm_compute. reflexivity.
Defined.

(** *** [Producer.__init__] *)

Lemma extends_by_trans (l1 l2 : list string) (w1 w2 w3 : world) :
  extends_by l1 w1 w2 → extends_by l2 w2 w3 → extends_by (l1 ++ l2) w1 w3.
Proof.
  intros (Hk1 & Hc1 & Hv1 & Hg1 & Hf1 & Hp1 & Ht1)
         (Hk2 & Hc2 & Hv2 & Hg2 & Hf2 & Hp2 & Ht2).
  split; [by eapply keeps_trans|]. split; [congruence|]. split; [congruence|].
  split; [|split; [|split]].
  - intros k Hk. rewrite elem_of_app.
    destruct (Hg2 k Hk) as [?|Hk']; [by auto|].
    destruct (Hg1 k Hk') as [?|?]; by auto.
  - intros k Hk Hpar. rewrite elem_of_app in Hk.
    rewrite Hf2, Hf1; [done|by auto|..|by auto|].
    + intros n Hn. apply Hpar. rewrite elem_of_app. by left.
    + intros n Hn. apply Hpar. rewrite elem_of_app. by right.
  - by auto.
  - by auto.
Qed.

Lemma ensure_exists_extends (sid : nat) (name value : string) (w : world)
    (par : znode) :
  nodes w !! parent_of name = Some par →
  ephemeralOwner (zstat par) = None →
  ∃ w' r,
    run sid (ensure_exists name value) w
      = (Returned (), w', [(Create name value 0, r)]) ∧
    extends_by [name] w w' ∧
    match nodes w !! name with
    | Some _ => w' = w
    | None => nodes w' !! name = Some (fresh_node value (clock w) None)
    end.
Proof.
  intros Hpar Hplain. unfold run, ensure_exists, zk_create.
  cbn [bind try_except run_with interfere].
  rewrite (exec_create_plain sid name value 0 w par) by done.
  destruct (nodes w !! name) as [n|] eqn:Hn; cbn.
  - eexists _, _. split; [done|]. split; [|done].
    split; [apply keeps_refl|]. repeat split; by auto.
  - eexists _, _. split; [done|]. split; [|by cbn; rewrite lookup_insert_eq].
    split; [by apply keeps_create|]. split; [done|]. split; [done|].
    split; [|split; [|split]].
    + intros k. cbn. rewrite list_elem_of_singleton.
      destruct (decide (name = k)) as [<-|Hne]; [by left|].
      rewrite lookup_insert_ne by done.
      destruct (decide (parent_of name = k)) as [<-|Hne']; [by right; eauto|].
      rewrite lookup_insert_ne by done. by right.
    + intros k Hk1 Hk2. rewrite list_elem_of_singleton in Hk1. cbn.
      rewrite !lookup_insert_ne; [done| |by apply not_eq_sym].
      apply not_eq_sym, Hk2. by apply list_elem_of_singleton.
    + intros p Hp n'. cbn.
      destruct (decide (name = p)) as [<-|Hne].
      { rewrite lookup_insert_eq. by intros [= <-]. }
      rewrite lookup_insert_ne by done.
      destruct (decide (parent_of name = p)) as [<-|Hne'].
      { rewrite lookup_insert_eq. by intros [= <-]. }
      rewrite lookup_insert_ne by done. apply Hp.
    + intros Ht. by apply (tree_create _ _ _ par).
Qed.

Lemma ensure_exists_again (sid : nat) (name value : string) (w : world)
    (par : znode) :
  nodes w !! parent_of name = Some par →
  ephemeralOwner (zstat par) = None →
  is_Some (nodes w !! name) →
  run sid (ensure_exists name value) w
  = (Returned (), w, [(Create name value 0, inl NodeExistsException)]).
Proof.
  intros Hpar Hplain [n Hn]. unfold run, ensure_exists, zk_create.
  cbn [bind try_except run_with interfere].
  rewrite (exec_create_plain sid name value 0 w par) by done.
  by rewrite Hn.
Qed.

(** After [ensure_exists name] the node is there, and plain if it was. *)
Lemma extends_by_node (name value : string) (w w' : world) :
  extends_by [name] w w' →
  match nodes w !! name with
  | Some _ => w' = w
  | None => nodes w' !! name = Some (fresh_node value (clock w) None)
  end →
  persistent name w →
  ∃ n, nodes w' !! name = Some n ∧ ephemeralOwner (zstat n) = None.
Proof.
  intros _ Hn Hp. destruct (nodes w !! name) as [n|] eqn:Hw.
  - subst w'. exists n. split; [done|]. by apply Hp.
  - eexists. split; [done|]. done.
Qed.

(** X3. On a store that has its root, and where /queue, if it is there, is
    not ephemeral, [Producer.__init__] returns; /queue and /queue/items are
    there afterwards; the store was only extended by these two; and a second
    run finds both and changes nothing. *)
Theorem Producer_init_sets_up (sid : nat) (w : world) (root : znode) :
  nodes w !! "/" = Some root →
  ephemeralOwner (zstat root) = None →
  persistent "/queue" w →
  ∃ w' tr,
    run sid Producer_init w = (Returned (), w', tr) ∧
    is_Some (nodes w' !! "/queue") ∧
    is_Some (nodes w' !! "/queue/items") ∧
    extends_by ["/queue"; "/queue/items"] w w' ∧
    ∀ sid',
      run sid' Producer_init w'
      = (Returned (), w',
         [(Create "/queue" "" 0, inl NodeExistsException);
          (Create "/queue/items" "" 0, inl NodeExistsException)]).
Proof.
  intros Hroot Hplain Hq. unfold Producer_init.
  destruct (ensure_exists_extends sid "/queue" "" w root Hroot Hplain)
    as (w1 & r1 & Hrun1 & Hext1 & Hn1).
  destruct (extends_by_node _ _ _ _ Hext1 Hn1 Hq) as (q & Hq1 & Hqplain).
  destruct (ensure_exists_extends sid "/queue/items" "" w1 q Hq1 Hqplain)
    as (w2 & r2 & Hrun2 & Hext2 & Hn2).
  rewrite run_bind, Hrun1. cbn beta iota zeta. rewrite Hrun2.
  eexists _, _. split; [reflexivity|].
  pose proof (extends_by_trans _ _ _ _ _ Hext1 Hext2) as Hext.
  assert (Hq2 : ∃ q', nodes w2 !! "/queue" = Some q' ∧
                      ephemeralOwner (zstat q') = None).
  { destruct Hext2 as (Hk & _). destruct (Hk _ _ Hq1) as (q' & ? & _ & _ & Ho).
    exists q'. split; [done|]. congruence. }
  destruct Hq2 as (q' & Hq2 & Hq2plain).
  assert (Hroot2 : ∃ r', nodes w2 !! "/" = Some r' ∧
                         ephemeralOwner (zstat r') = None).
  { destruct Hext as (Hk & _). destruct (Hk _ _ Hroot) as (r' & ? & _ & _ & Ho).
    exists r'. split; [done|]. congruence. }
  destruct Hroot2 as (r' & Hroot2 & Hr2plain).
  assert (Hitems : is_Some (nodes w2 !! "/queue/items")).
  { destruct (nodes w1 !! "/queue/items") eqn:Hi; [by subst; eauto|by eauto]. }
  split; [by eauto|]. split; [done|]. split; [done|].
  intros sid'. rewrite run_bind.
  rewrite (ensure_exists_again sid' "/queue" "" w2 r') by eauto.
  cbn beta iota zeta.
  by rewrite (ensure_exists_again sid' "/queue/items" "" w2 q') by eauto.
Qed.

Lemma Producer_init_sets_up_witness :
  ∃ w' tr,
    run 1 Producer_init empty_world = (Returned (), w', tr) ∧
    is_Some (nodes w' !! "/queue") ∧
    is_Some (nodes w' !! "/queue/items") ∧
    extends_by ["/queue"; "/queue/items"] empty_world w' ∧
    ∀ sid',
      run sid' Producer_init w'
      = (Returned (), w',
         [(Create "/queue" "" 0, inl NodeExistsException);
          (Create "/queue/items" "" 0, inl NodeExistsException)]).
Proof.
  apply (Producer_init_sets_up 1 empty_world root_node).
  - reflexivity.
  - reflexivity.
  - intros n Hn. vm_compute in Hn. discriminate Hn.
Defined.

(** *** [Consumer.__init__] and [_register] *)

Lemma parent_of_sub (p c : string) :
  p ≠ "" → has_slash c = false → parent_of (p +:+ String "/" c) = p.
Proof.
  intros Hp Hc. unfold parent_of.
  change (p +:+ String "/" c) with (p +:+ "/" +:+ c).
  rewrite dirname_app by done. by destruct p.
Qed.

Lemma str_app_length (a b : string) :
  String.length (a +:+ b) = String.length a + String.length b.
Proof.
  induction a as [|x a IH]; [done|].
  change (String x a +:+ b) with (String x (a +:+ b)). simpl. by rewrite IH.
Qed.

Lemma str_app_ne (a b : string) : b ≠ "" → a +:+ b ≠ a.
Proof.
  intros Hb Heq. apply (f_equal String.length) in Heq.
  rewrite str_app_length in Heq. destruct b; [done|]. simpl in Heq. lia.
Qed.

Lemma sequence_parent (n : nat) :
  parent_of ("/queue/consumers/consumer-" +:+ pad10 n) = "/queue/consumers".
Proof.
  change ("/queue/consumers/consumer-" +:+ pad10 n)
    with ("/queue/consumers" +:+ String "/" ("consumer-" +:+ pad10 n)).
  apply parent_of_sub; [done|].
  rewrite has_slash_app, has_slash_pad10. done.
Qed.

(** [_register] alone, where the names it is going to use are free. *)
Lemma register_alone (sid : nat) (w : world) (dir : znode) :
  let id := "/queue/consumers/consumer-" +:+ pad10 (cversion (zstat dir)) in
  nodes w !! "/queue/consumers" = Some dir →
  ephemeralOwner (zstat dir) = None →
  nodes w !! id = None →
  nodes w !! (id +:+ "/active") = None →
  nodes w !! (id +:+ "/item") = None →
  run sid _register w =
    (Returned {| _id := Some id |},
     set_nodes w
       (<[id +:+ "/item" := fresh_node "" (clock w) None]>
          (<[id := bump_cversion (bump_cversion (fresh_node "" (clock w) None))]>
             (<[id +:+ "/active" := fresh_node "" (clock w) (Some sid)]>
                (<[id := bump_cversion (fresh_node "" (clock w) None)]>
                   (<[id := fresh_node "" (clock w) None]>
                      (<["/queue/consumers" := bump_cversion dir]> (nodes w))))))),
     [(Create "/queue/consumers/consumer-" "" SEQUENCE, inr (RPath id));
      (Create (id +:+ "/active") "" EPHEMERAL, inr (RPath (id +:+ "/active")));
      (Create (id +:+ "/item") "" 0, inr (RPath (id +:+ "/item")))]).
Proof.
  intros id Hdir Hplain Hid Hactive Hitem.
  assert (Hid_ne : id ≠ "").
  { unfold id. simpl. discriminate. }
  assert (Hdir_ne : "/queue/consumers" ≠ id).
  { intros Heq. rewrite <- Heq, Hdir in Hid. discriminate. }
  unfold run, _register, zk_create. cbn [bind run_with interfere].
  rewrite (exec_create_sequence sid "/queue/consumers/consumer-" "" SEQUENCE
             w dir); [|done..].
  change (parent_of "/queue/consumers/consumer-") with "/queue/consumers".
  fold id. cbn [bind _fullpath _id run_with interfere tail].
  change (Z.testbit SEQUENCE 0) with false. cbn iota.
  match goal with
  | |- context [exec sid (Create (id +:+ "/active") _ _) ?w0] =>
      rewrite (exec_create_plain sid (id +:+ "/active") "" EPHEMERAL w0
                 (fresh_node "" (clock w) None)); [| |done|done]
  end.
  2:{ rewrite parent_of_sub by done. cbn. by rewrite lookup_insert_eq. }
  rewrite parent_of_sub by done.
  cbn [nodes set_nodes clock].
  rewrite lookup_insert_ne by (apply not_eq_sym; by apply str_app_ne).
  rewrite lookup_insert_ne.
  2:{ intros Heq. rewrite <- Heq, Hdir in Hactive. discriminate. }
  rewrite Hactive. cbn [bind run_with interfere tail _fullpath _id].
  change (Z.testbit EPHEMERAL 0) with true. cbn iota.
  match goal with
  | |- context [exec sid (Create (id +:+ "/item") _ _) ?w0] =>
      rewrite (exec_create_plain sid (id +:+ "/item") "" 0 w0
                 (bump_cversion (fresh_node "" (clock w) None))); [| |done|done]
  end.
  2:{ rewrite parent_of_sub by done. cbn.
      rewrite lookup_insert_ne by (by apply str_app_ne).
      by rewrite lookup_insert_eq. }
  rewrite parent_of_sub by done.
  cbn [nodes set_nodes clock].
  rewrite lookup_insert_ne.
  2:{ intros Heq. by apply (inj (String.app id)) in Heq. }
  rewrite lookup_insert_ne by (apply not_eq_sym; by apply str_app_ne).
  rewrite lookup_insert_ne by (apply not_eq_sym; by apply str_app_ne).
  rewrite lookup_insert_ne.
  2:{ intros Heq. rewrite <- Heq, Hdir in Hitem. discriminate. }
  rewrite Hitem. cbn. reflexivity.
Qed.

Lemma tree_orphan (m : gmap string znode) (k : string) :
  tree m → k ≠ "/" → m !! parent_of k = None → m !! k = None.
Proof.
  intros Ht Hk Hpar. destruct (m !! k) as [n|] eqn:Hn; [|done].
  destruct (Ht k) as [p Hp]; [by eauto|done|]. congruence.
Qed.

Lemma keeps_node (w w' : world) (p : string) (n : znode) :
  keeps w w' → nodes w !! p = Some n → ephemeralOwner (zstat n) = None →
  ∃ n', nodes w' !! p = Some n' ∧ ephemeralOwner (zstat n') = None.
Proof.
  intros Hk Hn Ho. destruct (Hk p n Hn) as (n' & Hn' & _ & _ & Ho').
  exists n'. split; [done|]. congruence.
Qed.

Lemma expire_lookup (sid : nat) (w : world) (p : string) :
  nodes (expire sid w) !! p =
    match nodes w !! p with
    | Some n =>
        if decide (ephemeralOwner (zstat n) = Some sid) then None else Some n
    | None => None
    end.
Proof.
  unfold expire. cbn. destruct (nodes w !! p) as [n|] eqn:Hn.
  - case_decide as Ho.
    + apply map_lookup_filter_None. right. intros n' Hn'. cbn.
      rewrite Hn in Hn'. injection Hn' as <-. by intros [].
    + apply map_lookup_filter_Some. split; [done|]. done.
  - apply map_lookup_filter_None. by left.
Qed.

(** X5. On a store that is a tree with its root, where /queue and
    /queue/consumers are not ephemeral and the next sequential name under
    /queue/consumers is free, [Consumer.__init__] returns a consumer whose
    identity is that name, a path that was not in the store. Afterwards the
    four directories are there, nothing of the store is lost, the
    registration node and the item slot hold the empty string, and the active
    marker is an ephemeral node of the session. When the session ends, the
    marker goes and the registration node and the slot stay. *)
Theorem Consumer_init_registers (sid : nat) (w : world) (root : znode) :
  nodes w !! "/" = Some root →
  ephemeralOwner (zstat root) = None →
  persistent "/queue" w →
  persistent "/queue/consumers" w →
  tree (nodes w) →
  (∀ dir, nodes w !! "/queue/consumers" = Some dir →
     nodes w !! ("/queue/consumers/consumer-" +:+ pad10 (cversion (zstat dir)))
     = None) →
  ∃ n w' tr,
    let id := "/queue/consumers/consumer-" +:+ pad10 n in
    run sid Consumer_init w = (Returned {| _id := Some id |}, w', tr) ∧
    nodes w !! id = None ∧
    keeps w w' ∧
    (∀ p, p ∈ ["/queue"; "/queue/items"; "/queue/consumers"; "/queue/partial"] →
          is_Some (nodes w' !! p)) ∧
    data_at id w' = Some "" ∧
    nodes w' !! (id +:+ "/active") = Some (fresh_node "" (clock w) (Some sid)) ∧
    nodes w' !! slot_path id = Some (fresh_node "" (clock w) None) ∧
    nodes (expire sid w') !! (id +:+ "/active") = None ∧
    data_at id (expire sid w') = Some "" ∧
    data_at (slot_path id) (expire sid w') = Some "".
Proof.
  intros Hroot Hplain Hq Hc Ht Hfree. unfold Consumer_init.
  (* the four directories *)
  destruct (ensure_exists_extends sid "/queue" "" w root Hroot Hplain)
    as (w1 & r1 & Hrun1 & Hext1 & Hn1).
  destruct (extends_by_node _ _ _ _ Hext1 Hn1 Hq) as (q1 & Hq1 & Hq1p).
  destruct (ensure_exists_extends sid "/queue/items" "" w1 q1 Hq1 Hq1p)
    as (w2 & r2 & Hrun2 & Hext2 & Hn2).
  pose proof (extends_by_trans _ _ _ _ _ Hext1 Hext2) as Hext12.
  cbn [app] in Hext12.
  destruct (keeps_node w1 w2 "/queue" q1) as (q2 & Hq2 & Hq2p);
    [apply Hext2|done|done|].
  destruct (ensure_exists_extends sid "/queue/consumers" "" w2 q2 Hq2 Hq2p)
    as (w3 & r3 & Hrun3 & Hext3 & Hn3).
  assert (Hc2 : persistent "/queue/consumers" w2) by (by apply Hext12).
  destruct (extends_by_node _ _ _ _ Hext3 Hn3 Hc2) as (dir & Hdir3 & Hdirp).
  pose proof (extends_by_trans _ _ _ _ _ Hext12 Hext3) as Hext123.
  cbn [app] in Hext123.
  destruct (keeps_node w2 w3 "/queue" q2) as (q3 & Hq3 & Hq3p);
    [apply Hext3|done|done|].
  destruct (ensure_exists_extends sid "/queue/partial" "" w3 q3 Hq3 Hq3p)
    as (w4 & r4 & Hrun4 & Hext4 & Hn4).
  pose proof (extends_by_trans _ _ _ _ _ Hext123 Hext4) as Hext.
  cbn [app] in Hext.
  assert (Hdir4 : nodes w4 !! "/queue/consumers" = Some dir).
  { destruct Hext4 as (_ & _ & _ & _ & Hf & _). rewrite Hf; [done| |].
    - rewrite list_elem_of_singleton. discriminate.
    - intros n Hn. apply list_elem_of_singleton in Hn as ->. discriminate. }
  assert (Hsame : nodes w2 !! "/queue/consumers" = nodes w !! "/queue/consumers").
  { destruct Hext12 as (_ & _ & _ & _ & Hf & _). apply Hf.
    - rewrite !elem_of_cons, elem_of_nil. intros [?|[?|[]]]; discriminate.
    - intros n. rewrite !elem_of_cons, elem_of_nil.
      intros [->|[->|[]]]; discriminate. }
  set (id := "/queue/consumers/consumer-" +:+ pad10 (cversion (zstat dir))).
  assert (Hid : nodes w !! id = None).
  { destruct (nodes w2 !! "/queue/consumers") as [d|] eqn:Hd.
    - subst w3. rewrite Hdir3 in Hd. injection Hd as <-.
      apply Hfree. by rewrite <- Hsame.
    - apply tree_orphan; [done|unfold id; simpl; discriminate|].
      unfold id. rewrite sequence_parent. by rewrite <- Hsame. }
  assert (Hid_ne : id ≠ "") by (unfold id; simpl; discriminate).
  assert (Hunder : ∀ c, has_slash c = false →
            nodes w4 !! (id +:+ String "/" c) = None).
  { intros c Hcs.
    destruct (nodes w4 !! (id +:+ String "/" c)) as [x|] eqn:Hx; [|done].
    destruct Hext as (_ & _ & _ & Hg & _).
    destruct (Hg (id +:+ String "/" c)) as [Hin|[y Hy]]; [by eauto| |].
    - rewrite !elem_of_cons, elem_of_nil in Hin. unfold id in Hin.
      destruct Hin as [H|[H|[H|[H|[]]]]]; simpl in H; discriminate H.
    - rewrite (tree_orphan (nodes w) (id +:+ String "/" c)) in Hy;
        [done|done| |by rewrite parent_of_sub].
      unfold id. simpl. discriminate. }
  assert (Hid4 : nodes w4 !! id = None).
  { destruct (nodes w4 !! id) as [x|] eqn:Hx; [|done].
    destruct Hext as (_ & _ & _ & Hg & _).
    destruct (Hg id) as [Hin|[y Hy]]; [by eauto| |congruence].
    rewrite !elem_of_cons, elem_of_nil in Hin. unfold id in Hin.
    destruct Hin as [H|[H|[H|[H|[]]]]]; simpl in H; discriminate H. }
  pose proof (register_alone sid w4 dir Hdir4 Hdirp Hid4
                (Hunder "active" eq_refl) (Hunder "item" eq_refl)) as Hreg.
  cbv zeta in Hreg. fold id in Hreg.
  rewrite run_bind, Hrun1. cbn beta iota zeta.
  rewrite run_bind, Hrun2. cbn beta iota zeta.
  rewrite run_bind, Hrun3. cbn beta iota zeta.
  rewrite run_bind, Hrun4. cbn beta iota zeta.
  rewrite Hreg.
  assert (Hclock : clock w4 = clock w) by apply Hext.
  rewrite Hclock.
  exists (cversion (zstat dir)). eexists _, _. cbv zeta. fold id.
  split; [reflexivity|]. split; [done|].
  assert (Hne1 : id +:+ "/item" ≠ id) by (by apply str_app_ne).
  assert (Hne2 : id +:+ "/active" ≠ id) by (by apply str_app_ne).
  assert (Hne3 : id +:+ "/item" ≠ id +:+ "/active").
  { intros Heq. by apply (inj (String.app id)) in Heq. }
  split; [|split; [|split; [|split; [|split]]]].
  - (* nothing of the store is lost *)
    apply (keeps_trans w w4); [apply Hext|].
    intros k x Hk. cbn.
    rewrite lookup_insert_ne by (intros <-; by rewrite Hunder in Hk).
    rewrite lookup_insert_ne by congruence.
    rewrite lookup_insert_ne by (intros <-; by rewrite Hunder in Hk).
    rewrite lookup_insert_ne by congruence.
    rewrite lookup_insert_ne by congruence.
    destruct (decide ("/queue/consumers" = k)) as [<-|Hne].
    + rewrite lookup_insert_eq. exists (bump_cversion dir).
      rewrite Hdir4 in Hk. by injection Hk as <-.
    + rewrite lookup_insert_ne by done. by exists x.
  - intros p Hp. cbn.
    assert (Hp4 : is_Some (nodes w4 !! p)).
    { rewrite !elem_of_cons, elem_of_nil in Hp.
      destruct Hp as [->|[->|[->|[->|[]]]]].
      - destruct (keeps_node w3 w4 "/queue" q3) as (? & ? & _);
          [apply Hext4|done|done|by eauto].
      - assert (is_Some (nodes w2 !! "/queue/items")) as [i Hi].
        { destruct (nodes w1 !! "/queue/items") eqn:Hi; [by subst; eauto|by eauto]. }
        destruct Hext3 as (Hk3 & _). destruct (Hk3 _ _ Hi) as (i3 & Hi3 & _).
        destruct Hext4 as (Hk4 & _). destruct (Hk4 _ _ Hi3) as (i4 & Hi4 & _).
        by eauto.
      - by eauto.
      - destruct (nodes w3 !! "/queue/partial") eqn:Hi; [by subst; eauto|by eauto]. }
    rewrite !lookup_insert_is_Some'. by auto 10.
  - unfold data_at. cbn. rewrite lookup_insert_ne by done.
    by rewrite lookup_insert_eq.
  - cbn. rewrite lookup_insert_ne by done.
    rewrite lookup_insert_ne by congruence. by rewrite lookup_insert_eq.
  - unfold slot_path. cbn. by rewrite lookup_insert_eq.
  - unfold data_at, slot_path. rewrite !expire_lookup. cbn.
    rewrite (lookup_insert_ne _ (id +:+ "/item") (id +:+ "/active")) by done.
    rewrite (lookup_insert_ne _ id (id +:+ "/active")) by congruence.
    rewrite (lookup_insert_eq _ (id +:+ "/active")).
    rewrite (lookup_insert_ne _ (id +:+ "/item") id) by done.
    rewrite (lookup_insert_eq _ id).
    rewrite (lookup_insert_eq _ (id +:+ "/item")). cbn.
    rewrite decide_True by done. done.
Qed.

Lemma Consumer_init_registers_witness :
  ∃ n w' tr,
    let id := "/queue/consumers/consumer-" +:+ pad10 n in
    run 3 Consumer_init w_ready = (Returned {| _id := Some id |}, w', tr) ∧
    nodes w_ready !! id = None ∧
    keeps w_ready w' ∧
    (∀ p, p ∈ ["/queue"; "/queue/items"; "/queue/consumers"; "/queue/partial"] →
          is_Some (nodes w' !! p)) ∧
    data_at id w' = Some "" ∧
    nodes w' !! (id +:+ "/active") = Some (fresh_node "" (clock w_ready) (Some 3)) ∧
    nodes w' !! slot_path id = Some (fresh_node "" (clock w_ready) None) ∧
    nodes (expire 3 w') !! (id +:+ "/active") = None ∧
    data_at id (expire 3 w') = Some "" ∧
    data_at (slot_path id) (expire 3 w') = Some "".
Proof.
  apply (Consumer_init_registers 3 w_ready (bump_cversion root_node)).
  - vm_compute. reflexivity.
  - reflexivity.
  - intros n Hn. vm_compute in Hn. by injection Hn as <-.
  - intros n Hn. vm_compute in Hn. by injection Hn as <-.
  - intros k Hk Hroot.
    assert (Hin : k ∈ (map_to_list (nodes w_ready)).*1).
    { destruct Hk as [x Hx]. apply list_elem_of_fmap. exists (k, x).
      split; [done|]. by apply elem_of_map_to_list. }
    vm_compute in Hin.
    repeat (apply elem_of_cons in Hin as [->|Hin]; [by vm_compute; eauto|]).
    by apply elem_of_nil in Hin.
  - intros dir Hdir. vm_compute in Hdir. injection Hdir as <-.
    vm_compute. reflexivity.
Defined.

Lemma exec_create_fresh (sid : nat) (path value : string) (flags : Z)
    (w w' : world) (name : string) :
  exec sid (Create path value flags) w = (inr (RPath name), w') →
  nodes w !! name = None ∧
  ∀ k, is_Some (nodes w !! k) → is_Some (nodes w' !! k).
Proof.
  unfold exec, store_create.
  destruct (nodes w !! parent_of path) as [par|]; [|done].
  destruct (ephemeralOwner (zstat par)); [done|].
  destruct (nodes w !! _) eqn:Hfree; [done|]. intros [= <- <-].
  split; [done|]. intros k Hk. cbn. rewrite !lookup_insert_is_Some'. auto.
Qed.

Lemma exec_raise_same (sid : nat) (c : call) (w w' : world) (e : exn) :
  exec sid c w = (inl e, w') → w' = w.
Proof.
  destruct c; unfold exec; try done.
  - unfold store_create. destruct (nodes w !! parent_of path); [|congruence].
    destruct (ephemeralOwner _); [congruence|].
    destruct (nodes w !! _); [congruence|done].
  - unfold store_get. destruct (nodes w !! path); [done|congruence].
  - unfold store_set. destruct (nodes w !! path); [|congruence].
    destruct (version_ok _ _); [done|congruence].
  - unfold store_delete. destruct (nodes w !! path); [|congruence].
    destruct (version_ok _ _); [|congruence].
    destruct (children _ _); [done|congruence].
  - unfold store_get_children. destruct (nodes w !! path); [done|congruence].
  - destruct (cv w); [congruence|done].
  - destruct (cv w); [congruence|done].
Qed.

Lemma ensure_exists_mono (sid : nat) (name value : string) (w w' : world)
    (tr : trace) (u : unit) :
  run sid (ensure_exists name value) w = (Returned u, w', tr) →
  ∀ k, is_Some (nodes w !! k) → is_Some (nodes w' !! k).
Proof.
  unfold run, ensure_exists, zk_create. cbn [bind try_except run_with interfere].
  destruct (exec sid (Create name value 0) w) as [[e|r] w1] eqn:Hexec.
  - apply exec_raise_same in Hexec as ->.
    destruct e; cbn; try done. intros ?. by simplify_eq.
  - destruct (exec_create_reply _ _ _ _ _ _ _ Hexec) as [nm ->].
    apply exec_create_fresh in Hexec as [_ Hmono]. cbn.
    intros ?. by simplify_eq.
Qed.

(** X6. A consumer that registers while the registration node of another is
    in the store gets another identity; so two registered consumers never
    share an item slot. *)
Theorem identities_distinct (env : list (world → world)) (sid1 sid2 : nat)
    (c1 c2 : Consumer) (w1 w1' w2 w2' : world) (tr1 tr2 : trace) :
  run_with env sid1 Consumer_init w1 = (Returned c1, w1', tr1) →
  (∀ id, _id c1 = Some id → is_Some (nodes w2 !! id)) →
  run sid2 Consumer_init w2 = (Returned c2, w2', tr2) →
  is_Some (_id c1) ∧ is_Some (_id c2) ∧ _id c1 ≠ _id c2.
Proof.
  intros Hfirst Hthere Hsecond.
  destruct (init_slot _ _ _ _ _ _ Hfirst) as (id1 & Hid1 & _ & _).
  split; [by eauto|].
  unfold Consumer_init in Hsecond.
  repeat (rewrite run_bind in Hsecond;
          match type of Hsecond with
          | context [run sid2 (ensure_exists ?p ?v) ?w0] =>
              let H := fresh "Hens" in
              destruct (run sid2 (ensure_exists p v) w0) as [[[[]|?|] ?] ?] eqn:H;
                try discriminate Hsecond;
              let H' := fresh "Hmono" in
              pose proof (ensure_exists_mono _ _ _ _ _ _ _ H) as H'; clear H
          end).
  match type of Hsecond with
  | context [run sid2 _register ?w0] =>
      assert (Hid4 : is_Some (nodes w0 !! id1)) by (by auto 10);
      destruct (run sid2 _register w0) as [[o wr] trr] eqn:Hreg
  end.
  destruct o as [self'|?|]; try discriminate Hsecond.
  injection Hsecond as -> _ _.
  revert Hreg. unfold run, _register, zk_create. cbn [bind run_with interfere].
  destruct (exec sid2 (Create "/queue/consumers/consumer-" "" SEQUENCE) _)
    as [[e|r] w5] eqn:H1; [done|].
  destruct (exec_create_reply _ _ _ _ _ _ _ H1) as [id2 ->].
  apply exec_create_fresh in H1 as [Hfresh _].
  cbn [bind _fullpath _id run_with interfere tail].
  destruct (exec sid2 (Create _ "" EPHEMERAL) _) as [[e|r] w6]; [done|].
  destruct r; try done. cbn [bind run_with interfere tail].
  destruct (exec sid2 (Create _ "" 0) _) as [[e|r] w7]; [done|].
  destruct r; try done. cbn. intros [= <- _ _]. cbn.
  split; [by eauto|]. rewrite Hid1. intros [= ->].
  rewrite Hfresh in Hid4. by apply is_Some_None in Hid4.
Qed.

Lemma identities_distinct_witness :
  is_Some (_id consumer0) ∧ is_Some (_id consumer1) ∧
  _id consumer0 ≠ _id consumer1.
Proof.
  apply (identities_distinct [] 2 3 consumer0 consumer1 w_job w_ready w_ready
           w_two (run 2 Consumer_init w_job).2 (run 3 Consumer_init w_ready).2).
  - vm_compute. reflexivity.
  - intros id [= <-]. vm_compute. eauto.
  - vm_compute. reflexivity.
Defined.

(** *** [put], left alone and without its directory *)

Lemma item_child (c : string) :
  has_slash c = false → c ≠ "" →
  child_name "/queue/items" (item_path c) = Some c.
Proof. intros Hc Hne. by apply (child_name_app "/queue/items"). Qed.

Lemma sequence_item (n : nat) :
  has_slash ("item-" +:+ pad10 n) = false ∧ "item-" +:+ pad10 n ≠ "".
Proof.
  split; [|simpl; discriminate].
  rewrite has_slash_app, has_slash_pad10. done.
Qed.

Lemma put_alone (sid fuel : nat) (value : string) (w : world)
    (dir : znode) :
  let c := "item-" +:+ pad10 (cversion (zstat dir)) in
  nodes w !! "/queue/items" = Some dir →
  ephemeralOwner (zstat dir) = None →
  nodes w !! item_path c = None →
  ∃ w',
    run sid (put (S fuel) value) w =
      (Returned (), w',
       [(Create "/queue/items/item-" "" SEQUENCE, inr (RPath (item_path c)));
        (SetData (item_path c) value 0, inr RUnit)]) ∧
    nodes w' !! item_path c
      = Some (write_data (fresh_node "" (clock w) None) value) ∧
    children (nodes w') "/queue/items" ≡ₚ c :: children (nodes w) "/queue/items" ∧
    keeps w w' ∧
    ∀ k, k ≠ item_path c → k ≠ "/queue/items" → nodes w' !! k = nodes w !! k.
Proof.
  intros c Hdir Hplain Hfree.
  assert (Hne : "/queue/items" ≠ item_path c) by (unfold item_path; simpl; discriminate).
  unfold run, put. cbn [retry_on]. unfold put_body, zk_create, zk_set, call_unit.
  cbn [bind try_except run_with interfere].
  rewrite (exec_create_sequence sid "/queue/items/item-" "" SEQUENCE w dir);
    [|done..].
  change (parent_of "/queue/items/item-") with "/queue/items".
  change ("/queue/items/item-" +:+ pad10 (cversion (zstat dir)))
    with (item_path c).
  change (Z.testbit SEQUENCE 0) with false. cbn iota.
  cbn [bind try_except run_with interfere tail].
  unfold exec, store_set. cbn [nodes set_nodes].
  rewrite lookup_insert_eq.
  change (version_ok 0 (fresh_node "" (clock w) None)) with true.
  cbn iota. cbn [bind try_except run_with].
  eexists. split; [reflexivity|]. cbn [nodes set_nodes].
  rewrite insert_insert_eq.
  split; [by rewrite lookup_insert_eq|]. split; [|split].
  - rewrite children_insert_fresh.
    + by rewrite children_insert_same by eauto.
    + rewrite lookup_insert_ne by done. done.
    + apply item_child; apply sequence_item.
  - intros k n Hk. cbn [nodes set_nodes].
    destruct (decide (item_path c = k)) as [<-|Hk1]; [congruence|].
    rewrite !(lookup_insert_ne _ (item_path c)) by done.
    destruct (decide ("/queue/items" = k)) as [<-|Hk2].
    + rewrite lookup_insert_eq. exists (bump_cversion dir).
      rewrite Hdir in Hk. by injection Hk as <-.
    + rewrite lookup_insert_ne by done. by exists n.
  - intros k Hk1 Hk2. cbn [nodes set_nodes]. by rewrite !lookup_insert_ne.
Qed.

(** X7. Where /queue/items is there, not ephemeral, and the next sequential
    name under it is free, [put], left alone, returns after its first
    attempt: one create and one write. The new node holds the value at
    version 1; /queue/items lists one name more; every other node is as it
    was, the counter of /queue/items apart. *)
Theorem put_adds_one_item (sid fuel : nat) (value : string) (w : world)
    (dir : znode) :
  let c := "item-" +:+ pad10 (cversion (zstat dir)) in
  nodes w !! "/queue/items" = Some dir →
  ephemeralOwner (zstat dir) = None →
  nodes w !! item_path c = None →
  ∃ w',
    run sid (put (S fuel) value) w =
      (Returned (), w',
       [(Create "/queue/items/item-" "" SEQUENCE, inr (RPath (item_path c)));
        (SetData (item_path c) value 0, inr RUnit)]) ∧
    nodes w' !! item_path c
      = Some (write_data (fresh_node "" (clock w) None) value) ∧
    children (nodes w') "/queue/items" ≡ₚ c :: children (nodes w) "/queue/items" ∧
    keeps w w' ∧
    ∀ k, k ≠ item_path c → k ≠ "/queue/items" → nodes w' !! k = nodes w !! k.
Proof. apply put_alone. Qed.

Lemma put_adds_one_item_witness :
  ∃ w',
    run 1 (put 1 "job-b") w_ready =
      (Returned (), w',
       [(Create "/queue/items/item-" "" SEQUENCE,
         inr (RPath (item_path ("item-" +:+ pad10 1))));
        (SetData (item_path ("item-" +:+ pad10 1)) "job-b" 0, inr RUnit)]) ∧
    nodes w' !! item_path ("item-" +:+ pad10 1)
      = Some (write_data (fresh_node "" (clock w_ready) None) "job-b") ∧
    children (nodes w') "/queue/items"
      ≡ₚ ("item-" +:+ pad10 1) :: children (nodes w_ready) "/queue/items" ∧
    keeps w_ready w' ∧
    ∀ k, k ≠ item_path ("item-" +:+ pad10 1) → k ≠ "/queue/items" →
         nodes w' !! k = nodes w_ready !! k.
Proof.
  apply (put_adds_one_item 1 0 "job-b" w_ready
           {| data := "";
              zstat := {| version := 0; cversion := 1; ctime := 0;
                          ephemeralOwner := None |} |}).
  - vm_compute. reflexivity.
  - reflexivity.
  - vm_compute. reflexivity.
Defined.

Lemma put_polls (env : list (world → world)) (sid fuel : nat)
    (value : string) (w : world) :
  nodes w !! "/queue/items" = None →
  Forall (λ f, ∀ w0, nodes w0 !! "/queue/items" = None →
                     nodes (f w0) !! "/queue/items" = None) env →
  ∃ w',
    run_with env sid (put fuel value) w
    = (Unfinished, w',
       mjoin (replicate fuel
         [(Create "/queue/items/item-" "" SEQUENCE, inl NoNodeException);
          (Time_sleep, inr RUnit)])).
Proof.
  revert env w. induction fuel as [|fuel IH]; intros env w Hw Henv.
  { by eexists. }
  assert (Hstep : ∀ env w, nodes w !! "/queue/items" = None →
            Forall (λ f, ∀ w0, nodes w0 !! "/queue/items" = None →
                               nodes (f w0) !! "/queue/items" = None) env →
            nodes (interfere env w) !! "/queue/items" = None).
  { clear. intros env w Hw Henv. destruct Henv as [|f env Hf _]; [done|].
    by apply Hf. }
  pose proof (Hstep env w Hw Henv) as H1.
  unfold put. cbn [retry_on]. fold (put fuel value).
  unfold put_body, zk_create. cbn [bind try_except run_with].
  unfold exec at 1, store_create.
  change (parent_of "/queue/items/item-") with "/queue/items".
  rewrite H1. cbn [bind try_except].
  rewrite bool_decide_eq_true_2 by (by apply list_elem_of_singleton).
  cbn [run_with]. rewrite exec_sleep.
  destruct (IH (tail (tail env)) (interfere (tail env) (interfere env w)))
    as [w' ->].
  { apply Hstep; [done|]. by apply Forall_tail. }
  { by do 2 apply Forall_tail. }
  by eexists.
Qed.

(** X8. Where /queue/items is missing, and as long as nobody creates it,
    [put] neither returns nor raises: every round is a create that fails with
    [NoNodeException] and a sleep, however many rounds it is given. (So it is
    on the store that a collector has set up: its constructor does not
    create /queue/items.) *)
Theorem put_without_directory (env : list (world → world)) (sid fuel : nat)
    (value : string) (w : world) :
  nodes w !! "/queue/items" = None →
  Forall (λ f, ∀ w0, nodes w0 !! "/queue/items" = None →
                     nodes (f w0) !! "/queue/items" = None) env →
  (run_with env sid (put fuel value) w).1.1 = Unfinished ∧
  (run_with env sid (put fuel value) w).2
  = mjoin (replicate fuel
      [(Create "/queue/items/item-" "" SEQUENCE, inl NoNodeException);
       (Time_sleep, inr RUnit)]).
Proof.
  intros Hw Henv.
  destruct (put_polls env sid fuel value w Hw Henv) as [w' ->]. done.
Qed.

Lemma put_without_directory_witness :
  (run_with [tick 1] 1 (put 3 "job-a") (after 3 GarbageCollector_init empty_world)).1.1
    = Unfinished ∧
  (run_with [tick 1] 1 (put 3 "job-a") (after 3 GarbageCollector_init empty_world)).2
  = mjoin (replicate 3
      [(Create "/queue/items/item-" "" SEQUENCE, inl NoNodeException);
       (Time_sleep, inr RUnit)]).
Proof.
  apply (put_without_directory [tick 1] 1 3 "job-a").
  - vm_compute. reflexivity.
  - repeat constructor. intros w0 Hw0. exact Hw0.
Defined.

(** *** [_move], whatever the others do *)

Lemma exec_delete_replies (sid : nat) (p : string) (v : Z) (w : world) :
  (exec sid (Delete p v) w = (inr RUnit, set_nodes w (delete p (nodes w))) ∧
   is_Some (nodes w !! p)) ∨
  (∃ e, exec sid (Delete p v) w = (inl e, w) ∧
        e ∈ [NoNodeException; BadVersionException; NotEmptyException]).
Proof.
  unfold exec, store_delete.
  destruct (nodes w !! p) as [n|]; [|right; eexists; split; [done|set_solver]].
  destruct (version_ok v n); [|right; eexists; split; [done|set_solver]].
  destruct (children (nodes w) p); [left; eauto|].
  right; eexists; split; [done|set_solver].
Qed.

Ltac not_in_trace H :=
  repeat (apply elem_of_cons in H as [H|H]; [discriminate H|]);
  by apply elem_of_nil in H.

Ltac leaf_skipped :=
  split; [by intros ? [=]|];
  split; [intros _; right; eexists _, _; split; [reflexivity|];
          let H := fresh in intros ? ? ? ? H; not_in_trace H|];
  split; [by intros ? [=]|done].

Ltac leaf_cleared tr0 :=
  split; [by intros ? [=]|];
  split; [intros _; left; by exists tr0|];
  split; [by intros ? [=]|done].

Ltac leaf_raised tr0 :=
  split; [by intros ? [=]|];
  split; [by intros [=]|];
  split; [|done];
  let e := fresh in
  intros e [= <-]; split;
    [rewrite !elem_of_cons; by auto
    |first [by intros [=] | intros _; by exists tr0]].

(** X9. Whatever the other clients do between its calls, [_move] ends, and:
    when it returns a payload, it made exactly three calls, read this payload
    (which is not empty) from the source, wrote it to the slot and deleted the
    source with the version it had read, and the source is gone; when it
    returns [None], either its last call emptied the slot, or it read an empty
    source and wrote nothing; it raises nothing but [NoNodeException],
    [BadVersionException] and [NotEmptyException], and [NoNodeException] only
    when its write of the empty string found no slot. *)
Theorem move_returns_what_it_moved (env : list (world → world)) (sid : nat)
    (src dest : string) (w : world) :
  let res := run_with env sid (_move src dest) w in
  (∀ v, res.1.1 = Returned (Some v) →
     v ≠ "" ∧ nodes res.1.2 !! src = None ∧
     ∃ st, res.2 = [(Get src, inr (RData v st));
                    (SetData dest v (-1), inr RUnit);
                    (Delete src (version st), inr RUnit)]) ∧
  (res.1.1 = Returned None →
     (∃ tr0, res.2 = tr0 ++ [(SetData dest "" (-1), inr RUnit)]) ∨
     (∃ st rest, res.2 = (Get src, inr (RData "" st)) :: rest ∧
                 ∀ path v x r, (SetData path v x, r) ∉ rest)) ∧
  (∀ e, res.1.1 = Raised e →
     e ∈ [NoNodeException; BadVersionException; NotEmptyException] ∧
     (e = NoNodeException →
      ∃ tr0, res.2 = tr0 ++ [(SetData dest "" (-1), inl NoNodeException)])) ∧
  res.1.1 ≠ Unfinished.
Proof.
  intros res. subst res.
  unfold _move, zk_get, zk_set, zk_delete, call_unit, time_time.
  cbn [bind try_except run_with].
  destruct (exec_get_cases sid src (interfere env w)) as [(n & Hn & ->)| ->].
  - destruct n as [value st]. cbn [data zstat].
    destruct value as [|a value]; cbn [truthy bind try_except run_with].
    + (* empty data *)
      rewrite exec_time. cbn [bind try_except run_with].
      destruct (ctime st <? _)%Z; cbn [bind try_except run_with].
      * destruct (exec_delete_replies sid src (-1)
                    (interfere (tail (tail env))
                       (interfere (tail env) (interfere env w))))
          as [[-> _]|(e & -> & He)]; cbn.
        -- leaf_skipped.
        -- rewrite !elem_of_cons, elem_of_nil in He.
           destruct He as [->|[->|[->|[]]]]; cbn.
           ++ leaf_skipped.
           ++ leaf_raised (@nil (call * result)).
           ++ leaf_raised (@nil (call * result)).
      * leaf_skipped.
    + (* a payload *)
      rewrite exec_set_any.
      destruct (nodes (interfere (tail env) (interfere env w)) !! dest)
        as [nd|]; cbn [bind try_except run_with].
      * match goal with
        | |- context [exec sid (Delete src ?v) ?w0] =>
            destruct (exec_delete_replies sid src v w0)
              as [[-> _]|(e & -> & He)]
        end; cbn [bind try_except run_with].
        -- cbn. split.
           { intros v [= <-]. split; [done|].
             split; [by rewrite lookup_delete_eq|]. by exists st. }
           split; [by intros [=]|]. split; [by intros ? [=]|done].
        -- rewrite !elem_of_cons, elem_of_nil in He.
           destruct He as [->|[->|[->|[]]]]; cbn [bind try_except run_with].
           ++ rewrite exec_set_any.
              match goal with
              | |- context [nodes ?w0 !! dest] =>
                  destruct (nodes w0 !! dest)
              end; cbn.
              ** leaf_cleared [(Get src, inr (RData (String a value) st) : result);
                               (SetData dest (String a value) (-1), inr RUnit);
                               (Delete src (version st), inl NoNodeException)].
              ** leaf_raised [(Get src, inr (RData (String a value) st) : result);
                              (SetData dest (String a value) (-1), inr RUnit);
                              (Delete src (version st), inl NoNodeException)].
           ++ cbn. leaf_raised (@nil (call * result)).
           ++ cbn. leaf_raised (@nil (call * result)).
      * rewrite exec_set_any.
        match goal with
        | |- context [nodes ?w0 !! dest] => destruct (nodes w0 !! dest)
        end; cbn.
        -- leaf_cleared [(Get src, inr (RData (String a value) st) : result);
                         (SetData dest (String a value) (-1), inl NoNodeException)].
        -- leaf_raised [(Get src, inr (RData (String a value) st) : result);
                        (SetData dest (String a value) (-1), inl NoNodeException)].
  - (* the source is gone *)
    cbn [bind try_except run_with]. rewrite exec_set_any.
    destruct (nodes (interfere (tail env) (interfere env w)) !! dest); cbn.
    + leaf_cleared [(Get src, inl NoNodeException : result)].
    + leaf_raised [(Get src, inl NoNodeException : result)].
Qed.

(** *** [reserve()] at the head of the queue *)

Lemma move_wins (sid : nat) (src dest : string) (n nd : znode) (w : world) :
  nodes w !! src = Some n →
  data n ≠ "" →
  nodes w !! dest = Some nd →
  src ≠ dest →
  children (nodes w) src = [] →
  run sid (_move src dest) w =
    (Returned (Some (data n)),
     set_nodes w (delete src (<[dest := write_data nd (data n)]> (nodes w))),
     [(Get src, inr (RData (data n) (zstat n)));
      (SetData dest (data n) (-1), inr RUnit);
      (Delete src (version (zstat n)), inr RUnit)]).
Proof.
  intros Hsrc Hdata Hdest Hne Hleaf.
  destruct (move_alone sid src dest n w Hsrc Hne) as (o & w' & tr & -> & Hres).
  destruct Hres as [nd' Hd Hnd' _|Hd _ _|Hd _|e w' tr [Hno|Hch]]; try done.
  - rewrite Hdest in Hnd'. by injection Hnd' as <-.
  - by rewrite Hdest in Hno.
Qed.

Lemma reserve_head_alone (sid fuel : nat) (id c0 : string)
    (rest : list string) (n nd : znode) (w : world) :
  consumer_path id →
  is_Some (nodes w !! "/queue/items") →
  sorted (children (nodes w) "/queue/items") = c0 :: rest →
  nodes w !! item_path c0 = Some n →
  data n ≠ "" →
  children (nodes w) (item_path c0) = [] →
  nodes w !! slot_path id = Some nd →
  let w' :=
    set_nodes w (delete (item_path c0)
                   (<[slot_path id := write_data nd (data n)]> (nodes w))) in
  run sid (reserve (S fuel) {| _id := Some id |} false) w =
    (Returned (Some (data n)), w',
     [(GetChildren "/queue/items" false,
       inr (RChildren (children (nodes w) "/queue/items")));
      (Get (item_path c0), inr (RData (data n) (zstat n)));
      (SetData (slot_path id) (data n) (-1), inr RUnit);
      (Delete (item_path c0) (version (zstat n)), inr RUnit)]) ∧
  run sid (reserve (S fuel) {| _id := Some id |} true) w =
    (Returned (Some (data n)), w',
     [(Cv_acquire, inr RUnit);
      (GetChildren "/queue/items" true,
       inr (RChildren (children (nodes w) "/queue/items")));
      (Get (item_path c0), inr (RData (data n) (zstat n)));
      (SetData (slot_path id) (data n) (-1), inr RUnit);
      (Delete (item_path c0) (version (zstat n)), inr RUnit);
      (Cv_release, inr RUnit)]).
Proof.
  intros Hid [dir Hdir] Hsorted Hn Hdata Hleaf Hslot w'.
  assert (Hne : item_path c0 ≠ slot_path id).
  { apply not_eq_sym. by apply slot_not_item. }
  destruct n as [[|a v] st]; [done|]. cbn [data zstat] in *.
  split.
  - cbn [reserve _simple_reserve]. rewrite run_bind, run_get_children, Hdir.
    cbn beta iota zeta. rewrite Hsorted. cbn [length Nat.eqb].
    cbn [simple_scan _fullpath _id bind].
    fold (slot_path id). fold (item_path c0).
    rewrite !run_bind.
    rewrite (move_wins sid _ _ _ nd w Hn) by done.
    reflexivity.
  - cbn [reserve _blocking_reserve]. rewrite run_bind, run_cv_acquire.
    cbn beta iota zeta. rewrite run_bind, run_get_children.
    cbn [nodes set_cv]. rewrite Hdir. cbn beta iota zeta. rewrite Hsorted.
    cbn [blocking_scan _fullpath _id bind].
    fold (slot_path id). fold (item_path c0).
    rewrite !run_bind.
    rewrite (move_wins sid _ _ _ nd (set_cv w (S (cv w))) Hn) by done.
    reflexivity.
Qed.

(** X10. A consumer alone, whose slot exists: when the first name of
    /queue/items in sorted order is a node with a payload and without
    children, [reserve()] returns this payload in both modes, in its first
    round: it lists, reads the node, writes the slot (whatever the slot
    held) and deletes the node. In blocking mode the lock that it acquired is
    released again. *)
Theorem reserve_takes_head (sid fuel : nat) (id c0 : string)
    (rest : list string) (n nd : znode) (w : world) :
  consumer_path id →
  is_Some (nodes w !! "/queue/items") →
  sorted (children (nodes w) "/queue/items") = c0 :: rest →
  nodes w !! item_path c0 = Some n →
  data n ≠ "" →
  children (nodes w) (item_path c0) = [] →
  nodes w !! slot_path id = Some nd →
  let w' :=
    set_nodes w (delete (item_path c0)
                   (<[slot_path id := write_data nd (data n)]> (nodes w))) in
  run sid (reserve (S fuel) {| _id := Some id |} false) w =
    (Returned (Some (data n)), w',
     [(GetChildren "/queue/items" false,
       inr (RChildren (children (nodes w) "/queue/items")));
      (Get (item_path c0), inr (RData (data n) (zstat n)));
      (SetData (slot_path id) (data n) (-1), inr RUnit);
      (Delete (item_path c0) (version (zstat n)), inr RUnit)]) ∧
  run sid (reserve (S fuel) {| _id := Some id |} true) w =
    (Returned (Some (data n)), w',
     [(Cv_acquire, inr RUnit);
      (GetChildren "/queue/items" true,
       inr (RChildren (children (nodes w) "/queue/items")));
      (Get (item_path c0), inr (RData (data n) (zstat n)));
      (SetData (slot_path id) (data n) (-1), inr RUnit);
      (Delete (item_path c0) (version (zstat n)), inr RUnit);
      (Cv_release, inr RUnit)]).
Proof. apply reserve_head_alone. Qed.

Lemma reserve_takes_head_witness :
  let n := {| data := "job-a";
              zstat := {| version := 1; cversion := 0; ctime := 0;
                          ephemeralOwner := None |} |} in
  let nd := fresh_node "" 0 None in
  let w' :=
    set_nodes w_ready
      (delete (item_path "item-0000000000")
         (<[slot_path "/queue/consumers/consumer-0000000000" :=
              write_data nd (data n)]> (nodes w_ready))) in
  run 2 (reserve 1 consumer0 false) w_ready =
    (Returned (Some (data n)), w',
     [(GetChildren "/queue/items" false,
       inr (RChildren (children (nodes w_ready) "/queue/items")));
      (Get (item_path "item-0000000000"), inr (RData (data n) (zstat n)));
      (SetData (slot_path "/queue/consumers/consumer-0000000000") (data n) (-1),
       inr RUnit);
      (Delete (item_path "item-0000000000") (version (zstat n)), inr RUnit)]) ∧
  run 2 (reserve 1 consumer0 true) w_ready =
    (Returned (Some (data n)), w',
     [(Cv_acquire, inr RUnit);
      (GetChildren "/queue/items" true,
       inr (RChildren (children (nodes w_ready) "/queue/items")));
      (Get (item_path "item-0000000000"), inr (RData (data n) (zstat n)));
      (SetData (slot_path "/queue/consumers/consumer-0000000000") (data n) (-1),
       inr RUnit);
      (Delete (item_path "item-0000000000") (version (zstat n)), inr RUnit);
      (Cv_release, inr RUnit)]).
Proof.
  apply (reserve_takes_head 2 0 "/queue/consumers/consumer-0000000000"
           "item-0000000000" []
           {| data := "job-a";
              zstat := {| version := 1; cversion := 0; ctime := 0;
                          ephemeralOwner := None |} |}
           (fresh_node "" 0 None) w_ready).
  - by exists "consumer-0000000000".
  - vm_compute. eauto.
  - vm_compute. reflexivity.
  - vm_compute. reflexivity.
  - done.
  - vm_compute. reflexivity.
  - vm_compute. reflexivity.
Defined.

(** *** From [put] to [done()] *)

Lemma item_parent (c : string) :
  has_slash c = false → parent_of (item_path c) = "/queue/items".
Proof.
  intros Hc. change (item_path c) with ("/queue/items" +:+ String "/" c).
  by apply parent_of_sub.
Qed.

Lemma done_alone (sid : nat) (id : string) (nd : znode) (w : world) :
  nodes w !! slot_path id = Some nd →
  run sid (done {| _id := Some id |}) w =
    (Returned (),
     set_nodes w (<[slot_path id := write_data nd ""]> (nodes w)),
     [(SetData (slot_path id) "" (-1), inr RUnit)]).
Proof.
  intros Hslot. unfold run, done.
  cbn [_fullpath _id bind zk_set call_unit run_with interfere].
  fold (slot_path id). by rewrite exec_set_any, Hslot.
Qed.

Lemma reserve_empty_alone (sid fuel : nat) (self : Consumer) (w : world) :
  is_Some (nodes w !! "/queue/items") →
  children (nodes w) "/queue/items" = [] →
  run sid (reserve (S fuel) self false) w =
    (Returned None, w, [(GetChildren "/queue/items" false, inr (RChildren []))]).
Proof.
  intros [dir Hdir] Hempty. cbn [reserve _simple_reserve].
  by rewrite run_bind, run_get_children, Hdir, Hempty.
Qed.

(** X11. On a store that is a tree and whose queue is empty, for a consumer
    whose slot exists: [put value] with a value that is not empty, then
    [reserve()], then [done()], all return; [reserve()] gives back the value
    and leaves it in the slot and the queue empty; [done()] empties the slot;
    and one more [reserve()] returns noWork at once. *)
Theorem put_reserve_done (sp sc fuel : nat) (id value : string)
    (dir nd : znode) (w : world) :
  consumer_path id →
  value ≠ "" →
  tree (nodes w) →
  nodes w !! "/queue/items" = Some dir →
  ephemeralOwner (zstat dir) = None →
  children (nodes w) "/queue/items" = [] →
  nodes w !! slot_path id = Some nd →
  ∃ w1 w2 w3 tr1 tr2 tr3,
    run sp (put (S fuel) value) w = (Returned (), w1, tr1) ∧
    run sc (reserve (S fuel) {| _id := Some id |} false) w1
      = (Returned (Some value), w2, tr2) ∧
    data_at (slot_path id) w2 = Some value ∧
    children (nodes w2) "/queue/items" = [] ∧
    run sc (done {| _id := Some id |}) w2 = (Returned (), w3, tr3) ∧
    data_at (slot_path id) w3 = Some "" ∧
    run sc (reserve (S fuel) {| _id := Some id |} false) w3
      = (Returned None, w3,
         [(GetChildren "/queue/items" false, inr (RChildren []))]).
Proof.
  intros Hid Hvalue Ht Hdir Hplain Hempty Hslot.
  set (c := "item-" +:+ pad10 (cversion (zstat dir))).
  destruct (sequence_item (cversion (zstat dir))) as [Hc Hcne]. fold c in Hc, Hcne.
  assert (Hfree : nodes w !! item_path c = None).
  { destruct (nodes w !! item_path c) as [x|] eqn:Hx; [|done].
    assert (Hin : c ∈ children (nodes w) "/queue/items").
    { apply elem_of_children. exists (item_path c). split; [by eauto|].
      by apply item_child. }
    rewrite Hempty in Hin. by apply elem_of_nil in Hin. }
  destruct (put_alone sp fuel value w dir Hdir Hplain Hfree)
    as (w1 & Hput & Hitem & Hch1 & Hkeeps1 & Hframe1).
  fold c in Hput, Hitem, Hch1, Hframe1.
  rewrite Hempty in Hch1. apply Permutation_singleton_r in Hch1.
  assert (Hslot1 : nodes w1 !! slot_path id = Some nd).
  { rewrite Hframe1; [done|by apply slot_not_item|by apply slot_not_items]. }
  assert (Hdir1 : is_Some (nodes w1 !! "/queue/items")).
  { destruct (Hkeeps1 _ _ Hdir) as (d1 & Hd1 & _). by eauto. }
  assert (Hleaf1 : children (nodes w1) (item_path c) = []).
  { destruct (children (nodes w1) (item_path c)) as [|x xs] eqn:Hxs; [done|].
    assert (Hx : x ∈ children (nodes w1) (item_path c)) by (rewrite Hxs; left).
    apply elem_of_children in Hx as (k & Hk & Hx).
    pose proof (child_name_nonempty _ _ _ Hx) as Hxne.
    apply child_name_Some in Hx as [-> Hxs'].
    assert (Hpar : parent_of (child_prefix (item_path c) +:+ x) = item_path c).
    { apply parent_of_child; [|done]. unfold item_path. simpl. discriminate. }
    assert (Hpath : item_path c ≠ "") by (unfold item_path; simpl; discriminate).
    rewrite Hframe1 in Hk.
    - pose proof (Ht _ Hk (child_path_not_root _ _ Hpath Hxne)) as Hp.
      rewrite Hpar, Hfree in Hp. by apply is_Some_None in Hp.
    - intros Heq. rewrite Heq, item_parent in Hpar by done.
      revert Hpar. unfold item_path. simpl. discriminate.
    - intros Heq. rewrite Heq in Hpar. revert Hpar. unfold item_path.
      change (parent_of "/queue/items") with "/queue". simpl. discriminate. }
  pose proof (reserve_head_alone sc fuel id c []
                (write_data (fresh_node "" (clock w) None) value) nd w1
                Hid Hdir1) as Hres.
  rewrite Hch1 in Hres. specialize (Hres eq_refl Hitem).
  cbn [data write_data fresh_node] in Hres.
  destruct (Hres Hvalue Hleaf1 Hslot1) as [Hres1 _]. clear Hres.
  assert (Hne : item_path c ≠ slot_path id).
  { apply not_eq_sym. by apply slot_not_item. }
  set (w2 := set_nodes w1 (delete (item_path c)
                (<[slot_path id := write_data nd value]> (nodes w1)))) in *.
  assert (Hslot2 : nodes w2 !! slot_path id = Some (write_data nd value)).
  { unfold w2. cbn. rewrite lookup_delete_ne by done. by rewrite lookup_insert_eq. }
  assert (Hch2 : children (nodes w2) "/queue/items" = []).
  { unfold w2. cbn [nodes set_nodes].
    pose proof (children_delete_child
                  (<[slot_path id := write_data nd value]> (nodes w1))
                  "/queue/items" (item_path c) c) as Hperm.
    rewrite children_insert_same in Hperm by eauto.
    rewrite Hch1 in Hperm.
    apply Permutation_cons_inv, Permutation_nil_l in Hperm.
    - done.
    - rewrite lookup_insert_ne by (by apply not_eq_sym). by eauto.
    - by apply item_child. }
  assert (Hdir2 : is_Some (nodes w2 !! "/queue/items")).
  { unfold w2. cbn. rewrite lookup_delete_ne by (apply not_eq_sym, items_not_item).
    rewrite lookup_insert_ne; [done|]. by apply slot_not_items. }
  pose proof (done_alone sc id _ w2 Hslot2) as Hdone.
  set (w3 := set_nodes w2 (<[slot_path id := write_data (write_data nd value) ""]>
                             (nodes w2))) in *.
  exists w1, w2, w3. eexists _, _, _.
  split; [exact Hput|]. split; [exact Hres1|].
  split; [unfold data_at; by rewrite Hslot2|]. split; [done|].
  split; [exact Hdone|].
  split; [unfold data_at, w3; cbn; by rewrite lookup_insert_eq|].
  apply reserve_empty_alone.
  - unfold w3. cbn. rewrite lookup_insert_ne; [done|]. by apply slot_not_items.
  - unfold w3. cbn [nodes set_nodes]. apply Permutation_nil_r.
    rewrite children_insert_same by eauto. by rewrite Hch2.
Qed.

Lemma put_reserve_done_witness :
  ∃ w1 w2 w3 tr1 tr2 tr3,
    run 1 (put 1 "job-a") w_idle = (Returned (), w1, tr1) ∧
    run 2 (reserve 1 consumer0 false) w1 = (Returned (Some "job-a"), w2, tr2) ∧
    data_at (slot_path "/queue/consumers/consumer-0000000000") w2
      = Some "job-a" ∧
    children (nodes w2) "/queue/items" = [] ∧
    run 2 (done consumer0) w2 = (Returned (), w3, tr3) ∧
    data_at (slot_path "/queue/consumers/consumer-0000000000") w3 = Some "" ∧
    run 2 (reserve 1 consumer0 false) w3
      = (Returned None, w3,
         [(GetChildren "/queue/items" false, inr (RChildren []))]).
Proof.
  apply (put_reserve_done 1 2 0 "/queue/consumers/consumer-0000000000" "job-a"
           (fresh_node "" 0 None) (fresh_node "" 0 None) w_idle).
  - by exists "consumer-0000000000".
  - done.
  - intros k Hk Hroot.
    assert (Hin : k ∈ (map_to_list (nodes w_idle)).*1).
    { destruct Hk as [x Hx]. apply list_elem_of_fmap. exists (k, x).
      split; [done|]. by apply elem_of_map_to_list. }
    vm_compute in Hin.
    repeat (apply elem_of_cons in Hin as [->|Hin]; [by vm_compute; eauto|]).
    by apply elem_of_nil in Hin.
  - vm_compute. reflexivity.
  - reflexivity.
  - vm_compute. reflexivity.
  - vm_compute. reflexivity.
Defined.

(** *** [close()], and two edges of [reserve()] *)

Lemma child_path_sub (p c : string) :
  p ≠ "/" → child_prefix p +:+ c = p +:+ String "/" c.
Proof.
  intros Hp. unfold child_prefix. rewrite decide_False by done.
  by rewrite str_app_assoc.
Qed.

Lemma consumer_path_not_root (id : string) : consumer_path id → id ≠ "/".
Proof. intros [r ->]. simpl. discriminate. Qed.

(** X12. For a consumer whose registration node has the item slot and the
    active marker as its only children, both without children: [close()]
    returns the consumer without identity after its three deletes. The slot is
    gone with whatever it held, a payload that was reserved and not done
    included: no node is added or changed. *)
Theorem close_deletes_registration (sid : nat) (id : string) (w : world)
    (slot active reg : znode) :
  consumer_path id →
  nodes w !! (id +:+ "/item") = Some slot →
  nodes w !! (id +:+ "/active") = Some active →
  nodes w !! id = Some reg →
  children (nodes w) (id +:+ "/item") = [] →
  children (nodes w) (id +:+ "/active") = [] →
  (∀ x, x ∈ children (nodes w) id → x = "item" ∨ x = "active") →
  let w' := set_nodes w (delete id (delete (id +:+ "/active")
                                      (delete (id +:+ "/item") (nodes w)))) in
  run sid (close {| _id := Some id |}) w =
    (Returned closed_consumer, w',
     [(Delete (id +:+ "/item") (-1), inr RUnit);
      (Delete (id +:+ "/active") (-1), inr RUnit);
      (Delete id (-1), inr RUnit)]) ∧
  data_at (slot_path id) w' = None ∧
  ∀ k n, nodes w' !! k = Some n → nodes w !! k = Some n.
Proof.
  intros Hid Hslot Hactive Hreg Hleaf1 Hleaf2 Hkids w'.
  pose proof (consumer_path_not_root id Hid) as Hroot.
  assert (Hne : id +:+ "/item" ≠ id +:+ "/active").
  { intros Heq. by apply (inj (String.app id)) in Heq. }
  assert (Hne1 : id +:+ "/item" ≠ id) by (by apply str_app_ne).
  assert (Hne2 : id +:+ "/active" ≠ id) by (by apply str_app_ne).
  split; [|split].
  - unfold run, close, zk_delete, call_unit.
    cbn [_fullpath _id bind run_with interfere tail].
    rewrite exec_delete_any, Hslot, Hleaf1.
    cbn [bind run_with interfere tail].
    rewrite exec_delete_any. cbn [nodes set_nodes].
    rewrite lookup_delete_ne, Hactive by done.
    assert (Hleaf2' : children (delete (id +:+ "/item") (nodes w))
                        (id +:+ "/active") = []).
    { apply (children_nil_mono (nodes w)); [|done].
      intros k [x Hx]. apply lookup_delete_Some in Hx as [_ Hx]. by eauto. }
    cbn [nodes set_nodes]. rewrite Hleaf2'.
    cbn [bind run_with interfere tail].
    rewrite exec_delete_any. cbn [nodes set_nodes].
    rewrite (lookup_delete_ne _ (id +:+ "/active") id) by done.
    rewrite (lookup_delete_ne _ (id +:+ "/item") id) by done.
    rewrite Hreg.
    assert (children (delete (id +:+ "/active")
                        (delete (id +:+ "/item") (nodes w))) id = []) as ->.
    { destruct (children (delete (id +:+ "/active")
                            (delete (id +:+ "/item") (nodes w))) id)
        as [|x xs] eqn:Hxs; [done|].
      assert (Hx : x ∈ children (delete (id +:+ "/active")
                                   (delete (id +:+ "/item") (nodes w))) id)
        by (rewrite Hxs; left).
      pose proof (children_lookup _ _ _ Hx) as Hk.
      rewrite child_path_sub in Hk by done.
      apply (children_mono (nodes w)) in Hx.
      2:{ intros k [y Hy]. apply lookup_delete_Some in Hy as [_ Hy].
          apply lookup_delete_Some in Hy as [_ Hy]. by eauto. }
      destruct (Hkids x Hx) as [-> | ->].
      - rewrite lookup_delete_ne, lookup_delete_eq in Hk by (by apply not_eq_sym).
        by apply is_Some_None in Hk.
      - rewrite lookup_delete_eq in Hk. by apply is_Some_None in Hk. }
    reflexivity.
  - unfold data_at, slot_path, w'. cbn.
    rewrite !lookup_delete_ne by (by apply not_eq_sym).
    by rewrite lookup_delete_eq.
  - intros k n. unfold w'. cbn.
    intros [_ [_ [_ H]%lookup_delete_Some]%lookup_delete_Some]%lookup_delete_Some.
    done.
Qed.


Lemma close_deletes_registration_witness :
  let id := "/queue/consumers/consumer-0000000000" in
  let w' := set_nodes w_held (delete id (delete (id +:+ "/active")
                                (delete (id +:+ "/item") (nodes w_held)))) in
  run 2 (close {| _id := Some id |}) w_held =
    (Returned closed_consumer, w',
     [(Delete (id +:+ "/item") (-1), inr RUnit);
      (Delete (id +:+ "/active") (-1), inr RUnit);
      (Delete id (-1), inr RUnit)]) ∧
  data_at (slot_path id) w' = None ∧
  ∀ k n, nodes w' !! k = Some n → nodes w_held !! k = Some n.
Proof.
  apply (close_deletes_registration 2 "/queue/consumers/consumer-0000000000"
           w_held
           (write_data (fresh_node "" 0 None) "job-a")
           (fresh_node "" 0 (Some 2))
           (bump_cversion (bump_cversion (fresh_node "" 0 None)))).
  - by exists "consumer-0000000000".
  - vm_compute. reflexivity.
  - vm_compute. reflexivity.
  - vm_compute. reflexivity.
  - vm_compute. reflexivity.
  - vm_compute. reflexivity.
  - intros x Hx. vm_compute in Hx.
    repeat (apply elem_of_cons in Hx as [->|Hx]; [by auto|]).
    by apply elem_of_nil in Hx.
Defined.

(** X13. When the active marker is gone (the session has ended) and the
    slot is there, [close()] deletes the slot, with what it holds, and then
    raises [NoNodeException] from the delete of the marker: the registration
    node is left, and the identity is not cleared. Every later [close()]
    raises [NoNodeException] at its first delete and changes nothing. *)
Theorem close_after_expiry (sid : nat) (id : string) (w : world)
    (slot : znode) :
  nodes w !! (id +:+ "/item") = Some slot →
  children (nodes w) (id +:+ "/item") = [] →
  nodes w !! (id +:+ "/active") = None →
  let w' := set_nodes w (delete (id +:+ "/item") (nodes w)) in
  run sid (close {| _id := Some id |}) w =
    (Raised NoNodeException, w',
     [(Delete (id +:+ "/item") (-1), inr RUnit);
      (Delete (id +:+ "/active") (-1), inl NoNodeException)]) ∧
  nodes w' !! id = nodes w !! id ∧
  ∀ sid',
    run sid' (close {| _id := Some id |}) w' =
      (Raised NoNodeException, w',
       [(Delete (id +:+ "/item") (-1), inl NoNodeException)]).
Proof.
  intros Hslot Hleaf Hactive w'.
  assert (Hne : id +:+ "/item" ≠ id +:+ "/active").
  { intros Heq. by apply (inj (String.app id)) in Heq. }
  split; [|split].
  - unfold run, close, zk_delete, call_unit.
    cbn [_fullpath _id bind run_with interfere tail].
    rewrite exec_delete_any, Hslot, Hleaf.
    cbn [bind run_with interfere tail].
    rewrite exec_delete_any. cbn [nodes set_nodes].
    rewrite lookup_delete_ne, Hactive by done. reflexivity.
  - unfold w'. cbn. rewrite lookup_delete_ne; [done|]. by apply str_app_ne.
  - intros sid'. unfold run, close, zk_delete, call_unit.
    cbn [_fullpath _id bind run_with interfere tail].
    rewrite exec_delete_any. unfold w'. cbn [nodes set_nodes].
    rewrite lookup_delete_eq. reflexivity.
Qed.

Lemma close_after_expiry_witness :
  let id := "/queue/consumers/consumer-0000000000" in
  let w' := set_nodes (expire 2 w_held)
              (delete (id +:+ "/item") (nodes (expire 2 w_held))) in
  run 2 (close {| _id := Some id |}) (expire 2 w_held) =
    (Raised NoNodeException, w',
     [(Delete (id +:+ "/item") (-1), inr RUnit);
      (Delete (id +:+ "/active") (-1), inl NoNodeException)]) ∧
  nodes w' !! id = nodes (expire 2 w_held) !! id ∧
  ∀ sid',
    run sid' (close {| _id := Some id |}) w' =
      (Raised NoNodeException, w',
       [(Delete (id +:+ "/item") (-1), inl NoNodeException)]).
Proof.
  apply (close_after_expiry 2 "/queue/consumers/consumer-0000000000"
           (expire 2 w_held) (write_data (fresh_node "" 0 None) "job-a")).
  - vm_compute. reflexivity.
  - vm_compute. reflexivity.
  - vm_compute. reflexivity.
Defined.

(** X15. With exactly one candidate, an item node that is empty and not yet
    300 seconds old, a blocking [reserve()] alone (the clock standing still)
    goes round as was meant: it acquires the lock, lists with a watch, reads
    the node and the clock, waits once and releases the lock, leaving the
    world as it was; and so in every round. *)
Theorem blocking_reserve_one_candidate (sid fuel : nat) (id c0 : string)
    (n : znode) (w : world) :
  is_Some (nodes w !! "/queue/items") →
  sorted (children (nodes w) "/queue/items") = [c0] →
  nodes w !! item_path c0 = Some n →
  data n = "" →
  (clock w - 300 ≤ ctime (zstat n))%Z →
  run sid (reserve fuel {| _id := Some id |} true) w =
    (Unfinished, w,
     mjoin (replicate fuel
       [(Cv_acquire, inr RUnit);
        (GetChildren "/queue/items" true,
         inr (RChildren (children (nodes w) "/queue/items")));
        (Get (item_path c0), inr (RData "" (zstat n)));
        (Time_time, inr (RTime (clock w)));
        (Cv_wait, inr RUnit);
        (Cv_release, inr RUnit)])).
Proof.
  intros [dir Hdir] Hsorted Hn Hdata Hyoung.
  induction fuel as [|fuel IH]; [reflexivity|].
  cbn [reserve _blocking_reserve] in *. rewrite run_bind, run_cv_acquire.
  cbn beta iota zeta. rewrite run_bind, run_get_children.
  cbn [nodes set_cv]. rewrite Hdir. cbn beta iota zeta. rewrite Hsorted.
  cbn [blocking_scan _fullpath _id bind]. fold (item_path c0).
  unfold run at 1, _move, zk_get, time_time, cv_wait, cv_release, call_unit.
  cbn [bind try_except run_with interfere tail].
  rewrite (exec_get_Some sid _ n) by done. rewrite Hdata.
  cbn [truthy bind try_except run_with interfere tail].
  rewrite exec_time. cbn [clock set_cv bind try_except run_with interfere tail].
  apply Z.ltb_ge in Hyoung. rewrite Hyoung.
  cbn [truthy bind try_except run_with interfere tail].
  unfold exec at 1. cbn [cv set_cv truthy bind try_except run_with interfere tail].
  unfold exec at 1. cbn [cv set_cv truthy bind try_except run_with interfere tail].
  assert (set_cv (set_cv w (S (cv w))) (cv w) = w) as -> by (by destruct w).
  fold (run sid (_blocking_reserve fuel {| _id := Some id |}) w).
  rewrite IH. reflexivity.
Qed.

Lemma blocking_reserve_one_candidate_witness :
  run 2 (reserve 3 consumer0 true) w_stalled =
    (Unfinished, w_stalled,
     mjoin (replicate 3
       [(Cv_acquire, inr RUnit);
        (GetChildren "/queue/items" true,
         inr (RChildren (children (nodes w_stalled) "/queue/items")));
        (Get (item_path "item-0000000000"),
         inr (RData "" (zstat (fresh_node "" 0 None))));
        (Time_time, inr (RTime (clock w_stalled)));
        (Cv_wait, inr RUnit);
        (Cv_release, inr RUnit)])).
Proof.
  apply (blocking_reserve_one_candidate 2 3
           "/queue/consumers/consumer-0000000000" "item-0000000000"
           (fresh_node "" 0 None) w_stalled).
  - vm_compute. eauto.
  - vm_compute. reflexivity.
  - vm_compute. reflexivity.
  - reflexivity.
  - vm_compute. discriminate.
Defined.

(** X16. Where /queue/items is missing, [reserve()] raises
    [NoNodeException] from its listing, in both modes; in blocking mode it
    leaves the lock acquired. *)
Theorem reserve_without_directory (sid fuel : nat) (self : Consumer)
    (w : world) :
  nodes w !! "/queue/items" = None →
  run sid (reserve (S fuel) self false) w =
    (Raised NoNodeException, w,
     [(GetChildren "/queue/items" false, inl NoNodeException)]) ∧
  run sid (reserve (S fuel) self true) w =
    (Raised NoNodeException, set_cv w (S (cv w)),
     [(Cv_acquire, inr RUnit);
      (GetChildren "/queue/items" true, inl NoNodeException)]).
Proof.
  intros Hdir. split.
  - cbn [reserve _simple_reserve]. by rewrite run_bind, run_get_children, Hdir.
  - cbn [reserve _blocking_reserve]. rewrite run_bind, run_cv_acquire.
    cbn beta iota zeta. rewrite run_bind, run_get_children.
    cbn [nodes set_cv]. by rewrite Hdir.
Qed.

Lemma reserve_without_directory_witness :
  run 2 (reserve 1 consumer0 false) empty_world =
    (Raised NoNodeException, empty_world,
     [(GetChildren "/queue/items" false, inl NoNodeException)]) ∧
  run 2 (reserve 1 consumer0 true) empty_world =
    (Raised NoNodeException, set_cv empty_world (S (cv empty_world)),
     [(Cv_acquire, inr RUnit);
      (GetChildren "/queue/items" true, inl NoNodeException)]).
Proof. apply (reserve_without_directory 2 0 consumer0 empty_world). reflexivity. Defined.

(** *** A late write; [GarbageCollector.__init__] *)

Lemma child_name_longer (p k c : string) :
  child_name p k = Some c → String.length p < String.length k.
Proof.
  intros Hk. pose proof (child_name_nonempty _ _ _ Hk) as Hne.
  apply child_name_Some in Hk as [-> _].
  unfold child_prefix. case_decide as Hp.
  - subst p. rewrite str_app_length. destruct c; [done|]. simpl. lia.
  - rewrite !str_app_length. simpl. lia.
Qed.

Lemma pool_run_cons {A : Type} (s : step) (sched : list step)
    (cfg : world * pool A) :
  pool_run (s :: sched) cfg = pool_run sched (pool_step cfg s).
Proof. reflexivity. Qed.

(** X14. A producer creates its item node and stalls for more than 300
    seconds; a consumer reads the empty node and the clock; the producer
    writes its payload; the consumer's delete, which names no version, removes
    the node. Both methods return, [put] without an error and [_move] with
    [None]; the payload is in the store no more, and the consumer's slot is as
    it was. *)
Theorem late_write_is_dropped (sp sc fuel : nat) (value dest : string)
    (dir : znode) (d : Z) (w : world) :
  let name := item_path ("item-" +:+ pad10 (cversion (zstat dir))) in
  nodes w !! "/queue/items" = Some dir →
  ephemeralOwner (zstat dir) = None →
  nodes w !! name = None →
  tree (nodes w) →
  dest ≠ name → dest ≠ "/queue/items" →
  (300 < d)%Z →
  let cfg :=
    pool_run [Run 0; Others (tick d); Run 1; Run 1; Run 0; Run 1]
      (w, [(sp, producer_job (S fuel) value); (sc, consumer_job name dest)]) in
  cfg.2 = [(sp, Ret (inl ())); (sc, Ret (inr None))] ∧
  nodes cfg.1 !! name = None ∧
  nodes cfg.1 !! dest = nodes w !! dest.
Proof.
  intros name Hdir Hplain Hfree Ht Hdest Hdest' Hd cfg.
  assert (Hne : "/queue/items" ≠ name) by (unfold name, item_path; simpl; discriminate).
  assert (Hleaf : children (nodes w) name = []).
  { apply tree_absent_leaf; [done| |done]. unfold name, item_path. simpl. discriminate. }
  assert (Hcfg : ∃ wf,
    cfg = (wf, [(sp, Ret (inl ())); (sc, Ret (inr None))]) ∧
    nodes wf = delete name
                 (<[name := write_data (fresh_node "" (clock w) None) value]>
                    (<["/queue/items" := bump_cversion dir]> (nodes w)))).
  2:{ destruct Hcfg as (wf & -> & Hwf). cbn [fst snd]. rewrite Hwf.
      split; [reflexivity|]. split; [by rewrite lookup_delete_eq|].
      rewrite lookup_delete_ne by (by apply not_eq_sym).
      rewrite lookup_insert_ne by (by apply not_eq_sym).
      rewrite lookup_insert_ne by (by apply not_eq_sym). done. }
  subst cfg.
  (* the producer creates the node *)
  rewrite pool_run_cons.
  unfold pool_step at 1, producer_job, put. cbn [retry_on]. fold (put fuel value).
  unfold put_body, zk_create. cbn [fst snd lookup list_lookup bind try_except].
  rewrite (exec_create_sequence sp "/queue/items/item-" "" SEQUENCE w dir);
    [|done..].
  change (parent_of "/queue/items/item-") with "/queue/items".
  change ("/queue/items/item-" +:+ pad10 (cversion (zstat dir))) with name.
  change (Z.testbit SEQUENCE 0) with false. cbn iota.
  cbn [bind try_except insert list_insert].
  (* five minutes pass *)
  rewrite pool_run_cons. cbn [pool_step fst snd].
  (* the consumer reads the empty node and the clock *)
  rewrite pool_run_cons.
  unfold pool_step at 1, consumer_job, _move, zk_get.
  cbn [fst snd lookup list_lookup bind try_except].
  rewrite (exec_get_Some sc name (fresh_node "" (clock w) None))
    by (cbn; by rewrite lookup_insert_eq).
  cbn [data zstat fresh_node truthy bind try_except insert list_insert time_time].
  rewrite pool_run_cons.
  unfold pool_step at 1. cbn [fst snd lookup list_lookup bind try_except].
  rewrite exec_time.
  cbn [clock tick set_nodes ctime bind try_except insert list_insert].
  assert ((clock w <? clock w + d - 300)%Z = true) as -> by (apply Z.ltb_lt; lia).
  cbn [bind try_except zk_delete call_unit].
  (* the producer writes its payload *)
  rewrite pool_run_cons.
  unfold pool_step at 1, zk_set, call_unit.
  cbn [fst snd lookup list_lookup bind try_except].
  unfold exec at 1, store_set. cbn [nodes tick set_nodes].
  rewrite lookup_insert_eq.
  change (version_ok 0 (fresh_node "" (clock w) None)) with true.
  cbn [bind try_except insert list_insert]. rewrite insert_insert_eq.
  (* the consumer drops the node *)
  rewrite pool_run_cons.
  unfold pool_step at 1. cbn [fst snd lookup list_lookup bind try_except].
  rewrite exec_delete_any. cbn [nodes set_nodes].
  rewrite lookup_insert_eq.
  assert (children (<[name := write_data (fresh_node "" (clock w) None) value]>
                      (<["/queue/items" := bump_cversion dir]> (nodes w))) name
          = []) as ->.
  { apply Permutation_nil_r.
    rewrite children_insert_same, children_insert_same; [by rewrite Hleaf|..].
    - left. by eauto.
    - right. destruct (child_name name name) eqn:Hc; [|done].
      apply child_name_longer in Hc. lia. }
  cbn [bind try_except insert list_insert pool_run foldl fst snd nodes set_nodes].
  eexists. split; [reflexivity|]. reflexivity.
Qed.

Lemma late_write_is_dropped_witness :
  let name := item_path ("item-" +:+ pad10 0) in
  let cfg :=
    pool_run [Run 0; Others (tick 301); Run 1; Run 1; Run 0; Run 1]
      (w_idle,
       [(1, producer_job 1 "job-a");
        (2, consumer_job name "/queue/consumers/consumer-0000000000/item")]) in
  cfg.2 = [(1, Ret (inl ())); (2, Ret (inr None))] ∧
  nodes cfg.1 !! name = None ∧
  nodes cfg.1 !! "/queue/consumers/consumer-0000000000/item"
  = nodes w_idle !! "/queue/consumers/consumer-0000000000/item".
Proof.
  apply (late_write_is_dropped 1 2 0 "job-a"
           "/queue/consumers/consumer-0000000000/item"
           (fresh_node "" 0 None) 301 w_idle).
  - vm_compute. reflexivity.
  - reflexivity.
  - vm_compute. reflexivity.
  - intros k Hk Hroot.
    assert (Hin : k ∈ (map_to_list (nodes w_idle)).*1).
    { destruct Hk as [x Hx]. apply list_elem_of_fmap. exists (k, x).
      split; [done|]. by apply elem_of_map_to_list. }
    vm_compute in Hin.
    repeat (apply elem_of_cons in Hin as [->|Hin]; [by vm_compute; eauto|]).
    by apply elem_of_nil in Hin.
  - discriminate.
  - discriminate.
  - lia.
Defined.

(** X4. On a store that has its root, and where /queue, if it is there, is
    not ephemeral, [GarbageCollector.__init__] returns; /queue,
    /queue/consumers and /queue/partial are there afterwards; the store was
    only extended by these three, so /queue/items is still missing if it was;
    and a second run changes nothing. *)
Theorem GarbageCollector_init_sets_up (sid : nat) (w : world) (root : znode) :
  nodes w !! "/" = Some root →
  ephemeralOwner (zstat root) = None →
  persistent "/queue" w →
  ∃ w' tr,
    run sid GarbageCollector_init w = (Returned (), w', tr) ∧
    (∀ p, p ∈ ["/queue"; "/queue/consumers"; "/queue/partial"] →
          is_Some (nodes w' !! p)) ∧
    extends_by ["/queue"; "/queue/consumers"; "/queue/partial"] w w' ∧
    (nodes w !! "/queue/items" = None → nodes w' !! "/queue/items" = None) ∧
    ∀ sid',
      run sid' GarbageCollector_init w'
      = (Returned (), w',
         [(Create "/queue" "" 0, inl NodeExistsException);
          (Create "/queue/consumers" "" 0, inl NodeExistsException);
          (Create "/queue/partial" "" 0, inl NodeExistsException)]).
Proof.
  intros Hroot Hplain Hq. unfold GarbageCollector_init.
  destruct (ensure_exists_extends sid "/queue" "" w root Hroot Hplain)
    as (w1 & r1 & Hrun1 & Hext1 & Hn1).
  destruct (extends_by_node _ _ _ _ Hext1 Hn1 Hq) as (q1 & Hq1 & Hq1p).
  destruct (ensure_exists_extends sid "/queue/consumers" "" w1 q1 Hq1 Hq1p)
    as (w2 & r2 & Hrun2 & Hext2 & Hn2).
  destruct (keeps_node w1 w2 "/queue" q1) as (q2 & Hq2 & Hq2p);
    [apply Hext2|done|done|].
  destruct (ensure_exists_extends sid "/queue/partial" "" w2 q2 Hq2 Hq2p)
    as (w3 & r3 & Hrun3 & Hext3 & Hn3).
  pose proof (extends_by_trans _ _ _ _ _ Hext1 Hext2) as Hext12.
  pose proof (extends_by_trans _ _ _ _ _ Hext12 Hext3) as Hext.
  cbn [app] in Hext.
  rewrite run_bind, Hrun1. cbn beta iota zeta.
  rewrite run_bind, Hrun2. cbn beta iota zeta. rewrite Hrun3.
  eexists _, _. split; [reflexivity|].
  destruct (keeps_node w2 w3 "/queue" q2) as (q3 & Hq3 & Hq3p);
    [apply Hext3|done|done|].
  destruct (keeps_node w w3 "/" root) as (r' & Hr3 & Hr3p);
    [apply Hext|done|done|].
  assert (Hc2 : is_Some (nodes w2 !! "/queue/consumers")).
  { destruct (nodes w1 !! "/queue/consumers") eqn:Hi; [by subst; eauto|by eauto]. }
  assert (Hc3 : is_Some (nodes w3 !! "/queue/consumers")).
  { destruct Hc2 as [c Hc]. destruct Hext3 as (Hk & _).
    destruct (Hk _ _ Hc) as (c' & ? & _). by eauto. }
  assert (Hp3 : is_Some (nodes w3 !! "/queue/partial")).
  { destruct (nodes w2 !! "/queue/partial") eqn:Hi; [by subst; eauto|by eauto]. }
  split; [|split; [done|split]].
  - intros p Hp. rewrite !elem_of_cons, elem_of_nil in Hp.
    destruct Hp as [->|[->|[->|[]]]]; by eauto.
  - intros Hno. destruct (nodes w3 !! "/queue/items") as [x|] eqn:Hx; [|done].
    destruct Hext as (_ & _ & _ & Hg & _).
    destruct (Hg "/queue/items") as [Hin|Hin]; [by eauto| |].
    + rewrite !elem_of_cons, elem_of_nil in Hin.
      destruct Hin as [H|[H|[H|[]]]]; discriminate H.
    + rewrite Hno in Hin. by apply is_Some_None in Hin.
  - intros sid'. rewrite run_bind.
    rewrite (ensure_exists_again sid' "/queue" "" w3 r') by eauto.
    cbn beta iota zeta. rewrite run_bind.
    rewrite (ensure_exists_again sid' "/queue/consumers" "" w3 q3) by eauto.
    cbn beta iota zeta.
    by rewrite (ensure_exists_again sid' "/queue/partial" "" w3 q3) by eauto.
Qed.

Lemma GarbageCollector_init_sets_up_witness :
  ∃ w' tr,
    run 3 GarbageCollector_init empty_world = (Returned (), w', tr) ∧
    (∀ p, p ∈ ["/queue"; "/queue/consumers"; "/queue/partial"] →
          is_Some (nodes w' !! p)) ∧
    extends_by ["/queue"; "/queue/consumers"; "/queue/partial"] empty_world w' ∧
    (nodes empty_world !! "/queue/items" = None →
     nodes w' !! "/queue/items" = None) ∧
    ∀ sid',
      run sid' GarbageCollector_init w'
      = (Returned (), w',
         [(Create "/queue" "" 0, inl NodeExistsException);
          (Create "/queue/consumers" "" 0, inl NodeExistsException);
          (Create "/queue/partial" "" 0, inl NodeExistsException)]).
Proof.
  apply (GarbageCollector_init_sets_up 3 empty_world root_node).
  - reflexivity.
  - reflexivity.
  - intros n Hn. vm_compute in Hn. discriminate Hn.
Defined.

(** *** The adapter on a connection that drops *)

Lemma run_on_nil {A : Type} (sid : nat) (p : prog A) (w : world) :
  run_on [] sid p w = run sid p w.
Proof.
  revert w. induction p as [a|e|c k IH|]; intros w; try done.
  unfold run. cbn [run_on run_with interfere tail head default].
  replace (if is_store_call c then Delivered else Delivered) with Delivered
    by (by destruct (is_store_call c)).
  replace (if is_store_call c then @nil fate else []) with (@nil fate)
    by (by destruct (is_store_call c)).
  cbn [exec_on]. destruct (exec sid c w) as [r w2].
  rewrite IH. done.
Qed.

(** X17. On a connection that does not drop (the store of this model never
    answers [ConnectionLossException]), a method run through the adapter, each
    of its store calls under the retry of [__getattr__], runs exactly as the
    method over the bare calls, whatever the other clients do: the same
    result, the same world, the same calls. *)
Theorem adapter_is_transparent {A : Type} (env : list (world → world))
    (sid fuel : nat) (p : prog A) (w : world) :
  run_with env sid (via_adapter (S fuel) p) w = run_with env sid p w.
Proof.
  revert env w. induction p as [a|e|c k IH|]; intros env w; try done.
  cbn [via_adapter]. destruct (is_store_call c); cbn [retry_call run_with].
  - pose proof (exec_never_loses_connection sid c (interfere env w)) as Hc.
    destruct (exec sid c (interfere env w)) as [[e|r] w2]; [|by rewrite IH].
    destruct e; try (by rewrite IH). done.
  - destruct (exec sid c (interfere env w)) as [r w2]. by rewrite IH.
Qed.

Lemma run_on_store_call {A : Type} (f : fate) (fates : list fate) (sid : nat)
    (c : call) (k : result → prog A) (w : world) :
  is_store_call c = true →
  run_on (f :: fates) sid (Call c k) w =
    let '(r, w2) := exec_on f sid c w in
    let '(o, w3, tr) := run_on fates sid (k r) w2 in
    (o, w3, (c, r) :: tr).
Proof. intros Hc. cbn [run_on]. by rewrite Hc. Qed.

Lemma run_on_sleep {A : Type} (fates : list fate) (sid : nat)
    (k : result → prog A) (w : world) :
  run_on fates sid (Call Time_sleep k) w =
    let '(o, w3, tr) := run_on fates sid (k (inr RUnit)) w in
    (o, w3, (Time_sleep, inr RUnit) :: tr).
Proof. reflexivity. Qed.

(** A request that did not reach the store is made again. *)
Lemma retry_call_lost {A : Type} (f : fate) (fates : list fate) (sid n : nat)
    (c : call) (k : result → prog A) (w : world) :
  is_store_call c = true →
  f ≠ Delivered →
  run_on (f :: fates) sid (retry_call c k (S n)) w =
    let w1 := (exec_on f sid c w).2 in
    let '(o, w3, tr) := run_on fates sid (retry_call c k n) w1 in
    (o, w3, (c, inl ConnectionLossException) :: (Time_sleep, inr RUnit) :: tr).
Proof.
  intros Hc Hf. cbn [retry_call]. rewrite run_on_store_call by done.
  destruct f; [done|..]; cbn [exec_on snd]; rewrite run_on_sleep;
    by destruct (run_on fates sid (retry_call c k n) _) as [[o w3] tr].
Qed.

Lemma retry_call_delivered {A : Type} (fates : list fate) (sid n : nat)
    (c : call) (k : result → prog A) (w : world) :
  is_store_call c = true →
  run_on (Delivered :: fates) sid (retry_call c k (S n)) w =
    let '(r, w2) := exec sid c w in
    let '(o, w3, tr) := run_on fates sid (k r) w2 in
    (o, w3, (c, r) :: tr).
Proof.
  intros Hc. cbn [retry_call]. rewrite run_on_store_call by done.
  cbn [exec_on].
  pose proof (exec_never_loses_connection sid c w) as Hloss.
  destruct (exec sid c w) as [[e|r] w2]; [|done].
  destruct e; try done.
Qed.

Lemma run_on_nil_store_call {A : Type} (sid n : nat) (c : call)
    (k : result → prog A) (w : world) :
  is_store_call c = true →
  run_on [] sid (retry_call c k (S n)) w =
    let '(r, w2) := exec sid c w in
    let '(o, w3, tr) := run_on [] sid (k r) w2 in
    (o, w3, (c, r) :: tr).
Proof.
  intros Hc. cbn [retry_call run_on]. rewrite Hc.
  cbn [head default tail exec_on].
  pose proof (exec_never_loses_connection sid c w) as Hloss.
  destruct (exec sid c w) as [[e|r] w2]; [|done].
  destruct e; try done.
Qed.

(** X18. When requests are lost only before they reach the store, and the
    retry has more rounds than there are losses, a method run through the
    adapter ends as it does on a connection that does not drop: with the same
    result and in the same world. *)
Theorem lost_requests_are_harmless {A : Type} (fates : list fate)
    (sid fuel : nat) (p : prog A) (w : world) :
  Forall (λ f, f ≠ LostAfter) fates →
  length fates < fuel →
  (run_on fates sid (via_adapter fuel p) w).1 = (run sid p w).1.
Proof.
  intros Hfates Hfuel. revert fates w Hfates Hfuel.
  induction p as [a|e|c k IH|]; intros fates w Hfates Hfuel; try done.
  cbn [via_adapter]. destruct (is_store_call c) eqn:Hc.
  - assert (Hloop : ∀ n fates w,
              n ≤ fuel → length fates < n → Forall (λ f, f ≠ LostAfter) fates →
              (run_on fates sid (retry_call c (λ r, via_adapter fuel (k r)) n) w).1
              = (run sid (Call c k) w).1).
    { clear fates w Hfates Hfuel. intros n fates. revert n.
      induction fates as [|f fates IHf]; intros n w Hn Hlen Hok.
      - destruct n as [|n]; [simpl in Hlen; lia|].
        rewrite run_on_nil_store_call by done.
        unfold run. cbn [run_with interfere tail].
        destruct (exec sid c w) as [r w2].
        specialize (IH r [] w2 (Forall_nil_2 _)).
        unfold run in IH.
        destruct (run_on [] sid (via_adapter fuel (k r)) w2) as [[o w3] tr].
        destruct (run_with [] sid (k r) w2) as [[o' w3'] tr'].
        cbn in *. assert (0 < fuel) as Hpos by lia.
        specialize (IH Hpos). by injection IH as -> ->.
      - destruct n as [|n]; [simpl in Hlen; lia|].
        apply Forall_cons in Hok as [Hf Hok]. simpl in Hlen.
        destruct f; [| |done].
        + rewrite retry_call_delivered by done.
          unfold run. cbn [run_with interfere tail].
          destruct (exec sid c w) as [r w2].
          specialize (IH r fates w2 Hok). unfold run in IH.
          destruct (run_on fates sid (via_adapter fuel (k r)) w2) as [[o w3] tr].
          destruct (run_with [] sid (k r) w2) as [[o' w3'] tr'].
          cbn in *. assert (length fates < fuel) as Hlt by lia.
          specialize (IH Hlt). by injection IH as -> ->.
        + rewrite retry_call_lost by done. cbn [exec_on snd].
          specialize (IHf n w). 
          destruct (run_on fates sid (retry_call c _ n) w) as [[o w3] tr].
          cbn in *. apply IHf; [lia|lia|done]. }
    by apply Hloop.
  - unfold run. cbn [run_on run_with interfere tail]. rewrite Hc.
    cbn [exec_on]. destruct (exec sid c w) as [r w2].
    specialize (IH r fates w2 Hfates Hfuel). unfold run in IH.
    destruct (run_on fates sid (via_adapter fuel (k r)) w2) as [[o w3] tr].
    destruct (run_with [] sid (k r) w2) as [[o' w3'] tr'].
    cbn in *. by injection IH as -> ->.
Qed.

Lemma pretty_N_go_head (x : N) :
  (0 < x)%N → ∀ s, ∃ d rest, pretty_N_go x s = String d rest ∧ d ≠ "0"%char.
Proof.
  induction (N.lt_wf_0 x) as [x _ IH]; intros Hx s.
  rewrite pretty_N_go_step by done.
  destruct (N.eq_0_gt_0_cases (x `div` 10)) as [Hq|Hq].
  - rewrite Hq, pretty_N_go_0. eexists _, _. split; [done|].
    assert (x < 10)%N as Hlt by (by apply N.div_small_iff in Hq).
    rewrite N.mod_small by done.
    assert (x = 1 ∨ x = 2 ∨ x = 3 ∨ x = 4 ∨ x = 5 ∨ x = 6
            ∨ x = 7 ∨ x = 8 ∨ x = 9)%N as Hdigit by lia.
    destruct Hdigit as [->|[->|[->|[->|[->|[->|[->|[->| ->]]]]]]]]; done.
  - apply IH; [|done]. by apply N.div_lt.
Qed.

Lemma pretty_nat_head (n : nat) :
  pretty n = "0" ∨ ∃ d rest, pretty n = String d rest ∧ d ≠ "0"%char.
Proof.
  unfold pretty, pretty_nat, pretty, pretty_N. case_decide as Hn; [by left|].
  right. apply pretty_N_go_head. lia.
Qed.

Lemma zeros_pretty_inj (a b n m : nat) :
  zeros a +:+ pretty n = zeros b +:+ pretty m → n = m.
Proof.
  revert b. induction a as [|a IH]; intros b Heq.
  - destruct b as [|b]; [by apply (inj pretty)|].
    change (pretty n = String "0" (zeros b +:+ pretty m)) in Heq.
    destruct (pretty_nat_head n) as [Hn|(d & rest & Hn & Hd)].
    + rewrite Hn in Heq. injection Heq as Heq.
      destruct b; [|discriminate Heq].
      change ("" = pretty m) in Heq.
      destruct (pretty_nat_head m) as [Hm|(d & rest & Hm & _)]; congruence.
    + rewrite Hn in Heq. by injection Heq as -> _.
  - destruct b as [|b].
    + change (String "0" (zeros a +:+ pretty n) = pretty m) in Heq.
      destruct (pretty_nat_head m) as [Hm|(d & rest & Hm & Hd)].
      * rewrite Hm in Heq. injection Heq as Heq.
        destruct a; [|discriminate Heq].
        change (pretty n = "") in Heq.
        destruct (pretty_nat_head n) as [Hn|(d & rest & Hn & _)]; congruence.
      * rewrite Hm in Heq. by injection Heq as <- _.
    + change (String "0" (zeros a +:+ pretty n)
              = String "0" (zeros b +:+ pretty m)) in Heq.
      injection Heq as Heq. by apply (IH b).
Qed.

Lemma pad10_inj (n m : nat) : pad10 n = pad10 m → n = m.
Proof. unfold pad10. apply zeros_pretty_inj. Qed.

(** X19. [ensure_exists] through the adapter, the reply to its create lost
    after the store has applied the request: the retry makes the create again
    and is answered [NodeExistsException], which [ensure_exists] passes over;
    it returns, in the world that it leaves on a connection that does not
    drop. *)
Theorem ensure_exists_survives_lost_reply (sid fuel : nat)
    (name value : string) (w : world) (par : znode) :
  nodes w !! parent_of name = Some par →
  ephemeralOwner (zstat par) = None →
  (run sid (ensure_exists name value) w).1.1 = Returned () ∧
  run_on [LostAfter] sid (via_adapter (S (S fuel)) (ensure_exists name value)) w
  = (Returned (), (run sid (ensure_exists name value) w).1.2,
     [(Create name value 0, inl ConnectionLossException);
      (Time_sleep, inr RUnit);
      (Create name value 0, inl NodeExistsException)]).
Proof.
  intros Hpar Hplain.
  unfold run, ensure_exists, zk_create.
  cbn [bind try_except via_adapter is_store_call run_with interfere].
  rewrite retry_call_lost by done. cbn [exec_on snd].
  rewrite run_on_nil_store_call by done.
  rewrite (exec_create_plain sid name value 0 w par) by done.
  destruct (nodes w !! name) as [n|] eqn:Hn; cbn [fst snd].
  - rewrite (exec_create_plain sid name value 0 w par) by done.
    rewrite Hn. done.
  - assert (name ≠ parent_of name) as Hne by congruence.
    rewrite (exec_create_plain sid name value 0 _ (bump_cversion par));
      [|cbn; by rewrite lookup_insert_ne, lookup_insert_eq|done|done].
    cbn [nodes set_nodes]. rewrite lookup_insert_eq. done.
Qed.

Lemma ensure_exists_survives_lost_reply_witness :
  (run 1 (ensure_exists "/queue" "") empty_world).1.1 = Returned () ∧
  run_on [LostAfter] 1 (via_adapter 2 (ensure_exists "/queue" "")) empty_world
  = (Returned (), (run 1 (ensure_exists "/queue" "") empty_world).1.2,
     [(Create "/queue" "" 0, inl ConnectionLossException);
      (Time_sleep, inr RUnit);
      (Create "/queue" "" 0, inl NodeExistsException)]).
Proof.
  apply (ensure_exists_survives_lost_reply 1 0 "/queue" "" empty_world root_node).
  - reflexivity.
  - reflexivity.
Defined.

(** X20. [put] through the adapter, the reply to its create lost after the
    store has applied the request: the retry creates a second sequential node
    and [put] writes the value there and returns. The queue then lists two
    names more: the node of the lost reply, with the empty string, besides
    the node with the value. *)
Theorem put_duplicates_on_lost_reply (sid fuel fuel' : nat) (value : string)
    (w : world) (dir : znode) :
  let c0 := "item-" +:+ pad10 (cversion (zstat dir)) in
  let c1 := "item-" +:+ pad10 (S (cversion (zstat dir))) in
  nodes w !! "/queue/items" = Some dir →
  ephemeralOwner (zstat dir) = None →
  nodes w !! item_path c0 = None →
  nodes w !! item_path c1 = None →
  ∃ w',
    run_on [LostAfter] sid (via_adapter (S (S fuel)) (put (S fuel') value)) w
    = (Returned (), w',
       [(Create "/queue/items/item-" "" SEQUENCE, inl ConnectionLossException);
        (Time_sleep, inr RUnit);
        (Create "/queue/items/item-" "" SEQUENCE, inr (RPath (item_path c1)));
        (SetData (item_path c1) value 0, inr RUnit)]) ∧
    data_at (item_path c0) w' = Some "" ∧
    data_at (item_path c1) w' = Some value ∧
    children (nodes w') "/queue/items"
      ≡ₚ c1 :: c0 :: children (nodes w) "/queue/items".
Proof.
  intros c0 c1 Hdir Hplain Hfree0 Hfree1.
  assert (Hne : item_path c0 ≠ item_path c1).
  { intros Heq. apply item_path_inj in Heq.
    apply (inj (String.app "item-")) in Heq. apply pad10_inj in Heq. lia. }
  assert (Hd0 : "/queue/items" ≠ item_path c0)
    by (unfold item_path; simpl; discriminate).
  assert (Hd1 : "/queue/items" ≠ item_path c1)
    by (unfold item_path; simpl; discriminate).
  unfold put. cbn [retry_on]. unfold put_body, zk_create, zk_set, call_unit.
  cbn [bind try_except via_adapter is_store_call].
  rewrite retry_call_lost by done. cbn [exec_on snd].
  rewrite (exec_create_sequence sid "/queue/items/item-" "" SEQUENCE w dir);
    [|done..].
  change (parent_of "/queue/items/item-") with "/queue/items".
  change ("/queue/items/item-" +:+ pad10 (cversion (zstat dir)))
    with (item_path c0).
  change (Z.testbit SEQUENCE 0) with false. cbn iota. cbn [snd].
  rewrite run_on_nil_store_call by done.
  rewrite (exec_create_sequence sid "/queue/items/item-" "" SEQUENCE _
             (bump_cversion dir)); [| |done|done|].
  2:{ cbn. change (parent_of "/queue/items/item-") with "/queue/items".
      by rewrite lookup_insert_ne, lookup_insert_eq by (by apply not_eq_sym). }
  2:{ cbn. change ("/queue/items/item-" +:+ pad10 (S (cversion (zstat dir))))
        with (item_path c1).
      by rewrite !lookup_insert_ne by (by apply not_eq_sym). }
  change (parent_of "/queue/items/item-") with "/queue/items".
  change ("/queue/items/item-" +:+ pad10 (cversion (zstat (bump_cversion dir))))
    with (item_path c1).
  change (Z.testbit SEQUENCE 0) with false. cbn iota.
  cbn [bind try_except via_adapter is_store_call clock set_nodes nodes].
  rewrite run_on_nil_store_call by done.
  unfold exec, store_set. cbn [nodes set_nodes].
  rewrite lookup_insert_eq.
  change (version_ok 0 (fresh_node "" (clock w) None)) with true.
  cbn iota. cbn [via_adapter run_on].
  eexists. split; [reflexivity|]. unfold data_at. cbn [nodes set_nodes].
  split; [|split].
  - rewrite lookup_insert_ne by (by apply not_eq_sym).
    rewrite lookup_insert_ne by (by apply not_eq_sym).
    rewrite lookup_insert_ne by done.
    by rewrite lookup_insert_eq.
  - by rewrite lookup_insert_eq.
  - rewrite insert_insert_eq.
    rewrite children_insert_fresh.
    2:{ rewrite lookup_insert_ne by (by apply not_eq_sym).
        rewrite lookup_insert_ne by (by apply not_eq_sym).
        by rewrite lookup_insert_ne by done. }
    2:{ apply item_child; apply sequence_item. }
    rewrite children_insert_same by (left; rewrite lookup_insert_ne by done;
                                     rewrite lookup_insert_eq; by eauto).
    rewrite children_insert_fresh.
    2:{ by rewrite lookup_insert_ne by done. }
    2:{ apply item_child; apply sequence_item. }
    by rewrite children_insert_same by eauto.
Qed.

Lemma put_duplicates_on_lost_reply_witness :
  ∃ w',
    run_on [LostAfter] 1 (via_adapter 2 (put 1 "job-a")) w_idle
    = (Returned (), w',
       [(Create "/queue/items/item-" "" SEQUENCE, inl ConnectionLossException);
        (Time_sleep, inr RUnit);
        (Create "/queue/items/item-" "" SEQUENCE,
         inr (RPath (item_path ("item-" +:+ pad10 1))));
        (SetData (item_path ("item-" +:+ pad10 1)) "job-a" 0, inr RUnit)]) ∧
    data_at (item_path ("item-" +:+ pad10 0)) w' = Some "" ∧
    data_at (item_path ("item-" +:+ pad10 1)) w' = Some "job-a" ∧
    children (nodes w') "/queue/items"
      ≡ₚ ("item-" +:+ pad10 1) :: ("item-" +:+ pad10 0)
         :: children (nodes w_idle) "/queue/items".
Proof.
  apply (put_duplicates_on_lost_reply 1 0 0 "job-a" w_idle
           (fresh_node "" 0 None)).
  - vm_compute. reflexivity.
  - reflexivity.
  - vm_compute. reflexivity.
  - vm_compute. reflexivity.
Defined.

(** X21. [_move] through the adapter, of a node with a payload, the reply to
    its delete lost after the store has applied the request: the retry's
    delete finds no node, [_move] takes this for another consumer's
    reservation, empties the slot that it had just written and returns [None].
    The payload is then neither in the queue nor in the slot; the rest of the
    store is as it was. *)
Theorem move_loses_payload_on_lost_reply (sid fuel : nat) (src dest : string)
    (n nd : znode) (w : world) :
  nodes w !! src = Some n →
  data n ≠ "" →
  nodes w !! dest = Some nd →
  src ≠ dest →
  children (nodes w) src = [] →
  ∃ w',
    run_on [Delivered; Delivered; LostAfter] sid
      (via_adapter (S (S fuel)) (_move src dest)) w
    = (Returned None, w',
       [(Get src, inr (RData (data n) (zstat n)));
        (SetData dest (data n) (-1), inr RUnit);
        (Delete src (version (zstat n)), inl ConnectionLossException);
        (Time_sleep, inr RUnit);
        (Delete src (version (zstat n)), inl NoNodeException);
        (SetData dest "" (-1), inr RUnit)]) ∧
    nodes w' !! src = None ∧
    data_at dest w' = Some "" ∧
    ∀ k, k ≠ src → k ≠ dest → nodes w' !! k = nodes w !! k.
Proof.
  intros Hsrc Hdata Hdest Hne Hleaf.
  destruct n as [[|a v] st]; [done|]. cbn [data zstat] in *.
  unfold _move, zk_get, zk_set, zk_delete, call_unit.
  cbn [bind try_except via_adapter is_store_call].
  rewrite retry_call_delivered by done.
  rewrite (exec_get_Some sid src _ w Hsrc).
  cbn [data zstat truthy bind try_except via_adapter is_store_call].
  rewrite retry_call_delivered by done.
  rewrite exec_set_any, Hdest.
  cbn [bind try_except via_adapter is_store_call].
  rewrite retry_call_lost by done. cbn [exec_on].
  rewrite (exec_delete_version sid src {| data := String a v; zstat := st |})
    by (cbn; by rewrite lookup_insert_ne by (by apply not_eq_sym)).
  cbn [nodes set_nodes].
  assert (children (<[dest := write_data nd (String a v)]> (nodes w)) src = [])
    as -> by (by apply (children_insert_nil _ _ _ _ _ Hdest)).
  cbn [snd]. rewrite run_on_nil_store_call by done.
  unfold exec at 1, store_delete. cbn [nodes set_nodes].
  rewrite lookup_delete_eq.
  cbn [bind try_except via_adapter is_store_call].
  rewrite run_on_nil_store_call by done.
  rewrite exec_set_any. cbn [nodes set_nodes].
  rewrite lookup_delete_ne, lookup_insert_eq by done.
  cbn [bind try_except via_adapter run_on].
  eexists. split; [reflexivity|]. unfold data_at. cbn [nodes set_nodes].
  split; [|split].
  - rewrite lookup_insert_ne by (by apply not_eq_sym).
    by rewrite lookup_delete_eq.
  - by rewrite lookup_insert_eq.
  - intros k Hk1 Hk2. rewrite lookup_insert_ne by (by apply not_eq_sym).
    rewrite lookup_delete_ne by (by apply not_eq_sym).
    by rewrite lookup_insert_ne by (by apply not_eq_sym).
Qed.

Lemma move_loses_payload_on_lost_reply_witness :
  ∃ w',
    run_on [Delivered; Delivered; LostAfter] 2
      (via_adapter 2 (_move "/queue/items/item-0000000000"
                        "/queue/consumers/consumer-0000000000/item")) w_ready
    = (Returned None, w',
       [(Get "/queue/items/item-0000000000",
         inr (RData "job-a" (zstat (write_data (fresh_node "" 0 None) "job-a"))));
        (SetData "/queue/consumers/consumer-0000000000/item" "job-a" (-1),
         inr RUnit);
        (Delete "/queue/items/item-0000000000" 1, inl ConnectionLossException);
        (Time_sleep, inr RUnit);
        (Delete "/queue/items/item-0000000000" 1, inl NoNodeException);
        (SetData "/queue/consumers/consumer-0000000000/item" "" (-1),
         inr RUnit)]) ∧
    nodes w' !! "/queue/items/item-0000000000" = None ∧
    data_at "/queue/consumers/consumer-0000000000/item" w' = Some "" ∧
    ∀ k, k ≠ "/queue/items/item-0000000000" →
         k ≠ "/queue/consumers/consumer-0000000000/item" →
         nodes w' !! k = nodes w_ready !! k.
Proof.
  apply (move_loses_payload_on_lost_reply 2 0 "/queue/items/item-0000000000"
           "/queue/consumers/consumer-0000000000/item"
           (write_data (fresh_node "" 0 None) "job-a")
           (fresh_node "" 0 None) w_ready).
  - vm_compute. reflexivity.
  - done.
  - vm_compute. reflexivity.
  - done.
  - vm_compute. reflexivity.
Defined.

Lemma lost_requests_are_harmless_witness :
  (run_on [LostBefore; Delivered; LostBefore] 1
     (via_adapter 4 (put 1 "job-a")) w_idle).1
  = (run 1 (put 1 "job-a") w_idle).1.
Proof.
  apply (lost_requests_are_harmless [LostBefore; Delivered; LostBefore] 1 4).
  - repeat constructor; discriminate.
  - simpl. lia.
Defined.

(** *** [_connect] *)

Lemma connect_ok_step (s : connecting) (a : connect_action) :
  connect_ok s = true → connect_ok (connect_step s a) = true.
Proof.
  destruct s as [[] [] [[]|] [] []], a; vm_compute;
    intros H; first [reflexivity | discriminate H].
Qed.

Lemma connect_ok_run (sched : list connect_action) :
  connect_ok (connect_run sched) = true.
Proof.
  unfold connect_run.
  assert (H : connect_ok connect_start = true) by reflexivity.
  revert H. generalize connect_start.
  induction sched as [|a sched IH]; intros s Hs; [done|].
  cbn. apply IH. by apply connect_ok_step.
Qed.

Lemma woken_ok_step (s : connecting) (a : connect_action) :
  is_timeout a = false →
  connect_ok s = true → woken_ok s = true →
  woken_ok (connect_step s a) = true.
Proof.
  destruct s as [[] [] [[]|] [] []], a; vm_compute;
    intros H0 H1 H2;
    first [reflexivity | discriminate H0 | discriminate H1 | discriminate H2].
Qed.

Lemma quiet_ok_step (s : connecting) (a : connect_action) :
  is_event a = false →
  quiet_ok s = true → quiet_ok (connect_step s a) = true.
Proof.
  destruct s as [[] [] [[]|] [] []], a; vm_compute;
    intros H0 H1;
    first [reflexivity | discriminate H0 | discriminate H1].
Qed.

Lemma woken_ok_run (sched : list connect_action) :
  Forall (λ a, is_timeout a = false) sched →
  woken_ok (connect_run sched) = true.
Proof.
  unfold connect_run.
  assert (H1 : connect_ok connect_start = true) by reflexivity.
  assert (H2 : woken_ok connect_start = true) by reflexivity.
  revert H1 H2. generalize connect_start.
  induction sched as [|a sched IH]; intros s H1 H2 Hsched; [done|].
  apply Forall_cons in Hsched as [Ha Hsched]. cbn. apply IH; [| |done].
  - by apply connect_ok_step.
  - by apply woken_ok_step.
Qed.

Lemma quiet_ok_run (sched : list connect_action) :
  Forall (λ a, is_event a = false) sched →
  quiet_ok (connect_run sched) = true.
Proof.
  unfold connect_run.
  assert (H : quiet_ok connect_start = true) by reflexivity.
  revert H. generalize connect_start.
  induction sched as [|a sched IH]; intros s H Hsched; [done|].
  apply Forall_cons in Hsched as [Ha Hsched]. cbn. apply IH; [|done].
  by apply quiet_ok_step.
Qed.

(** X22. At every moment of [_connect], however the constructor's thread,
    the callbacks and the time-out interleave: when [_connect] has returned,
    [_connected] is set, the handle is initialised and the constructor holds
    the lock no more; when it has left by [sys.exit(-1)], it still holds the
    lock, so no callback is past its [acquire()]; [_connected] is never set
    before the constructor waits; the callback holds the lock only while the
    constructor sleeps in [wait], waits for the lock after it, or has
    returned; and a constructor that sleeps with the flag set is about to be
    notified: no wake-up is lost. *)
Theorem connect_safety (sched : list connect_action) :
  let s := connect_run sched in
  (cpc s = CReturned →
     connected s = true ∧ handle s = true ∧ holder s ≠ Some Constructor) ∧
  (cpc s = CExited →
     handle s = true ∧ holder s = Some Constructor ∧ wpc s ∈ [WIdle; WAcquire]) ∧
  (connected s = true → cpc s ∉ [CAcquire; CInit; CWait]) ∧
  (holder s = Some Library → cpc s ∈ [CSleeping; CReacquire; CReturned]) ∧
  (cpc s = CSleeping → connected s = true → wpc s = WNotify).
Proof.
  intros s. subst s. pose proof (connect_ok_run sched) as H.
  destruct (connect_run sched) as [[] [] [[]|] [] []];
    vm_compute in H; try discriminate H;
    apply (bool_decide_unpack _); by vm_compute.
Qed.

(** X23. [_connect] leaves by [sys.exit(-1)] only if its [wait] timed out:
    without a time-out the constructor gets past [wait] only with
    [_connected] set. It returns only if an event was delivered: without one
    [_connected] stays unset. One event is enough, whatever its type and
    state, which the callback does not read; and with a time-out and no event
    [_connect] exits, holding the lock. *)
Theorem connect_outcome (sched : list connect_action) :
  (Forall (λ a, is_timeout a = false) sched →
   cpc (connect_run sched) ≠ CExited ∧
   (cpc (connect_run sched) ∈ [CReacquire; CCheck] →
    connected (connect_run sched) = true)) ∧
  (Forall (λ a, is_event a = false) sched →
   cpc (connect_run sched) ≠ CReturned ∧
   connected (connect_run sched) = false) ∧
  (∀ type state path,
     connect_run
       [StepConstructor; StepConstructor; Event type state path;
        StepConstructor; StepWatcher; StepWatcher; StepWatcher; StepWatcher;
        StepConstructor; StepConstructor; StepConstructor]
     = {| cpc := CReturned; wpc := WIdle; holder := None; connected := true;
          handle := true |}) ∧
  connect_run
    [StepConstructor; StepConstructor; StepConstructor; TimeOut;
     StepConstructor; StepConstructor]
  = {| cpc := CExited; wpc := WIdle; holder := Some Constructor;
       connected := false; handle := true |}.
Proof.
  split; [|split; [|split]].
  - intros Hsched. pose proof (woken_ok_run sched Hsched) as H.
    destruct (connect_run sched) as [[] [] [[]|] [] []];
      vm_compute in H; try discriminate H;
      apply (bool_decide_unpack _); by vm_compute.
  - intros Hsched. pose proof (quiet_ok_run sched Hsched) as H.
    pose proof (connect_ok_run sched) as H'.
    destruct (connect_run sched) as [[] [] [[]|] [] []];
      vm_compute in H; try discriminate H;
      vm_compute in H'; try discriminate H';
      apply (bool_decide_unpack _); by vm_compute.
  - intros type state path. reflexivity.
  - reflexivity.
Qed.

(** *** First in, first out *)

Lemma str_app_nil_r (s : string) : s +:+ "" = s.
Proof.
  induction s as [|c s IH]; [done|].
  change (String c (s +:+ "") = String c s). by rewrite IH.
Qed.

Lemma compare_app_same (p s t : string) :
  String.compare (p +:+ s) (p +:+ t) = String.compare s t.
Proof.
  induction p as [|c p IH]; [done|].
  change (String.compare (String c (p +:+ s)) (String c (p +:+ t))
          = String.compare s t).
  cbn [String.compare]. unfold Ascii.compare. by rewrite N.compare_refl.
Qed.

Lemma compare_app_lt (a b s t : string) :
  String.length a = String.length b →
  String.compare a b = Lt →
  String.compare (a +:+ s) (b +:+ t) = Lt.
Proof.
  revert b. induction a as [|c a IH]; intros [|d b] Hlen Hlt; try done.
  change (String.compare (String c (a +:+ s)) (String d (b +:+ t)) = Lt).
  cbn [String.compare] in *.
  destruct (Ascii.compare c d); [|done|done].
  apply IH; [|done]. simpl in Hlen. lia.
Qed.

Lemma digits_length (k : nat) (x : N) : String.length (digits k x) = k.
Proof.
  revert x. induction k as [|k IH]; intros x; [done|].
  cbn [digits]. rewrite str_app_length, IH. simpl. lia.
Qed.

Lemma pretty_N_char_lt (x y : N) :
  (x < y)%N → (y < 10)%N →
  Ascii.compare (pretty_N_char x) (pretty_N_char y) = Lt.
Proof.
  intros Hxy Hy.
  assert (y = 1 ∨ y = 2 ∨ y = 3 ∨ y = 4 ∨ y = 5 ∨ y = 6 ∨ y = 7 ∨ y = 8
          ∨ y = 9)%N as Hd by lia.
  destruct Hd as [->|[->|[->|[->|[->|[->|[->|[->| ->]]]]]]]];
    repeat (destruct x as [|x] using N.peano_ind; [reflexivity|];
            try (exfalso; lia); rewrite <- ?N.add_1_r in * );
    exfalso; lia.
Qed.

Lemma digits_lt (k : nat) (x y : N) :
  (x < y)%N → (y < 10 ^ N.of_nat k)%N →
  String.compare (digits k x) (digits k y) = Lt.
Proof.
  revert x y. induction k as [|k IH]; intros x y Hxy Hy.
  { simpl in Hy. lia. }
  cbn [digits].
  assert (Hpow : (10 ^ N.of_nat (S k) = 10 * 10 ^ N.of_nat k)%N).
  { rewrite Nat2N.inj_succ, N.pow_succ_r'. done. }
  assert (Hq : (x `div` 10 ≤ y `div` 10)%N) by (apply N.Div0.div_le_mono; lia).
  destruct (decide (x `div` 10 = y `div` 10)%N) as [Heq|Hne].
  - rewrite Heq, compare_app_same. cbn [String.compare].
    rewrite pretty_N_char_lt; [done| |by apply N.mod_lt].
    pose proof (N.div_mod x 10). pose proof (N.div_mod y 10). lia.
  - apply compare_app_lt; [by rewrite !digits_length|].
    apply IH; [lia|].
    apply N.Div0.div_lt_upper_bound. lia.
Qed.

Lemma pretty_N_go_app (x : N) (s : string) :
  pretty_N_go x s = pretty_N_go x "" +:+ s.
Proof.
  revert s. induction (N.lt_wf_0 x) as [x _ IH]; intros s.
  destruct (N.eq_0_gt_0_cases x) as [->|Hx]; [by rewrite !pretty_N_go_0|].
  rewrite !(pretty_N_go_step x) by done.
  assert (Hlt : (x `div` 10 < x)%N) by (by apply N.div_lt).
  rewrite (IH _ Hlt (String (pretty_N_char (x `mod` 10)) s)).
  rewrite (IH _ Hlt (String (pretty_N_char (x `mod` 10)) "")).
  by rewrite str_app_assoc.
Qed.

Lemma zeros_snoc (j : nat) : zeros j +:+ "0" = zeros (S j).
Proof.
  induction j as [|j IH]; [done|].
  change (String "0" (zeros j +:+ "0") = String "0" (zeros (S j))).
  by rewrite IH.
Qed.

Lemma zeros_length (j : nat) : String.length (zeros j) = j.
Proof. unfold zeros. induction j as [|j IH]; [done|]. simpl. by rewrite IH. Qed.

(** The digits are the zero-padded print-out. *)
Lemma digits_pretty (k : nat) (x : N) :
  (x < 10 ^ N.of_nat k)%N →
  digits k x = zeros (k - String.length (pretty_N_go x "")) +:+ pretty_N_go x "".
Proof.
  revert x. induction k as [|k IH]; intros x Hx.
  { simpl in Hx. assert (x = 0%N) as -> by lia. done. }
  assert (Hpow : (10 ^ N.of_nat (S k) = 10 * 10 ^ N.of_nat k)%N).
  { rewrite Nat2N.inj_succ, N.pow_succ_r'. done. }
  cbn [digits]. rewrite IH by (apply N.Div0.div_lt_upper_bound; lia).
  destruct (N.eq_0_gt_0_cases x) as [->|Hpos].
  - change (0 `div` 10)%N with 0%N. rewrite !pretty_N_go_0.
    change (0 `mod` 10)%N with 0%N. cbn [String.length pretty_N_char].
    rewrite !str_app_nil_r, !Nat.sub_0_r. apply zeros_snoc.
  - rewrite (pretty_N_go_step x) by done.
    rewrite (pretty_N_go_app (x `div` 10)%N (String _ "")).
    rewrite str_app_assoc, str_app_length. cbn [String.length].
    assert (Hlen : String.length (pretty_N_go (x `div` 10) "") ≤ k).
    { pose proof (digits_length k (x `div` 10)%N) as Hd.
      rewrite IH in Hd by (apply N.Div0.div_lt_upper_bound; lia).
      rewrite str_app_length, zeros_length in Hd. lia. }
    replace (S k - (String.length (pretty_N_go (x `div` 10) "") + 1))
      with (k - String.length (pretty_N_go (x `div` 10) "")) by lia.
    done.
Qed.

Lemma pad10_digits (n : nat) :
  (N.of_nat n < 10 ^ 10)%N → pad10 n = digits 10 (N.of_nat n).
Proof.
  intros Hn. rewrite (digits_pretty 10) by done.
  unfold pad10, pretty at 1 2, pretty_nat, pretty, pretty_N.
  case_decide as H0; [|done].
  rewrite H0. reflexivity.
Qed.

Lemma pad10_lt (n m : nat) :
  n < m → (N.of_nat m < 10 ^ 10)%N →
  String.compare (pad10 n) (pad10 m) = Lt.
Proof.
  intros Hnm Hm. rewrite !pad10_digits by lia.
  apply digits_lt; [lia|done].
Qed.

Lemma not_child (p k : string) :
  p ≠ "" → parent_of k ≠ p → child_name p k = None.
Proof.
  intros Hp Hpar. destruct (child_name p k) as [c|] eqn:Hc; [|done].
  apply child_name_Some in Hc as [-> Hc]. by rewrite parent_of_child in Hpar.
Qed.

Lemma sorted_pair (a b : string) (l : list string) :
  String.compare a b = Lt → l ≡ₚ [a; b] → sorted l = [a; b].
Proof.
  intros Hlt Hl. symmetry in Hl. apply Permutation_length_2_inv in Hl.
  assert (Hab : str_le a b) by (unfold str_le, String.leb; by rewrite Hlt).
  assert (Hba : ¬ str_le b a).
  { unfold str_le, String.leb. rewrite String.compare_antisym, Hlt. done. }
  destruct Hl as [-> | ->]; unfold sorted; cbn.
  - by rewrite decide_True.
  - by rewrite decide_False.
Qed.

Lemma put_alone_world (sid fuel : nat) (value : string) (w : world)
    (dir : znode) :
  let c := "item-" +:+ pad10 (cversion (zstat dir)) in
  nodes w !! "/queue/items" = Some dir →
  ephemeralOwner (zstat dir) = None →
  nodes w !! item_path c = None →
  run sid (put (S fuel) value) w =
    (Returned (),
     set_nodes w
       (<[item_path c := write_data (fresh_node "" (clock w) None) value]>
          (<["/queue/items" := bump_cversion dir]> (nodes w))),
     [(Create "/queue/items/item-" "" SEQUENCE, inr (RPath (item_path c)));
      (SetData (item_path c) value 0, inr RUnit)]).
Proof.
  intros c Hdir Hplain Hfree.
  unfold run, put. cbn [retry_on]. unfold put_body, zk_create, zk_set, call_unit.
  cbn [bind try_except run_with interfere].
  rewrite (exec_create_sequence sid "/queue/items/item-" "" SEQUENCE w dir);
    [|done..].
  change (parent_of "/queue/items/item-") with "/queue/items".
  change ("/queue/items/item-" +:+ pad10 (cversion (zstat dir)))
    with (item_path c).
  change (Z.testbit SEQUENCE 0) with false. cbn iota.
  cbn [bind try_except run_with interfere tail].
  unfold exec, store_set. cbn [nodes set_nodes].
  rewrite lookup_insert_eq.
  change (version_ok 0 (fresh_node "" (clock w) None)) with true.
  cbn iota. cbn [bind try_except run_with]. unfold set_nodes. cbn.
  by rewrite insert_insert_eq.
Qed.

Lemma children_insert_elsewhere (m : gmap string znode) (p k : string)
    (n : znode) :
  p ≠ "" → parent_of k ≠ p → children (<[k := n]> m) p ≡ₚ children m p.
Proof. intros Hp Hk. apply children_insert_same. right. by apply not_child. Qed.

Lemma children_delete_elsewhere (m : gmap string znode) (p k : string) :
  p ≠ "" → parent_of k ≠ p → children (delete k m) p ≡ₚ children m p.
Proof. intros Hp Hk. apply children_delete_other. by apply not_child. Qed.

Lemma empty_items_free (m : gmap string znode) (c : string) :
  has_slash c = false → c ≠ "" →
  children m "/queue/items" = [] → m !! item_path c = None.
Proof.
  intros Hc Hne Hempty. destruct (m !! item_path c) as [x|] eqn:Hx; [|done].
  assert (Hin : c ∈ children m "/queue/items").
  { apply elem_of_children. exists (item_path c). split; [by eauto|].
    by apply item_child. }
  rewrite Hempty in Hin. by apply elem_of_nil in Hin.
Qed.

Lemma item_names_in_order (n : nat) :
  (N.of_nat (S n) < 2 ^ 31)%N →
  String.compare ("item-" +:+ pad10 n) ("item-" +:+ pad10 (S n)) = Lt.
Proof.
  intros Hn. rewrite compare_app_same. apply pad10_lt; [lia|].
  eapply N.lt_trans; [exact Hn|]. done.
Qed.

(** X24. First in, first out. In a store that is a tree, with /queue/items
    there, not ephemeral and with no children, its counter of children below
    2^31 - 1 (so that ten digits hold the next numbers), and the consumer's
    slot there:
    two [put]s of non-empty values, then a blocking [reserve()], [done()] and
    a second [reserve()], each left alone, hand the consumer the first value
    and then the second, since the ten digits of the sequential names sort
    as the numbers do; the slot then holds the second value and the queue is
    empty. *)
Theorem first_in_first_out (sp sc fuel : nat) (id v1 v2 : string)
    (dir nd : znode) (w : world) :
  consumer_path id →
  v1 ≠ "" → v2 ≠ "" →
  tree (nodes w) →
  nodes w !! "/queue/items" = Some dir →
  ephemeralOwner (zstat dir) = None →
  children (nodes w) "/queue/items" = [] →
  nodes w !! slot_path id = Some nd →
  (N.of_nat (S (cversion (zstat dir))) < 2 ^ 31)%N →
  ∃ w1 w2 w3 w4 w5 tr1 tr2 tr3 tr4 tr5,
    run sp (put (S fuel) v1) w = (Returned (), w1, tr1) ∧
    run sp (put (S fuel) v2) w1 = (Returned (), w2, tr2) ∧
    run sc (reserve (S fuel) {| _id := Some id |} true) w2
      = (Returned (Some v1), w3, tr3) ∧
    run sc (done {| _id := Some id |}) w3 = (Returned (), w4, tr4) ∧
    run sc (reserve (S fuel) {| _id := Some id |} false) w4
      = (Returned (Some v2), w5, tr5) ∧
    data_at (slot_path id) w5 = Some v2 ∧
    children (nodes w5) "/queue/items" = [].
Proof.
  intros Hid Hv1 Hv2 Ht Hdir Hplain Hempty Hslot Hbound.
  set (d := cversion (zstat dir)) in *.
  set (c0 := "item-" +:+ pad10 d).
  set (c1 := "item-" +:+ pad10 (S d)).
  destruct (sequence_item d) as [Hc0 Hc0ne]. fold c0 in Hc0, Hc0ne.
  destruct (sequence_item (S d)) as [Hc1 Hc1ne]. fold c1 in Hc1, Hc1ne.
  pose proof (item_names_in_order d Hbound) as Hlt. fold c0 c1 in Hlt.
  assert (Hc01 : item_path c0 ≠ item_path c1).
  { intros Heq. apply item_path_inj in Heq. rewrite Heq in Hlt.
    pose proof (String.compare_antisym c1 c1) as Hanti.
    rewrite Hlt in Hanti. discriminate Hanti. }
  pose proof (empty_items_free _ c0 Hc0 Hc0ne Hempty) as Hfree0.
  pose proof (empty_items_free _ c1 Hc1 Hc1ne Hempty) as Hfree1.
  pose proof (items_not_item c0) as Hi0. pose proof (items_not_item c1) as Hi1.
  pose proof (slot_not_item id c0 Hid) as Hs0.
  pose proof (slot_not_item id c1 Hid) as Hs1.
  pose proof (slot_not_items id Hid) as Hsi.
  pose proof (item_parent c0 Hc0) as Hp0. pose proof (item_parent c1 Hc1) as Hp1.
  assert (Hidne : id ≠ "") by (destruct Hid as [s ->]; simpl; discriminate).
  assert (Hps : parent_of (slot_path id) = id).
  { change (slot_path id) with (id +:+ String "/" "item").
    by apply parent_of_sub. }
  assert (Hid0 : id ≠ item_path c0).
  { destruct Hid as [s ->]. unfold item_path. simpl. discriminate. }
  assert (Hid1 : id ≠ item_path c1).
  { destruct Hid as [s ->]. unfold item_path. simpl. discriminate. }
  assert (Hidi : id ≠ "/queue/items").
  { destruct Hid as [s ->]. simpl. discriminate. }
  assert (Hpi0 : "/queue/items" ≠ item_path c0) by done.
  assert (Hq0 : parent_of "/queue/items" ≠ item_path c0).
  { change (parent_of "/queue/items") with "/queue".
    unfold item_path. simpl. discriminate. }
  assert (Hq1 : parent_of "/queue/items" ≠ item_path c1).
  { change (parent_of "/queue/items") with "/queue".
    unfold item_path. simpl. discriminate. }
  assert (Hn0 : item_path c0 ≠ "") by (unfold item_path; simpl; discriminate).
  assert (Hn1 : item_path c1 ≠ "") by (unfold item_path; simpl; discriminate).
  (* the first put *)
  pose proof (put_alone_world sp fuel v1 w dir Hdir Hplain Hfree0) as Hput1.
  cbn zeta in Hput1. fold d c0 in Hput1.
  set (N1 := write_data (fresh_node "" (clock w) None) v1) in *.
  set (m1 := <[item_path c0 := N1]>
               (<["/queue/items" := bump_cversion dir]> (nodes w))) in *.
  set (w1 := set_nodes w m1) in *.
  assert (Hdir1 : nodes w1 !! "/queue/items" = Some (bump_cversion dir)).
  { unfold w1, m1. cbn [nodes set_nodes].
    rewrite lookup_insert_ne by (by apply not_eq_sym).
    by rewrite lookup_insert_eq. }
  assert (Hfree11 : nodes w1 !! item_path c1 = None).
  { unfold w1, m1. cbn [nodes set_nodes].
    rewrite lookup_insert_ne by done.
    by rewrite lookup_insert_ne by done. }
  (* the second put *)
  pose proof (put_alone_world sp fuel v2 w1 (bump_cversion dir) Hdir1 Hplain
                Hfree11) as Hput2.
  cbn zeta in Hput2.
  change (cversion (zstat (bump_cversion dir))) with (S d) in Hput2.
  fold c1 in Hput2.
  set (N2 := write_data (fresh_node "" (clock w1) None) v2) in *.
  set (m2 := <[item_path c1 := N2]>
               (<["/queue/items" := bump_cversion (bump_cversion dir)]>
                  (nodes w1))) in *.
  set (w2 := set_nodes w1 m2) in *.
  assert (Hch2 : children (nodes w2) "/queue/items" ≡ₚ [c0; c1]).
  { unfold w2, m2, w1, m1. cbn [nodes set_nodes].
    rewrite children_insert_fresh with (c := c1);
      [|by rewrite lookup_insert_ne by done|by apply item_child].
    rewrite children_insert_same
      by (left; rewrite lookup_insert_ne by (by apply not_eq_sym);
          rewrite lookup_insert_eq; eauto).
    rewrite children_insert_fresh with (c := c0);
      [|by rewrite lookup_insert_ne by done|by apply item_child].
    rewrite children_insert_same by (left; eauto).
    rewrite Hempty. apply perm_swap. }
  assert (Hsorted2 : sorted (children (nodes w2) "/queue/items") = [c0; c1]).
  { by apply sorted_pair. }
  assert (Hleaf0 : children (nodes w) (item_path c0) = []).
  { by apply tree_absent_leaf. }
  assert (Hleaf1 : children (nodes w) (item_path c1) = []).
  { by apply tree_absent_leaf. }
  assert (Hleaf20 : children (nodes w2) (item_path c0) = []).
  { apply Permutation_nil_r. unfold w2, m2, w1, m1. cbn [nodes set_nodes].
    rewrite !children_insert_elsewhere by (done || congruence).
    by rewrite Hleaf0. }
  assert (Hleaf21 : children (nodes w2) (item_path c1) = []).
  { apply Permutation_nil_r. unfold w2, m2, w1, m1. cbn [nodes set_nodes].
    rewrite !children_insert_elsewhere by (done || congruence).
    by rewrite Hleaf1. }
  assert (Hitem20 : nodes w2 !! item_path c0 = Some N1).
  { unfold w2, m2, w1, m1. cbn [nodes set_nodes].
    rewrite lookup_insert_ne by (by apply not_eq_sym).
    rewrite lookup_insert_ne by done. by rewrite lookup_insert_eq. }
  assert (Hitem21 : nodes w2 !! item_path c1 = Some N2).
  { unfold w2, m2. cbn [nodes set_nodes]. by rewrite lookup_insert_eq. }
  assert (Hslot2 : nodes w2 !! slot_path id = Some nd).
  { unfold w2, m2, w1, m1. cbn [nodes set_nodes].
    by rewrite !lookup_insert_ne by (by apply not_eq_sym). }
  assert (Hdir2 : is_Some (nodes w2 !! "/queue/items")).
  { unfold w2, m2. cbn [nodes set_nodes].
    rewrite lookup_insert_ne by (by apply not_eq_sym).
    rewrite lookup_insert_eq. by eauto. }
  (* the first reserve *)
  destruct (reserve_head_alone sc fuel id c0 [c1] N1 nd w2 Hid Hdir2 Hsorted2
              Hitem20 Hv1 Hleaf20 Hslot2) as [_ Hres1].
  change (data N1) with v1 in Hres1.
  set (m3 := delete (item_path c0)
               (<[slot_path id := write_data nd v1]> (nodes w2))) in *.
  set (w3 := set_nodes w2 m3) in *.
  assert (Hslot3 : nodes w3 !! slot_path id = Some (write_data nd v1)).
  { unfold w3, m3. cbn [nodes set_nodes].
    rewrite lookup_delete_ne by (by apply not_eq_sym).
    by rewrite lookup_insert_eq. }
  assert (Hch3 : children (nodes w3) "/queue/items" = [c1]).
  { apply Permutation_singleton_r. unfold w3, m3. cbn [nodes set_nodes].
    pose proof (children_delete_child
                  (<[slot_path id := write_data nd v1]> (nodes w2))
                  "/queue/items" (item_path c0) c0) as Hperm.
    rewrite children_insert_same in Hperm by eauto.
    rewrite Hch2 in Hperm. symmetry. eapply Permutation_cons_inv, Hperm.
    - rewrite lookup_insert_ne by done. by eauto.
    - by apply item_child. }
  (* done *)
  pose proof (done_alone sc id _ w3 Hslot3) as Hdone.
  set (m4 := <[slot_path id := write_data (write_data nd v1) ""]> (nodes w3))
    in *.
  set (w4 := set_nodes w3 m4) in *.
  assert (Hch4 : children (nodes w4) "/queue/items" = [c1]).
  { apply Permutation_singleton_r. unfold w4, m4. cbn [nodes set_nodes].
    rewrite children_insert_same by eauto. by rewrite Hch3. }
  assert (Hitem41 : nodes w4 !! item_path c1 = Some N2).
  { unfold w4, m4, w3, m3. cbn [nodes set_nodes].
    rewrite lookup_insert_ne by done.
    rewrite lookup_delete_ne by done.
    by rewrite lookup_insert_ne by done. }
  assert (Hleaf41 : children (nodes w4) (item_path c1) = []).
  { apply Permutation_nil_r. unfold w4, m4, w3, m3. cbn [nodes set_nodes].
    rewrite children_insert_elsewhere by (done || congruence).
    rewrite children_delete_elsewhere by (done || congruence).
    rewrite children_insert_elsewhere by (done || congruence).
    by rewrite Hleaf21. }
  assert (Hslot4 : nodes w4 !! slot_path id
                   = Some (write_data (write_data nd v1) "")).
  { unfold w4, m4. cbn [nodes set_nodes]. by rewrite lookup_insert_eq. }
  assert (Hdir4 : is_Some (nodes w4 !! "/queue/items")).
  { unfold w4, m4, w3, m3. cbn [nodes set_nodes].
    rewrite lookup_insert_ne by done.
    rewrite lookup_delete_ne by (by apply not_eq_sym).
    by rewrite lookup_insert_ne by done. }
  (* the second reserve *)
  assert (Hsorted4 : sorted (children (nodes w4) "/queue/items") = [c1]).
  { by rewrite Hch4. }
  destruct (reserve_head_alone sc fuel id c1 [] N2 _ w4 Hid Hdir4 Hsorted4
              Hitem41 Hv2 Hleaf41 Hslot4) as [Hres2 _].
  change (data N2) with v2 in Hres2.
  set (m5 := delete (item_path c1) _) in *.
  set (w5 := set_nodes w4 m5) in *.
  exists w1, w2, w3, w4, w5. eexists _, _, _, _, _.
  split; [exact Hput1|]. split; [exact Hput2|]. split; [exact Hres1|].
  split; [exact Hdone|]. split; [exact Hres2|]. split.
  - unfold data_at, w5, m5. cbn [nodes set_nodes].
    rewrite lookup_delete_ne by (by apply not_eq_sym).
    by rewrite lookup_insert_eq.
  - apply Permutation_nil_r. unfold w5, m5. cbn [nodes set_nodes].
    pose proof (children_delete_child
                  (<[slot_path id := write_data
                        (write_data (write_data nd v1) "") v2]> (nodes w4))
                  "/queue/items" (item_path c1) c1) as Hperm.
    rewrite children_insert_same in Hperm by eauto.
    rewrite Hch4 in Hperm. symmetry. eapply Permutation_cons_inv, Hperm.
    + rewrite lookup_insert_ne by done. by eauto.
    + by apply item_child.
Qed.

Lemma first_in_first_out_witness :
  ∃ w1 w2 w3 w4 w5 tr1 tr2 tr3 tr4 tr5,
    run 1 (put 1 "job-a") w_idle = (Returned (), w1, tr1) ∧
    run 1 (put 1 "job-b") w1 = (Returned (), w2, tr2) ∧
    run 2 (reserve 1 consumer0 true) w2 = (Returned (Some "job-a"), w3, tr3) ∧
    run 2 (done consumer0) w3 = (Returned (), w4, tr4) ∧
    run 2 (reserve 1 consumer0 false) w4 = (Returned (Some "job-b"), w5, tr5) ∧
    data_at (slot_path "/queue/consumers/consumer-0000000000") w5
      = Some "job-b" ∧
    children (nodes w5) "/queue/items" = [].
Proof.
  apply (first_in_first_out 1 2 0 "/queue/consumers/consumer-0000000000"
           "job-a" "job-b" (fresh_node "" 0 None) (fresh_node "" 0 None)
           w_idle).
  - by exists "consumer-0000000000".
  - done.
  - done.
  - intros k Hk Hroot.
    assert (Hin : k ∈ (map_to_list (nodes w_idle)).*1).
    { destruct Hk as [x Hx]. apply list_elem_of_fmap. exists (k, x).
      split; [done|]. by apply elem_of_map_to_list. }
    vm_compute in Hin.
    repeat (apply elem_of_cons in Hin as [->|Hin]; [by vm_compute; eauto|]).
    by apply elem_of_nil in Hin.
  - vm_compute. reflexivity.
  - reflexivity.
  - vm_compute. reflexivity.
  - vm_compute. reflexivity.
  - vm_compute. reflexivity.
Defined.
